(** * use-async-task: the keyed state store and the task controller

  A shallow embedding of [packages/use-async-task/src/store.ts] and of
  the two revisions of [packages/use-async-task/src/useAsyncTask.ts].

  Conventions of the embedding.
  - JavaScript numbers that the code uses as integers (timestamps in
    milliseconds, durations, counters) are [Z].
  - [null] and [undefined] are both [None]: the code only ever tests such
    values for truthiness.  A number field is falsy when it is absent or
    [0]; a string is falsy when it is absent or empty.
  - [Date.now()] is an explicit argument [now].
  - A JavaScript [Map] is a [gmap]; a [Set] of listeners is a list without
    duplicates kept in insertion order (the order in which a [Set] is
    iterated).
  - A listener is a value of a type with decidable equality (function
    identity); calling it is recorded as a pair (listener, delivered
    state) in the list of calls that every store operation returns. *)

From Stdlib Require Import ZArith Lia.
From stdpp Require Import gmap strings list fin_maps.

Local Open Scope Z_scope.

(* ===================================================================== *)
(** ** types.ts *)
(* ===================================================================== *)

Section Types.
Context {T E : Type}.

(** [AsyncState<T, TError>] *)
Record AsyncState := mkAsyncState {
  data : option T;
  loading : bool;
  error : option E;
  retryCount : Z;
  lastUpdated : option Z;
}.

(** [TaskState<T, TError>]: [AsyncState] extended with [requestId]. *)
Record TaskState := mkTaskState {
  ts_data : option T;
  ts_loading : bool;
  ts_error : option E;
  ts_retryCount : Z;
  ts_lastUpdated : option Z;
  requestId : Z;
}.

(** [Partial<AsyncState>]: every key may be missing. *)
Record PartialAsync := mkPartialAsync {
  p_data : option (option T);
  p_loading : option bool;
  p_error : option (option E);
  p_retryCount : option Z;
  p_lastUpdated : option (option Z);
}.

(** [Partial<TaskState>] *)
Record PartialTask := mkPartialTask {
  pt_async : PartialAsync;
  pt_requestId : option Z;
}.

(** [{ ...prev, ...partial }] on an [AsyncState]. *)
Definition spreadAsync (prev : AsyncState) (partial : PartialAsync) : AsyncState :=
  {| data := default (data prev) (p_data partial);
     loading := default (loading prev) (p_loading partial);
     error := default (error prev) (p_error partial);
     retryCount := default (retryCount prev) (p_retryCount partial);
     lastUpdated := default (lastUpdated prev) (p_lastUpdated partial) |}.

(** [{ ...current, ...partial }] on a [TaskState]. *)
Definition spreadTask (current : TaskState) (partial : PartialTask) : TaskState :=
  {| ts_data := default (ts_data current) (p_data (pt_async partial));
     ts_loading := default (ts_loading current) (p_loading (pt_async partial));
     ts_error := default (ts_error current) (p_error (pt_async partial));
     ts_retryCount := default (ts_retryCount current) (p_retryCount (pt_async partial));
     ts_lastUpdated := default (ts_lastUpdated current) (p_lastUpdated (pt_async partial));
     requestId := default (requestId current) (pt_requestId partial) |}.

(** The destructuring in [notifyListeners]:
    [const { data, loading, error, retryCount, lastUpdated } = state]
    followed by the object literal built from these five names. *)
Definition asyncOfTask (state : TaskState) : AsyncState :=
  {| data := ts_data state;
     loading := ts_loading state;
     error := ts_error state;
     retryCount := ts_retryCount state;
     lastUpdated := ts_lastUpdated state |}.

(** Truthiness of a number-or-null field. *)
Definition truthyNum (n : option Z) : bool :=
  match n with
  | Some v => negb (v =? 0)
  | None => false
  end.

(** Truthiness of a string-or-null value. *)
Definition truthyStr (s : option string) : bool :=
  match s with
  | Some v => negb (String.eqb v "")
  | None => false
  end.
End Types.

Arguments AsyncState : clear implicits.
Arguments TaskState : clear implicits.
Arguments PartialAsync : clear implicits.
Arguments PartialTask : clear implicits.

(* ===================================================================== *)
(** ** store.ts *)
(* ===================================================================== *)

Module Store.
Section Store.
Context {T E L : Type} `{EqDecision L}.

(** The two module-level maps, [globalStore] and [listeners]. *)
Record t := mk {
  globalStore : gmap string (TaskState T E);
  listeners : gmap string (list L);
}.

Definition empty : t := {| globalStore := ∅; listeners := ∅ |}.

(** [Set.prototype.add]: nothing happens when the value is present. *)
Definition setAdd (l : L) (ls : list L) : list L :=
  if decide (l ∈ ls) then ls else ls ++ [l].

(** [Set.prototype.delete] *)
Definition setDelete (l : L) (ls : list L) : list L :=
  filter (λ x, x ≠ l) ls.

(** [createInitialState(requestId = 0)] *)
Definition createInitialState (rid : Z) : TaskState T E :=
  {| ts_data := None;
     ts_loading := false;
     ts_error := None;
     ts_retryCount := 0;
     ts_lastUpdated := None;
     requestId := rid |}.

(** [getState(key)] *)
Definition getState (key : string) (s : t) : option (TaskState T E) :=
  globalStore s !! key.

(** [notifyListeners(key, state)]: the calls it makes, in order. *)
Definition notifyListeners (key : string) (state : TaskState T E) (s : t)
  : list (L * AsyncState T E) :=
  match listeners s !! key with
  | Some keyListeners =>
      let asyncState := asyncOfTask state in
      (λ listener, (listener, asyncState)) <$> keyListeners
  | None => []
  end.

(** [setState(key, state)] *)
Definition setState (key : string) (state : TaskState T E) (s : t)
  : t * list (L * AsyncState T E) :=
  let s' := {| globalStore := <[key := state]> (globalStore s);
               listeners := listeners s |} in
  (s', notifyListeners key state s').

(** [updateState(key, partial)] *)
Definition updateState (key : string) (partial : PartialTask T E) (s : t)
  : t * list (L * AsyncState T E) :=
  match getState key s with
  | Some current => setState key (spreadTask current partial) s
  | None => (s, [])
  end.

(** [deleteState(key)] *)
Definition deleteState (key : string) (s : t) : t * list (L * AsyncState T E) :=
  let s' := {| globalStore := delete key (globalStore s);
               listeners := listeners s |} in
  (s', notifyListeners key (createInitialState 0) s').

(** [isCacheValid(state, cacheTime)] *)
Definition isCacheValid (now : Z) (state : option (TaskState T E)) (cacheTime : Z)
  : bool :=
  match state with
  | None => false
  | Some st =>
      if negb (truthyNum (ts_lastUpdated st)) || (cacheTime <=? 0) then false
      else
        match ts_lastUpdated st with
        | Some lu => now - lu <? cacheTime
        | None => false
        end
  end.

(** [subscribe(key, listener)]: the registration. *)
Definition subscribe (key : string) (listener : L) (s : t) : t :=
  let ls := if decide (is_Some (listeners s !! key))
            then listeners s
            else <[key := []]> (listeners s) in
  {| globalStore := globalStore s;
     listeners :=
       match ls !! key with
       | Some keyListeners => <[key := setAdd listener keyListeners]> ls
       | None => ls
       end |}.

(** The closure returned by [subscribe(key, listener)]. *)
Definition unsubscribe (key : string) (listener : L) (s : t) : t :=
  match listeners s !! key with
  | Some keyListeners =>
      let keyListeners' := setDelete listener keyListeners in
      {| globalStore := globalStore s;
         listeners :=
           if decide (length keyListeners' = 0%nat)
           then delete key (listeners s)
           else <[key := keyListeners']> (listeners s) |}
  | None => s
  end.

(** How many times [listener] was called at all. *)
Definition timesInvoked (listener : L) (calls : list (L * AsyncState T E)) : nat :=
  length (filter (λ c, c.1 = listener) calls).

(** The listeners currently subscribed to [key]. *)
Definition subscribers (key : string) (s : t) : list L :=
  default [] (listeners s !! key).

(** Every per-key listener collection is a set: it has no duplicates. *)
Definition wf (s : t) : Prop :=
  map_Forall (λ _ ls, NoDup ls) (listeners s).

#[global] Instance wf_dec (s : t) : Decision (wf s).
Proof. unfold wf. apply _. Defined.
End Store.
Arguments t : clear implicits.
End Store.

(* ===================================================================== *)
(** ** useAsyncTask.ts *)
(* ===================================================================== *)

Module Hook.

(** The source file holds two revisions of the hook.  [Rev1] is the first
    (lines 1-343): no abort controller, the key is computed inside
    [execute] and kept in [currentTaskKeyRef].  [Rev2] is the second
    (lines 344-755): an [AbortController] per [execute], and the key is the
    React state [resolvedTaskKey]. *)
Inductive Revision := Rev1 | Rev2.

(** The listeners of the store: the [syncState] closure of the controller
    under study, and listeners registered by any other code. *)
Inductive Listener := SyncState | External (n : nat).

#[global] Instance Listener_eq_dec : EqDecision Listener.
Proof. solve_decision. Defined.

Section Hook.
Context {T E A : Type}.

(** [taskKey?: string | ((...args) => string)] *)
Inductive TaskKey := KeyStatic (s : string) | KeyDerived (f : list A → string).

(** The options the engine reads ([UseAsyncTaskOptions]). *)
Record Options := mkOptions {
  taskKey : option TaskKey;
  maxRetries : option Z;
  cacheTime : option Z;
}.

(** How the promise returned by the action settles. *)
Inductive Outcome := Fulfilled (result : T) | Rejected (err : E).

(** How a block of code completes: normally, or by a thrown exception. *)
Inductive Completion := Normal (r : option T) | Thrown (err : E).

(** The state of the promise returned by [execute]. *)
Inductive Settled := Resolved (v : option T) | RejectedWith (err : E).
Inductive Progress := Done (s : Settled) | Awaiting.

(** The closure of a [performAction] call suspended at its [await]: the
    variables of the enclosing [execute] call and its own [retryCount]. *)
Record Invocation := mkInvocation {
  inv_args : list A;
  inv_key : option string;
  currentRequestId : Z;
  abortController : nat;
  currentOptions : Options;
  inv_retryCount : Z;
}.

(** The React state and refs of one hook instance. *)
Record Controller := mkController {
  localState : AsyncState T E;
  resolvedTaskKey : option string;
  requestIdRef : Z;
  abortControllerRef : option nat;
  pollingTimerRef : option nat;
  unmountedRef : bool;
  lastArgsRef : option (list A);
  currentTaskKeyRef : option string;
  isSyncingRef : bool;
  optionsRef : Options;
}.

(** The controller together with what it shares with the rest of the
    program: the store, the [AbortController] objects (numbered in
    allocation order; [aborted] holds those whose signal is aborted), the
    pending calls of the action, the arguments of every call of the action
    so far, and every listener call made so far. *)
Record World := mkWorld {
  store : Store.t T E Listener;
  ctrl : Controller;
  aborted : gset nat;
  nextAbort : nat;
  inflight : list Invocation;
  actionCalls : list (list A);
  notified : list (Listener * AsyncState T E);
}.

(** *** Field updates *)

Definition with_localState (x : AsyncState T E) (c : Controller) : Controller :=
  mkController x (resolvedTaskKey c) (requestIdRef c) (abortControllerRef c)
    (pollingTimerRef c) (unmountedRef c) (lastArgsRef c) (currentTaskKeyRef c)
    (isSyncingRef c) (optionsRef c).

Definition with_requestIdRef (x : Z) (c : Controller) : Controller :=
  mkController (localState c) (resolvedTaskKey c) x (abortControllerRef c)
    (pollingTimerRef c) (unmountedRef c) (lastArgsRef c) (currentTaskKeyRef c)
    (isSyncingRef c) (optionsRef c).

Definition with_abortControllerRef (x : option nat) (c : Controller) : Controller :=
  mkController (localState c) (resolvedTaskKey c) (requestIdRef c) x
    (pollingTimerRef c) (unmountedRef c) (lastArgsRef c) (currentTaskKeyRef c)
    (isSyncingRef c) (optionsRef c).

Definition with_pollingTimerRef (x : option nat) (c : Controller) : Controller :=
  mkController (localState c) (resolvedTaskKey c) (requestIdRef c)
    (abortControllerRef c) x (unmountedRef c) (lastArgsRef c)
    (currentTaskKeyRef c) (isSyncingRef c) (optionsRef c).

Definition with_unmountedRef (x : bool) (c : Controller) : Controller :=
  mkController (localState c) (resolvedTaskKey c) (requestIdRef c)
    (abortControllerRef c) (pollingTimerRef c) x (lastArgsRef c)
    (currentTaskKeyRef c) (isSyncingRef c) (optionsRef c).

Definition with_lastArgsRef (x : option (list A)) (c : Controller) : Controller :=
  mkController (localState c) (resolvedTaskKey c) (requestIdRef c)
    (abortControllerRef c) (pollingTimerRef c) (unmountedRef c) x
    (currentTaskKeyRef c) (isSyncingRef c) (optionsRef c).

Definition with_currentTaskKeyRef (x : option string) (c : Controller) : Controller :=
  mkController (localState c) (resolvedTaskKey c) (requestIdRef c)
    (abortControllerRef c) (pollingTimerRef c) (unmountedRef c) (lastArgsRef c)
    x (isSyncingRef c) (optionsRef c).

Definition with_isSyncingRef (x : bool) (c : Controller) : Controller :=
  mkController (localState c) (resolvedTaskKey c) (requestIdRef c)
    (abortControllerRef c) (pollingTimerRef c) (unmountedRef c) (lastArgsRef c)
    (currentTaskKeyRef c) x (optionsRef c).

Definition with_store (x : Store.t T E Listener) (w : World) : World :=
  mkWorld x (ctrl w) (aborted w) (nextAbort w) (inflight w) (actionCalls w)
    (notified w).

Definition with_ctrl (x : Controller) (w : World) : World :=
  mkWorld (store w) x (aborted w) (nextAbort w) (inflight w) (actionCalls w)
    (notified w).

Definition with_aborted (x : gset nat) (w : World) : World :=
  mkWorld (store w) (ctrl w) x (nextAbort w) (inflight w) (actionCalls w)
    (notified w).

Definition with_nextAbort (x : nat) (w : World) : World :=
  mkWorld (store w) (ctrl w) (aborted w) x (inflight w) (actionCalls w)
    (notified w).

Definition with_inflight (x : list Invocation) (w : World) : World :=
  mkWorld (store w) (ctrl w) (aborted w) (nextAbort w) x (actionCalls w)
    (notified w).

Definition with_actionCalls (x : list (list A)) (w : World) : World :=
  mkWorld (store w) (ctrl w) (aborted w) (nextAbort w) (inflight w) x
    (notified w).

Definition with_notified (x : list (Listener * AsyncState T E)) (w : World) : World :=
  mkWorld (store w) (ctrl w) (aborted w) (nextAbort w) (inflight w)
    (actionCalls w) x.

Definition onCtrl (f : Controller → Controller) (w : World) : World :=
  with_ctrl (f (ctrl w)) w.

(** *** Local state *)

(** React's [setLocalState(value)]. *)
Definition setLocalState (st : AsyncState T E) (c : Controller) : Controller :=
  with_localState st c.

(** [updateLocalState(partial)] *)
Definition updateLocalState (partial : PartialAsync T E) (c : Controller) : Controller :=
  if negb (unmountedRef c) && negb (isSyncingRef c)
  then setLocalState (spreadAsync (localState c) partial) c
  else c.

(** The [syncState] listener of the subscribe effect. *)
Definition syncState (state : AsyncState T E) (c : Controller) : Controller :=
  if negb (unmountedRef c)
  then with_isSyncingRef false (setLocalState state (with_isSyncingRef true c))
  else c.

(** One listener call as seen by the controller. *)
Definition callListener (call : Listener * AsyncState T E) (c : Controller) : Controller :=
  match call.1 with
  | SyncState => syncState call.2 c
  | External _ => c
  end.

(** The listener calls of one store operation, made in order. *)
Definition deliver (calls : list (Listener * AsyncState T E)) (c : Controller) : Controller :=
  foldl (λ c call, callListener call c) c calls.

(** Run a store operation: install the new store and make its calls. *)
Definition publish (r : Store.t T E Listener * list (Listener * AsyncState T E))
    (w : World) : World :=
  with_notified (notified w ++ r.2)
    (with_ctrl (deliver r.2 (ctrl w)) (with_store r.1 w)).

(** *** The task key *)

(** [taskKey ? (typeof taskKey === "function" ? taskKey(...args) : taskKey) : null].
    [Rev1] evaluates it in [execute] with the call's arguments; [Rev2]
    evaluates it with no arguments for [resolvedTaskKey]. *)
Definition resolveTaskKey (k : option TaskKey) (args : list A) : option string :=
  match k with
  | Some (KeyStatic s) => if String.eqb s "" then None else Some s
  | Some (KeyDerived f) => Some (f args)
  | None => None
  end.

(** The key under which the subscribe effect registers [syncState], if it
    registers at all.  [Rev1]:
    [typeof taskKey === "function" ? "__dynamic__" : taskKey];
    [Rev2]: [resolvedTaskKey]. *)
Definition subscriptionKey (rev : Revision) (c : Controller) : option string :=
  match rev with
  | Rev1 =>
      match taskKey (optionsRef c) with
      | Some (KeyStatic s) => if String.eqb s "" then None else Some s
      | Some (KeyDerived _) => Some "__dynamic__"
      | None => None
      end
  | Rev2 =>
      if truthyStr (resolvedTaskKey c) then resolvedTaskKey c else None
  end.

(** *** execute *)

(** The cache check at the head of [execute]: the cached state when the
    call is to be answered from the store. *)
Definition cachedFor (key : option string) (opts : Options) (now : Z) (w : World)
  : option (TaskState T E) :=
  match key, cacheTime opts with
  | Some k, Some ct =>
      if truthyStr key && truthyNum (cacheTime opts) && (0 <? ct)
      then
        match Store.getState k (store w) with
        | Some cachedState =>
            if Store.isCacheValid now (Some cachedState) ct
            then Some cachedState
            else None
        | None => None
        end
      else None
  | _, _ => None
  end.

(** [abortControllerRef.current.abort()] when the ref is set ([Rev2]). *)
Definition abortCurrent (w : World) : World :=
  match abortControllerRef (ctrl w) with
  | Some a => with_aborted ({[a]} ∪ aborted w) w
  | None => w
  end.

(** [new AbortController()] stored in [abortControllerRef] ([Rev2]). *)
Definition newAbortController (w : World) : World :=
  onCtrl (with_abortControllerRef (Some (nextAbort w)))
    (with_nextAbort (S (nextAbort w)) w).

(** The store write of the loading transition:
    [{ ...(existing || createInitialState()), loading: true, requestId }]. *)
Definition loadingTask (existing : option (TaskState T E)) (rid : Z) : TaskState T E :=
  let base := default (Store.createInitialState 0) existing in
  {| ts_data := ts_data base;
     ts_loading := true;
     ts_error := ts_error base;
     ts_retryCount := ts_retryCount base;
     ts_lastUpdated := ts_lastUpdated base;
     requestId := rid |}.

(** [if (key) { setState(key, state) }] *)
Definition setStateIfKey (key : option string) (state : TaskState T E) (w : World) : World :=
  match key with
  | Some k =>
      if truthyStr key then publish (Store.setState k state (store w)) w else w
  | None => w
  end.

(** Calling the action: the call is recorded; its promise is pending. *)
Definition callAction (inv : Invocation) (w : World) : World :=
  with_actionCalls (actionCalls w ++ [inv_args inv]) w.

(** [execute(...args)] up to its first suspension. *)
Definition execute (rev : Revision) (args : list A) (now : Z) (w : World)
  : World * Progress :=
  let opts := optionsRef (ctrl w) in
  let w := onCtrl (with_lastArgsRef (Some args)) w in
  let key := match rev with
             | Rev1 => resolveTaskKey (taskKey opts) args
             | Rev2 => resolvedTaskKey (ctrl w)
             end in
  let w := match rev with
           | Rev1 => onCtrl (with_currentTaskKeyRef key) w
           | Rev2 => w
           end in
  match cachedFor key opts now w with
  | Some cachedState =>
      (onCtrl (updateLocalState
                 {| p_data := Some (ts_data cachedState);
                    p_loading := Some false;
                    p_error := Some (ts_error cachedState);
                    p_retryCount := Some (ts_retryCount cachedState);
                    p_lastUpdated := Some (ts_lastUpdated cachedState) |}) w,
       Done (Resolved (ts_data cachedState)))
  | None =>
      let abortId := nextAbort w in
      let w := match rev with
               | Rev1 => w
               | Rev2 => newAbortController (abortCurrent w)
               end in
      let rid := requestIdRef (ctrl w) + 1 in
      let w := onCtrl (with_requestIdRef rid) w in
      let w := onCtrl (updateLocalState
                         {| p_data := None; p_loading := Some true; p_error := None;
                            p_retryCount := None; p_lastUpdated := None |}) w in
      let w := match key with
               | Some k =>
                   setStateIfKey key (loadingTask (Store.getState k (store w)) rid) w
               | None => w
               end in
      let inv := {| inv_args := args; inv_key := key; currentRequestId := rid;
                    abortController := abortId; currentOptions := opts;
                    inv_retryCount := 0 |} in
      (with_inflight (inflight w ++ [inv]) (callAction inv w), Awaiting)
  end.

(** *** performAction, resumed when the action settles *)

(** [unmountedRef.current || currentRequestId !== requestIdRef.current] *)
Definition expired (inv : Invocation) (w : World) : bool :=
  unmountedRef (ctrl w) || negb (currentRequestId inv =? requestIdRef (ctrl w)).

(** [abortController.signal.aborted]; [Rev1] has no abort controller. *)
Definition signalAborted (rev : Revision) (inv : Invocation) (w : World) : bool :=
  match rev with
  | Rev1 => false
  | Rev2 => bool_decide (abortController inv ∈ aborted w)
  end.

(** [if (abortControllerRef.current === abortController)
       abortControllerRef.current = null] ([Rev2]). *)
Definition clearAbortController (rev : Revision) (inv : Invocation) (w : World) : World :=
  match rev with
  | Rev1 => w
  | Rev2 =>
      if bool_decide (abortControllerRef (ctrl w) = Some (abortController inv))
      then onCtrl (with_abortControllerRef None) w
      else w
  end.

(** The [try] block from the [await] on. *)
Definition tryBlock (rev : Revision) (inv : Invocation) (o : Outcome) (now : Z)
    (w : World) : World * Completion :=
  match o with
  | Rejected err => (w, Thrown err)
  | Fulfilled result =>
      if expired inv w || signalAborted rev inv w then (w, Normal None)
      else
        let w := onCtrl (updateLocalState
                           {| p_data := Some (Some result);
                              p_loading := Some false;
                              p_error := Some None;
                              p_retryCount := Some 0;
                              p_lastUpdated := Some (Some now) |}) w in
        let w := setStateIfKey (inv_key inv)
                   {| ts_data := Some result; ts_loading := false;
                      ts_error := None; ts_retryCount := 0;
                      ts_lastUpdated := Some now;
                      requestId := currentRequestId inv |} w in
        (clearAbortController rev inv w, Normal (Some result))
  end.

(** The invocation that the retry [performAction(retryCount + 1)] leaves
    pending. *)
Definition retryOf (inv : Invocation) : Invocation :=
  {| inv_args := inv_args inv; inv_key := inv_key inv;
     currentRequestId := currentRequestId inv;
     abortController := abortController inv;
     currentOptions := currentOptions inv;
     inv_retryCount := inv_retryCount inv + 1 |}.

(** The [catch (err)] block.  [i] is the position of the invocation among
    the pending ones. *)
Definition catchBlock (rev : Revision) (i : nat) (inv : Invocation) (err : E)
    (now : Z) (w : World) : World * Progress :=
  if signalAborted rev inv w then (w, Done (Resolved None))
  else if expired inv w then (w, Done (Resolved None))
  else
    let maxRetries := default 0 (maxRetries (currentOptions inv)) in
    if inv_retryCount inv <? maxRetries
    then
      let w := onCtrl (updateLocalState
                         {| p_data := None; p_loading := None; p_error := None;
                            p_retryCount := Some (inv_retryCount inv + 1);
                            p_lastUpdated := None |}) w in
      (with_inflight (<[i := retryOf inv]> (inflight w)) (callAction (retryOf inv) w),
       Awaiting)
    else
      let w := onCtrl (updateLocalState
                         {| p_data := None; p_loading := Some false;
                            p_error := Some (Some err);
                            p_retryCount := Some (inv_retryCount inv);
                            p_lastUpdated := Some (Some now) |}) w in
      (* the object written has no [data] key *)
      let w := setStateIfKey (inv_key inv)
                 {| ts_data := None; ts_loading := false;
                    ts_error := Some err;
                    ts_retryCount := inv_retryCount inv;
                    ts_lastUpdated := Some now;
                    requestId := currentRequestId inv |} w in
      (clearAbortController rev inv w, Done (Resolved None)).

(** An [async] function whose body completes: a normal completion resolves
    its promise, an exception that leaves the body rejects it. *)
Definition promiseOf (c : Completion) : Settled :=
  match c with
  | Normal r => Resolved r
  | Thrown err => RejectedWith err
  end.

(** [performAction] from its [await] on: [try { ... } catch (err) { ... }]. *)
Definition performAction (rev : Revision) (i : nat) (inv : Invocation) (o : Outcome)
    (now : Z) (w : World) : World * Progress :=
  match tryBlock rev inv o now w with
  | (w1, Thrown err) => catchBlock rev i inv err now w1
  | (w1, Normal r) => (w1, Done (promiseOf (Normal r)))
  end.

(** The [i]-th pending call of the action settles with [o]. *)
Definition settle (rev : Revision) (i : nat) (o : Outcome) (now : Z) (w : World)
  : World * option Progress :=
  match inflight w !! i with
  | None => (w, None)
  | Some inv =>
      match performAction rev i inv o now w with
      | (w1, Done s) => (with_inflight (delete i (inflight w1)) w1, Some (Done s))
      | (w1, Awaiting) => (w1, Some Awaiting)
      end
  end.

(** *** cancel, reset *)

(** [cancel()] *)
Definition cancel (rev : Revision) (w : World) : World :=
  let w := onCtrl (λ c, with_requestIdRef (requestIdRef c + 1) c) w in
  let w := match rev with
           | Rev1 => w
           | Rev2 =>
               match abortControllerRef (ctrl w) with
               | Some _ => onCtrl (with_abortControllerRef None) (abortCurrent w)
               | None => w
               end
           end in
  match pollingTimerRef (ctrl w) with
  | Some _ => onCtrl (with_pollingTimerRef None) w
  | None => w
  end.

(** [if (key) { deleteState(key) }] *)
Definition deleteStateIfKey (key : option string) (w : World) : World :=
  match key with
  | Some k =>
      if truthyStr key then publish (Store.deleteState k (store w)) w else w
  | None => w
  end.

(** [reset()] *)
Definition reset (rev : Revision) (w : World) : World :=
  let w := cancel rev w in
  let key := match rev with
             | Rev1 => currentTaskKeyRef (ctrl w)
             | Rev2 => resolvedTaskKey (ctrl w)
             end in
  let w := deleteStateIfKey key w in
  let w := if negb (unmountedRef (ctrl w))
           then onCtrl (setLocalState (asyncOfTask (Store.createInitialState 0))) w
           else w in
  let w := onCtrl (with_lastArgsRef None) w in
  match rev with
  | Rev1 => onCtrl (with_currentTaskKeyRef None) w
  | Rev2 => w
  end.

(** *** Mounting and unmounting *)

(** The hook's state and refs after the first render. *)
Definition initialController (rev : Revision) (opts : Options) : Controller :=
  {| localState := asyncOfTask (Store.createInitialState 0);
     resolvedTaskKey := match rev with
                        | Rev1 => None
                        | Rev2 => resolveTaskKey (taskKey opts) []
                        end;
     requestIdRef := 0;
     abortControllerRef := None;
     pollingTimerRef := None;
     unmountedRef := false;
     lastArgsRef := None;
     currentTaskKeyRef := None;
     isSyncingRef := false;
     optionsRef := opts |}.

(** The first synchronisation of [Rev2]'s subscribe effect: the existing
    store entry, when there is one, becomes the local state. *)
Definition pullExisting (key : string) (w : World) : World :=
  match Store.getState key (store w) with
  | Some existingState =>
      onCtrl (λ c, with_isSyncingRef false
                     (setLocalState
                        {| data := ts_data existingState;
                           loading := ts_loading existingState;
                           error := ts_error existingState;
                           retryCount := ts_retryCount existingState;
                           lastUpdated := ts_lastUpdated existingState |}
                        (with_isSyncingRef true c))) w
  | None => w
  end.

(** The subscribe effect. *)
Definition subscribeEffect (rev : Revision) (w : World) : World :=
  match subscriptionKey rev (ctrl w) with
  | Some k =>
      let w := match rev with
               | Rev1 => w
               | Rev2 => pullExisting k w
               end in
      with_store (Store.subscribe k SyncState (store w)) w
  | None => w
  end.

(** A hook instance mounted over the store [s]. *)
Definition mount (rev : Revision) (opts : Options) (s : Store.t T E Listener) : World :=
  subscribeEffect rev
    {| store := s; ctrl := initialController rev opts; aborted := ∅;
       nextAbort := 0%nat; inflight := []; actionCalls := []; notified := [] |}.

(** Unmounting runs the effect cleanups in the order of their effects:
    the unsubscribe function, the polling cleanup, the final cleanup. *)
Definition unmount (rev : Revision) (w : World) : World :=
  let w := match subscriptionKey rev (ctrl w) with
           | Some k => with_store (Store.unsubscribe k SyncState (store w)) w
           | None => w
           end in
  let w := match pollingTimerRef (ctrl w) with
           | Some _ => onCtrl (with_pollingTimerRef None) w
           | None => w
           end in
  let w := onCtrl (with_unmountedRef true) w in
  match rev with
  | Rev1 => w
  | Rev2 => abortCurrent w
  end.

(** *** Traces *)

(** What can happen to a mounted controller: calls of its operations, the
    settling of a pending call of the action, a poll timer being armed, and
    store operations made by any other code. *)
Inductive Event :=
  | Execute (args : list A) (now : Z)
  | Settle (i : nat) (o : Outcome) (now : Z)
  | Cancel
  | Reset
  | Unmount
  | ArmPoll (timer : nat)
  | ExtSetState (key : string) (state : TaskState T E)
  | ExtDeleteState (key : string)
  | ExtSubscribe (key : string) (n : nat)
  | ExtUnsubscribe (key : string) (n : nat).

Definition step (rev : Revision) (w : World) (ev : Event) : World :=
  match ev with
  | Execute args now => (execute rev args now w).1
  | Settle i o now => (settle rev i o now w).1
  | Cancel => cancel rev w
  | Reset => reset rev w
  | Unmount => unmount rev w
  | ArmPoll timer => onCtrl (with_pollingTimerRef (Some timer)) w
  | ExtSetState key state => publish (Store.setState key state (store w)) w
  | ExtDeleteState key => publish (Store.deleteState key (store w)) w
  | ExtSubscribe key n => with_store (Store.subscribe key (External n) (store w)) w
  | ExtUnsubscribe key n => with_store (Store.unsubscribe key (External n) (store w)) w
  end.

Definition run (rev : Revision) (w : World) (evs : list Event) : World :=
  foldl (step rev) w evs.

(** The worlds a mounted controller can be in. *)
Definition reachable (rev : Revision) (w : World) : Prop :=
  ∃ opts s evs, w = run rev (mount rev opts s) evs.

(** The action settles [n] more times by rejecting, for the pending call
    at position [i]. *)
Definition rejections (i : nat) (errs : list (E * Z)) : list Event :=
  (λ en, Settle i (Rejected en.1) en.2) <$> errs.

(** *** Invariants of the reachable worlds *)

(** No listener call is in progress between two events, the pending calls
    of the action are ordered by strictly increasing request generation,
    none of them is ahead of the counter, and every [AbortController] that
    exists was allocated before [nextAbort]. *)
Definition wfWorld (w : World) : Prop :=
  isSyncingRef (ctrl w) = false ∧
  (∀ i inv, inflight w !! i = Some inv →
            currentRequestId inv ≤ requestIdRef (ctrl w)) ∧
  (∀ i j a b, inflight w !! i = Some a → inflight w !! j = Some b →
              (i < j)%nat → currentRequestId a < currentRequestId b) ∧
  (∀ a, a ∈ aborted w → (a < nextAbort w)%nat) ∧
  (∀ a, abortControllerRef (ctrl w) = Some a → (a < nextAbort w)%nat).

(** A commit: the local state, the store or the listener calls changed. *)
Definition committed (w w' : World) : Prop :=
  localState (ctrl w') ≠ localState (ctrl w) ∨
  store w' ≠ store w ∨
  notified w' ≠ notified w.

(** The invocation [inv] is pending at position [i] and its result would be
    committed: the controller is mounted, the request generation of [inv]
    is the counter, and its abort signal is not aborted. *)
Definition current (rev : Revision) (i : nat) (inv : Invocation) (w : World) : Prop :=
  inflight w !! i = Some inv ∧
  currentRequestId inv = requestIdRef (ctrl w) ∧
  unmountedRef (ctrl w) = false ∧
  isSyncingRef (ctrl w) = false ∧
  signalAborted rev inv w = false.

(** The controller's own [syncState] is subscribed to [key] in [s]. *)
Definition selfSubscribed (key : option string) (s : Store.t T E Listener) : bool :=
  match key with
  | Some k => truthyStr key && bool_decide (SyncState ∈ Store.subscribers k s)
  | None => false
  end.

(** The key that an [execute] call with [args] works under. *)
Definition keyFor (rev : Revision) (args : list A) (w : World) : option string :=
  match rev with
  | Rev1 => resolveTaskKey (taskKey (optionsRef (ctrl w))) args
  | Rev2 => resolvedTaskKey (ctrl w)
  end.

(** The invocation that an [execute] call with [args] starts. *)
Definition started (rev : Revision) (args : list A) (w : World) : Invocation :=
  {| inv_args := args; inv_key := keyFor rev args w;
     currentRequestId := requestIdRef (ctrl w) + 1;
     abortController := nextAbort w;
     currentOptions := optionsRef (ctrl w);
     inv_retryCount := 0 |}.

(** What no operation of the controller undoes: the options and the
    resolved key stay, the request counter does not decrease, and once the
    controller is unmounted it stays unmounted and its local state stays
    as it is. *)
Definition keeps (w w' : World) : Prop :=
  optionsRef (ctrl w') = optionsRef (ctrl w) ∧
  resolvedTaskKey (ctrl w') = resolvedTaskKey (ctrl w) ∧
  requestIdRef (ctrl w) ≤ requestIdRef (ctrl w') ∧
  (unmountedRef (ctrl w) = true →
   unmountedRef (ctrl w') = true ∧ localState (ctrl w') = localState (ctrl w)).

(** The key that [reset] purges. *)
Definition resetKey (rev : Revision) (w : World) : option string :=
  match rev with
  | Rev1 => currentTaskKeyRef (ctrl w)
  | Rev2 => resolvedTaskKey (ctrl w)
  end.

(** The store entry written by a successful commit. *)
Definition successTask (inv : Invocation) (result : T) (now : Z) : TaskState T E :=
  {| ts_data := Some result; ts_loading := false; ts_error := None;
     ts_retryCount := 0; ts_lastUpdated := Some now;
     requestId := currentRequestId inv |}.

(** The store entry written by a terminal failure; it has no [data]. *)
Definition failureTask (inv : Invocation) (err : E) (now : Z) : TaskState T E :=
  {| ts_data := None; ts_loading := false; ts_error := Some err;
     ts_retryCount := inv_retryCount inv; ts_lastUpdated := Some now;
     requestId := currentRequestId inv |}.
End Hook.

Arguments TaskKey : clear implicits.
Arguments Options : clear implicits.
Arguments Outcome : clear implicits.
Arguments Completion : clear implicits.
Arguments Settled : clear implicits.
Arguments Progress : clear implicits.
Arguments Invocation : clear implicits.
Arguments Controller : clear implicits.
Arguments World : clear implicits.
Arguments Event : clear implicits.
End Hook.

(* ===================================================================== *)
(** ** Programs over the store *)
(* ===================================================================== *)

Module StoreTrace.
Section StoreTrace.
Context {T E L : Type} `{EqDecision L}.

(** The calls a program can make on the store module; [OpUnsubscribe] is a
    call of the function that [subscribe(key, listener)] returned. *)
Inductive Op :=
  | OpSetState (key : string) (state : TaskState T E)
  | OpUpdateState (key : string) (partial : PartialTask T E)
  | OpDeleteState (key : string)
  | OpSubscribe (key : string) (listener : L)
  | OpUnsubscribe (key : string) (listener : L).

Definition apply (s : Store.t T E L) (op : Op) : Store.t T E L :=
  match op with
  | OpSetState key state => (Store.setState key state s).1
  | OpUpdateState key partial => (Store.updateState key partial s).1
  | OpDeleteState key => (Store.deleteState key s).1
  | OpSubscribe key listener => Store.subscribe key listener s
  | OpUnsubscribe key listener => Store.unsubscribe key listener s
  end.

Definition runOps (s : Store.t T E L) (ops : list Op) : Store.t T E L :=
  foldl apply s ops.

(** No key of the listener map holds an empty set. *)
Definition noEmptySet (s : Store.t T E L) : Prop :=
  map_Forall (λ _ ls, ls ≠ []) (Store.listeners s).

#[global] Instance noEmptySet_dec (s : Store.t T E L) : Decision (noEmptySet s).
Proof. unfold noEmptySet. apply _. Defined.
End StoreTrace.
Arguments Op : clear implicits.
End StoreTrace.

(* ===================================================================== *)
(** ** Sample inputs *)
(* ===================================================================== *)

Module Sample.
Import Hook.

(** A store entry of a successful result, last updated at [lu]. *)
Definition entryAt (lu : Z) : TaskState string string :=
  {| ts_data := Some "v"; ts_loading := false; ts_error := None;
     ts_retryCount := 0; ts_lastUpdated := Some lu; requestId := 1 |}.

(** A store with two listeners, numbered 1 and 2, under the key ["k"]. *)
Definition twoListeners : Store.t string string nat :=
  Store.subscribe "k" 2%nat (Store.subscribe "k" 1%nat Store.empty).

Definition emptyStore : Store.t string string Listener := Store.empty.

(** A store that already holds an entry for the key ["user-1"]. *)
Definition userStore : Store.t string string Listener :=
  (Store.setState "user-1" (entryAt 50) Store.empty).1.

(** No key, no retry, no cache. *)
Definition unkeyed : Options nat :=
  {| taskKey := None; maxRetries := None; cacheTime := None |}.

(** [maxRetries = 3], no key. *)
Definition threeRetries : Options nat :=
  {| taskKey := None; maxRetries := Some 3; cacheTime := None |}.

(** A static key with a cache of one second. *)
Definition keyedCache : Options nat :=
  {| taskKey := Some (KeyStatic "K"); maxRetries := None; cacheTime := Some 1000 |}.

(** A key derived from the arguments, as in the file's own example
    [taskKey: (id) => `user-${id}`], here for the user 1. *)
Definition derivedKey : Options nat :=
  {| taskKey := Some (KeyDerived (λ _, "user-1")); maxRetries := None;
     cacheTime := None |}.

(** Two calls of [execute] in a row: the first invocation is superseded. *)
Definition twoPending : World string string nat :=
  run Rev2 (mount Rev2 unkeyed emptyStore) [Execute [1%nat] 100; Execute [2%nat] 101].

(** [execute], then [cancel], then the action resolves. *)
Definition cancelled : World string string nat :=
  run Rev2 (mount Rev2 unkeyed emptyStore)
    [Execute [1%nat] 100; Cancel; Settle 0 (Fulfilled "v") 200].

(** A success followed by a failure, without a key. *)
Definition successThenFailure : World string string nat :=
  run Rev2 (mount Rev2 unkeyed emptyStore)
    [Execute [1%nat] 100; Settle 0 (Fulfilled "v") 101;
     Execute [1%nat] 200; Settle 0 (Rejected "boom") 201].

(** A keyed call that fails at time 101. *)
Definition failedEntry : World string string nat :=
  run Rev2 (mount Rev2 keyedCache emptyStore)
    [Execute [1%nat] 100; Settle 0 (Rejected "boom") 101].

(** One pending invocation of a freshly mounted controller. *)
Definition onePending : World string string nat :=
  run Rev2 (mount Rev2 unkeyed emptyStore) [Execute [1%nat] 100].
End Sample.

(* ===================================================================== *)
(** ** Further sample inputs *)
(* ===================================================================== *)

Module Scenario.
Import Hook.

(** The two-listener store with an entry under ["k"]. *)
Definition withEntry : Store.t string string nat :=
  (Store.setState "k" (Sample.entryAt 7) Sample.twoListeners).1.

(** [{ loading: true }] *)
Definition loadingOnly : PartialTask string string :=
  {| pt_async := {| p_data := None; p_loading := Some true; p_error := None;
                    p_retryCount := None; p_lastUpdated := None |};
     pt_requestId := None |}.

(** A program over the store: subscriptions come and go around writes. *)
Definition churn : list (StoreTrace.Op string string nat) :=
  [StoreTrace.OpSubscribe "a" 1%nat; StoreTrace.OpSubscribe "a" 1%nat;
   StoreTrace.OpSetState "a" (Sample.entryAt 3);
   StoreTrace.OpUnsubscribe "a" 1%nat; StoreTrace.OpUnsubscribe "a" 1%nat;
   StoreTrace.OpSubscribe "b" 2%nat; StoreTrace.OpDeleteState "a"].

(** A controller of the second revision with the static key ["K"], just
    mounted. *)
Definition keyedMounted : World string string nat :=
  mount Rev2 Sample.keyedCache Sample.emptyStore.

(** The same controller with one pending invocation. *)
Definition keyedPending : World string string nat :=
  run Rev2 keyedMounted [Execute [1%nat] 100].

(** A controller with [maxRetries = 3] and one pending invocation. *)
Definition retryPending : World string string nat :=
  run Rev2 (mount Rev2 Sample.threeRetries Sample.emptyStore) [Execute [1%nat] 100].

(** The same invocation after the action has rejected three times: the
    fourth call of the action is pending. *)
Definition retriedThrice : World string string nat :=
  run Rev2 (mount Rev2 Sample.threeRetries Sample.emptyStore)
    [Execute [1%nat] 100; Settle 0 (Rejected "e1") 101;
     Settle 0 (Rejected "e2") 102; Settle 0 (Rejected "e3") 103].

(** [maxRetries = -1], no key. *)
Definition negativeRetries : Options nat :=
  {| taskKey := None; maxRetries := Some (-1); cacheTime := None |}.

(** An unkeyed controller after a success, with a second [execute]
    pending: the local state still holds the data of the first call. *)
Definition refreshing : World string string nat :=
  run Rev2 (mount Rev2 Sample.unkeyed Sample.emptyStore)
    [Execute [1%nat] 100; Settle 0 (Fulfilled "v") 101; Execute [1%nat] 200].

(** A store with an entry under the key ["K"], last updated at 50. *)
Definition cachedK : Store.t string string Listener :=
  (Store.setState "K" (Sample.entryAt 50) Store.empty).1.

(** A controller of the first revision with the static key ["K"], just
    mounted over that store. *)
Definition rev1Cached : World string string nat :=
  mount Rev1 Sample.keyedCache cachedK.
End Scenario.

(* ===================================================================== *)
(** ** The store: facts *)
(* ===================================================================== *)

Section StoreFacts.
Context {T E L : Type} `{EqDecision L}.
Implicit Types (s : Store.t T E L) (key : string) (l : L) (ls : list L).
Implicit Types (st : TaskState T E).

Lemma setAdd_elem l l' ls : l' ∈ Store.setAdd l ls ↔ l' = l ∨ l' ∈ ls.
Proof.
  unfold Store.setAdd. case_decide as Hin.
  - split; [by right | intros [-> | ?]; done].
  - rewrite elem_of_app, list_elem_of_singleton. tauto.
Qed.

Lemma setAdd_NoDup l ls : NoDup ls → NoDup (Store.setAdd l ls).
Proof.
  intros Hnd. unfold Store.setAdd. case_decide as Hin; [done |].
  apply NoDup_app. split_and!; [done | | apply NoDup_singleton].
  intros x Hx Hx'. apply list_elem_of_singleton in Hx'. by subst.
Qed.

Lemma setAdd_idem l ls : Store.setAdd l (Store.setAdd l ls) = Store.setAdd l ls.
Proof.
  unfold Store.setAdd at 1. rewrite decide_True; [done |].
  apply setAdd_elem. by left.
Qed.

Lemma setDelete_elem l l' ls : l' ∈ Store.setDelete l ls ↔ l' ≠ l ∧ l' ∈ ls.
Proof. unfold Store.setDelete. by rewrite list_elem_of_filter. Qed.

Lemma setDelete_NoDup l ls : NoDup ls → NoDup (Store.setDelete l ls).
Proof. apply NoDup_filter. Qed.

Lemma subscribers_subscribe key l s :
  Store.subscribers key (Store.subscribe key l s)
  = Store.setAdd l (Store.subscribers key s).
Proof.
  unfold Store.subscribers, Store.subscribe. simpl.
  case_decide as Hsome.
  - destruct Hsome as [ls Hls]. rewrite Hls. simpl.
    by rewrite lookup_insert_eq.
  - apply eq_None_not_Some in Hsome. rewrite Hsome.
    rewrite lookup_insert_eq. simpl. by rewrite lookup_insert_eq.
Qed.

Lemma subscribers_subscribe_ne key key' l s :
  key ≠ key' →
  Store.subscribers key' (Store.subscribe key l s) = Store.subscribers key' s.
Proof.
  intros Hne. unfold Store.subscribers, Store.subscribe. simpl.
  case_decide as Hsome.
  - destruct Hsome as [ls Hls]. rewrite Hls. by rewrite lookup_insert_ne.
  - rewrite lookup_insert_eq. by rewrite !lookup_insert_ne.
Qed.

Lemma listeners_subscribe key l s :
  Store.listeners (Store.subscribe key l s)
  = <[key := Store.setAdd l (Store.subscribers key s)]> (Store.listeners s).
Proof.
  unfold Store.subscribers, Store.subscribe. simpl.
  case_decide as Hsome.
  - destruct Hsome as [ls Hls]. by rewrite Hls.
  - apply eq_None_not_Some in Hsome. rewrite Hsome.
    rewrite lookup_insert_eq. simpl. by rewrite insert_insert_eq.
Qed.

Lemma wf_subscribers key s : Store.wf s → NoDup (Store.subscribers key s).
Proof.
  intros Hwf. unfold Store.subscribers.
  destruct (Store.listeners s !! key) as [ls|] eqn:Hls; simpl.
  - by apply (Hwf key ls).
  - apply NoDup_nil_2.
Qed.

Lemma wf_empty : Store.wf (Store.empty (T:=T) (E:=E) (L:=L)).
Proof. unfold Store.wf. simpl. apply map_Forall_empty. Qed.

Lemma wf_subscribe key l s : Store.wf s → Store.wf (Store.subscribe key l s).
Proof.
  intros Hwf. unfold Store.wf. rewrite listeners_subscribe.
  apply map_Forall_insert_2; [| done].
  by apply setAdd_NoDup, wf_subscribers.
Qed.

Lemma wf_unsubscribe key l s : Store.wf s → Store.wf (Store.unsubscribe key l s).
Proof.
  intros Hwf. unfold Store.wf, Store.unsubscribe.
  destruct (Store.listeners s !! key) as [ls|] eqn:Hls; [| done]. simpl.
  case_decide.
  - by apply map_Forall_delete.
  - apply map_Forall_insert_2; [| done].
    apply setDelete_NoDup. by apply (Hwf key ls).
Qed.

Lemma wf_setState key st s : Store.wf s → Store.wf (Store.setState key st s).1.
Proof. done. Qed.

Lemma wf_deleteState key s : Store.wf s → Store.wf (Store.deleteState key s).1.
Proof. done. Qed.

Lemma notifyListeners_subscribers key st s :
  Store.notifyListeners key st s
  = (λ l, (l, asyncOfTask st)) <$> Store.subscribers key s.
Proof.
  unfold Store.notifyListeners, Store.subscribers.
  by destruct (Store.listeners s !! key).
Qed.

Lemma timesInvoked_fmap l (a : AsyncState T E) ls :
  Store.timesInvoked l ((λ l', (l', a)) <$> ls) = length (filter (λ x, x = l) ls).
Proof.
  unfold Store.timesInvoked. induction ls as [| x ls IH]; [done |].
  rewrite fmap_cons, !filter_cons. simpl.
  destruct (decide (x = l)); simpl; by rewrite IH.
Qed.

Lemma filter_eq_NoDup l ls :
  NoDup ls → length (filter (λ x, x = l) ls) = if decide (l ∈ ls) then 1%nat else 0%nat.
Proof.
  induction 1 as [| x ls Hx Hnd IH]; [done |].
  rewrite filter_cons. destruct (decide (x = l)) as [-> | Hne]; simpl.
  - rewrite decide_True by apply list_elem_of_here.
    rewrite IH, decide_False; done.
  - rewrite IH. destruct (decide (l ∈ ls)) as [Hin | Hin].
    + rewrite decide_True; [done | by apply list_elem_of_further].
    + rewrite decide_False; [done |].
      intros [? | ?]%elem_of_cons; congruence.
Qed.
Lemma subscribers_unsubscribe key l s :
  Store.subscribers key (Store.unsubscribe key l s)
  = Store.setDelete l (Store.subscribers key s).
Proof.
  unfold Store.unsubscribe.
  destruct (Store.listeners s !! key) as [ls |] eqn:Hls.
  - unfold Store.subscribers. rewrite Hls. simpl. case_decide as Hlen.
    + rewrite lookup_delete_eq. simpl. by apply nil_length_inv in Hlen.
    + by rewrite lookup_insert_eq.
  - unfold Store.subscribers. by rewrite Hls.
Qed.

Lemma subscribers_unsubscribe_ne key key' l s :
  key ≠ key' →
  Store.subscribers key' (Store.unsubscribe key l s) = Store.subscribers key' s.
Proof.
  intros Hne. unfold Store.unsubscribe.
  destruct (Store.listeners s !! key) as [ls |] eqn:Hls; [| done].
  unfold Store.subscribers. simpl. case_decide.
  - by rewrite lookup_delete_ne.
  - by rewrite lookup_insert_ne.
Qed.

Lemma unsubscribe_releases key l s :
  Store.setDelete l (Store.subscribers key s) = [] →
  Store.listeners (Store.unsubscribe key l s) !! key = None.
Proof.
  intros Hnil. unfold Store.unsubscribe.
  destruct (Store.listeners s !! key) as [ls |] eqn:Hls; [| done].
  unfold Store.subscribers in Hnil. rewrite Hls in Hnil. simpl in *.
  rewrite Hnil. simpl. apply lookup_delete_eq.
Qed.
Lemma setState_calls key st s :
  (Store.setState key st s).2
  = (λ l, (l, asyncOfTask st)) <$> Store.subscribers key s.
Proof. unfold Store.setState. simpl. by rewrite notifyListeners_subscribers. Qed.

Lemma setState_timesInvoked key st s l :
  Store.wf s →
  Store.timesInvoked l (Store.setState key st s).2
  = if decide (l ∈ Store.subscribers key s) then 1%nat else 0%nat.
Proof.
  intros Hwf. rewrite setState_calls, timesInvoked_fmap.
  apply filter_eq_NoDup. by apply wf_subscribers.
Qed.
End StoreFacts.

Section StoreClaims.
Context {T E L : Type} `{EqDecision L}.
Implicit Types (s : Store.t T E L) (key : string) (l : L) (ls : list L).
Implicit Types (st : TaskState T E).

(** C4 (as amended).  [isCacheValid] answers [true] exactly when the state
    is present, its [lastUpdated] is present and not [0], [cacheTime] is
    positive and [now - lastUpdated < cacheTime], strictly.  A state whose
    [lastUpdated] is [now - cacheTime] is stale; one whose [lastUpdated] is
    [now - cacheTime + 1] is valid when [cacheTime] is positive and that
    timestamp is not [0]. *)
Theorem isCacheValid_spec (now : Z) (state : option (TaskState T E)) (cacheTime : Z) :
  (Store.isCacheValid now state cacheTime = true ↔
     ∃ st lu, state = Some st ∧ ts_lastUpdated st = Some lu ∧ lu ≠ 0 ∧
              0 < cacheTime ∧ now - lu < cacheTime) ∧
  (∀ st, state = Some st → ts_lastUpdated st = Some (now - cacheTime) →
         Store.isCacheValid now state cacheTime = false) ∧
  (∀ st, state = Some st → ts_lastUpdated st = Some (now - cacheTime + 1) →
         0 < cacheTime → now - cacheTime + 1 ≠ 0 →
         Store.isCacheValid now state cacheTime = true).
Proof.
  assert (Hchar : Store.isCacheValid now state cacheTime = true ↔
     ∃ st lu, state = Some st ∧ ts_lastUpdated st = Some lu ∧ lu ≠ 0 ∧
              0 < cacheTime ∧ now - lu < cacheTime).
  { unfold Store.isCacheValid, truthyNum. split.
    - destruct state as [st |]; [| done].
      destruct (ts_lastUpdated st) as [lu |] eqn:Hlu; simpl; [| done].
      destruct (lu =? 0) eqn:Hz; simpl; [done |].
      destruct (cacheTime <=? 0) eqn:Hct; [done |].
      intros Hlt. exists st, lu. split_and!; [done | done | lia | lia | lia].
    - intros (st & lu & -> & Hlu & Hnz & Hct & Hlt). rewrite Hlu. simpl.
      replace (lu =? 0) with false by lia. simpl.
      replace (cacheTime <=? 0) with false by lia. lia. }
  split_and!; [exact Hchar | |].
  - intros st -> Hlu. apply not_true_is_false. rewrite Hchar.
    intros (st' & lu & [= <-] & Hlu' & _ & _ & Hlt). rewrite Hlu in Hlu'.
    injection Hlu' as <-. lia.
  - intros st -> Hlu Hct Hnz. apply Hchar. exists st, (now - cacheTime + 1).
    split_and!; [done | done | done | done | lia].
Qed.

(** C9.  [setState(key, state)] overwrites the entry of [key] and of no
    other key, leaves the subscriptions as they are, and calls every
    listener subscribed to [key], in subscription order, with an
    [AsyncState] whose [data], [loading], [error], [retryCount] and
    [lastUpdated] are those of [state] (the [requestId] is not part of it):
    each of them exactly once, and no listener that is not subscribed to
    [key].  A second [setState] with the same state makes the same calls
    again. *)
Theorem setState_notifies key st s (Hwf : Store.wf s) :
  let s' := (Store.setState key st s).1 in
  let calls := (Store.setState key st s).2 in
  Store.getState key s' = Some st ∧
  (∀ key', key' ≠ key → Store.getState key' s' = Store.getState key' s) ∧
  Store.listeners s' = Store.listeners s ∧
  calls = (λ l, (l, {| data := ts_data st; loading := ts_loading st;
                       error := ts_error st; retryCount := ts_retryCount st;
                       lastUpdated := ts_lastUpdated st |}))
          <$> Store.subscribers key s ∧
  (∀ l payload, (l, payload) ∈ calls →
     l ∈ Store.subscribers key s ∧
     data payload = ts_data st ∧ loading payload = ts_loading st ∧
     error payload = ts_error st ∧ retryCount payload = ts_retryCount st ∧
     lastUpdated payload = ts_lastUpdated st) ∧
  (∀ l, Store.timesInvoked l calls
        = if decide (l ∈ Store.subscribers key s) then 1%nat else 0%nat) ∧
  (Store.setState key st s').2 = calls.
Proof.
  cbv zeta. split_and!.
  - unfold Store.getState. simpl. apply lookup_insert_eq.
  - intros key' Hne. unfold Store.getState. simpl. by apply lookup_insert_ne.
  - done.
  - rewrite setState_calls. reflexivity.
  - intros l payload. rewrite setState_calls.
    intros (l' & [= -> ->] & Hl')%list_elem_of_fmap. by split_and!.
  - intros l. by apply setState_timesInvoked.
  - by rewrite !setState_calls.
Qed.

(** C10.  Subscribing the same listener twice under one key registers it
    once: the second [subscribe] changes nothing, a [setState] for the key
    calls the listener exactly once, one call of the unsubscribe function
    removes the listener and no other, and the key leaves the listener map
    when no listener remains. *)
Theorem subscribe_twice key l s (Hwf : Store.wf s) :
  let s1 := Store.subscribe key l s in
  let s2 := Store.subscribe key l s1 in
  let s3 := Store.unsubscribe key l s2 in
  s2 = s1 ∧
  length (filter (λ x, x = l) (Store.subscribers key s2)) = 1%nat ∧
  (∀ st, Store.timesInvoked l (Store.setState key st s2).2 = 1%nat) ∧
  (l ∉ Store.subscribers key s3) ∧
  (∀ l', l' ≠ l →
     (l' ∈ Store.subscribers key s3 ↔ l' ∈ Store.subscribers key s)) ∧
  ((∀ l', l' ∈ Store.subscribers key s → l' = l) →
   Store.listeners s3 !! key = None).
Proof.
  cbv zeta.
  assert (H12 : Store.subscribe key l (Store.subscribe key l s)
                = Store.subscribe key l s).
  { destruct (Store.subscribe key l s) as [g ls1] eqn:Hs1.
    assert (Hl : ls1 = Store.listeners (Store.subscribe key l s)) by by rewrite Hs1.
    assert (Hg : g = Store.globalStore (Store.subscribe key l s)) by by rewrite Hs1.
    rewrite <- Hs1 at 1.
    assert (Hls : Store.listeners (Store.subscribe key l (Store.subscribe key l s))
                  = ls1).
    { rewrite listeners_subscribe, subscribers_subscribe, setAdd_idem.
      rewrite Hl, listeners_subscribe. by rewrite insert_insert_eq. }
    destruct (Store.subscribe key l (Store.subscribe key l s)) as [g' ls2] eqn:Hs2.
    simpl in Hls. subst ls2. f_equal.
    change g' with (Store.globalStore (Store.mk g' ls1)). by rewrite <- Hs2, Hg. }
  rewrite H12.
  pose proof (wf_subscribe key l s Hwf) as Hwf1.
  assert (Hin : l ∈ Store.subscribers key (Store.subscribe key l s)).
  { rewrite subscribers_subscribe. apply setAdd_elem. by left. }
  pose proof (subscribers_unsubscribe key l (Store.subscribe key l s)) as Hsub3.
  split_and!.
  - done.
  - rewrite filter_eq_NoDup by by apply wf_subscribers.
    by rewrite decide_True.
  - intros st. rewrite setState_timesInvoked by done. by rewrite decide_True.
  - rewrite Hsub3, setDelete_elem. tauto.
  - intros l' Hne. rewrite Hsub3, setDelete_elem, subscribers_subscribe, setAdd_elem.
    tauto.
  - intros Honly. apply unsubscribe_releases.
    apply elem_of_nil_inv. intros l' [Hne Hl']%setDelete_elem.
    rewrite subscribers_subscribe, setAdd_elem in Hl'.
    destruct Hl' as [? | ?]; [done | by apply Hne, Honly].
Qed.
End StoreClaims.

(* ===================================================================== *)
(** ** The store: further properties *)
(* ===================================================================== *)

Section StoreMore.
Context {T E L : Type} `{EqDecision L}.
Implicit Types (s : Store.t T E L) (key : string) (l : L) (ls : list L).
Implicit Types (st : TaskState T E).

Lemma setDelete_id l ls : l ∉ ls → Store.setDelete l ls = ls.
Proof.
  intros Hl. unfold Store.setDelete. induction ls as [| x ls IH]; [done |].
  rewrite filter_cons. apply not_elem_of_cons in Hl as [Hne Hl].
  rewrite decide_True by done. by rewrite IH.
Qed.

Lemma setDelete_setAdd l ls : l ∉ ls → Store.setDelete l (Store.setAdd l ls) = ls.
Proof.
  intros Hl. unfold Store.setAdd. rewrite decide_False by done.
  unfold Store.setDelete. rewrite filter_app, filter_cons, decide_False by naive_solver.
  rewrite filter_nil, app_nil_r. by apply setDelete_id.
Qed.

Lemma setDelete_idem l ls :
  Store.setDelete l (Store.setDelete l ls) = Store.setDelete l ls.
Proof. apply setDelete_id. rewrite setDelete_elem. tauto. Qed.

Lemma store_eq s s' :
  Store.globalStore s = Store.globalStore s' →
  Store.listeners s = Store.listeners s' → s = s'.
Proof. destruct s, s'. simpl. by intros -> ->. Qed.

(** X1.  [updateState] never creates an entry: on a key without an entry
    it leaves the store as it is and calls no listener, whoever is
    subscribed.  On a key with an entry it stores a merged entry: each of
    the six fields [data], [loading], [error], [retryCount], [lastUpdated]
    and [requestId] takes the value the partial state gives it, and keeps
    the value of the stored entry when the partial state does not mention
    it.  The other entries and the subscriptions stay as they are, and each
    subscriber of the key is called exactly once, in subscription order,
    with the five [AsyncState] fields of the merged entry. *)
Theorem updateState_merges key (partial : PartialTask T E) s (Hwf : Store.wf s) :
  (Store.getState key s = None → Store.updateState key partial s = (s, [])) ∧
  (∀ current, Store.getState key s = Some current →
     let s' := (Store.updateState key partial s).1 in
     let calls := (Store.updateState key partial s).2 in
     ∃ merged,
     Store.getState key s' = Some merged ∧
     ts_data merged
     = match p_data (pt_async partial) with
       | Some v => v | None => ts_data current end ∧
     ts_loading merged
     = match p_loading (pt_async partial) with
       | Some v => v | None => ts_loading current end ∧
     ts_error merged
     = match p_error (pt_async partial) with
       | Some v => v | None => ts_error current end ∧
     ts_retryCount merged
     = match p_retryCount (pt_async partial) with
       | Some v => v | None => ts_retryCount current end ∧
     ts_lastUpdated merged
     = match p_lastUpdated (pt_async partial) with
       | Some v => v | None => ts_lastUpdated current end ∧
     requestId merged
     = match pt_requestId partial with
       | Some v => v | None => requestId current end ∧
     (∀ key', key' ≠ key → Store.getState key' s' = Store.getState key' s) ∧
     Store.listeners s' = Store.listeners s ∧
     calls = (λ l, (l, {| data := ts_data merged; loading := ts_loading merged;
                          error := ts_error merged;
                          retryCount := ts_retryCount merged;
                          lastUpdated := ts_lastUpdated merged |}))
             <$> Store.subscribers key s ∧
     (∀ l, Store.timesInvoked l calls
           = if decide (l ∈ Store.subscribers key s) then 1%nat else 0%nat)).
Proof.
  split.
  - intros Hget. unfold Store.updateState. by rewrite Hget.
  - intros current Hget. cbv zeta. unfold Store.updateState. rewrite Hget.
    exists (spreadTask current partial). split_and!.
    + unfold Store.getState. simpl. apply lookup_insert_eq.
    + simpl. by destruct (p_data (pt_async partial)).
    + simpl. by destruct (p_loading (pt_async partial)).
    + simpl. by destruct (p_error (pt_async partial)).
    + simpl. by destruct (p_retryCount (pt_async partial)).
    + simpl. by destruct (p_lastUpdated (pt_async partial)).
    + simpl. by destruct (pt_requestId partial).
    + intros key' Hne. unfold Store.getState. simpl. by apply lookup_insert_ne.
    + done.
    + rewrite setState_calls. reflexivity.
    + intros l. by apply setState_timesInvoked.
Qed.

(** X2.  [deleteState] removes the entry of the key and no other, keeps the
    subscriptions, and calls each subscriber of the key exactly once with
    the initial state (no data, not loading, no error, retry count 0, no
    timestamp); the calls are made whether or not the key had an entry. *)
Theorem deleteState_notifies_reset key s (Hwf : Store.wf s) :
  let s' := (Store.deleteState key s).1 in
  let calls := (Store.deleteState key s).2 in
  Store.getState key s' = None ∧
  (∀ key', key' ≠ key → Store.getState key' s' = Store.getState key' s) ∧
  Store.listeners s' = Store.listeners s ∧
  calls = (λ l, (l, {| data := None; loading := false; error := None;
                       retryCount := 0; lastUpdated := None |}))
            <$> Store.subscribers key s ∧
  (∀ l, Store.timesInvoked l calls
        = if decide (l ∈ Store.subscribers key s) then 1%nat else 0%nat).
Proof.
  cbv zeta.
  assert (Hcalls : (Store.deleteState key s).2
            = (λ l, (l, {| data := None; loading := false; error := None;
                           retryCount := 0; lastUpdated := None |}))
                <$> Store.subscribers key s).
  { unfold Store.deleteState. simpl. by rewrite notifyListeners_subscribers. }
  split_and!.
  - unfold Store.getState. simpl. apply lookup_delete_eq.
  - intros key' Hne. unfold Store.getState. simpl. by apply lookup_delete_ne.
  - done.
  - exact Hcalls.
  - intros l. rewrite Hcalls, timesInvoked_fmap.
    apply filter_eq_NoDup. by apply wf_subscribers.
Qed.

(** X3.  Calling an unsubscribe function a second time changes nothing. *)
Theorem unsubscribe_idempotent key l s :
  Store.unsubscribe key l (Store.unsubscribe key l s) = Store.unsubscribe key l s.
Proof.
  destruct (Store.listeners s !! key) as [ls |] eqn:Hls.
  - assert (Hs1 : Store.unsubscribe key l s
                  = {| Store.globalStore := Store.globalStore s;
                       Store.listeners :=
                         if decide (length (Store.setDelete l ls) = 0%nat)
                         then delete key (Store.listeners s)
                         else <[key := Store.setDelete l ls]> (Store.listeners s) |}).
    { unfold Store.unsubscribe. by rewrite Hls. }
    rewrite Hs1. unfold Store.unsubscribe. cbn [Store.listeners Store.globalStore].
    case_decide as Hlen.
    + by rewrite lookup_delete_eq.
    + rewrite lookup_insert_eq, setDelete_idem, decide_False by done.
      apply store_eq; simpl; [done |]. by rewrite insert_insert_eq.
  - assert (Hs1 : Store.unsubscribe key l s = s).
    { unfold Store.unsubscribe. by rewrite Hls. }
    by rewrite !Hs1.
Qed.

Lemma unsubscribe_subscribe_id key l s :
  l ∉ Store.subscribers key s →
  Store.listeners s !! key ≠ Some [] →
  Store.unsubscribe key l (Store.subscribe key l s) = s.
Proof.
  intros Hfresh Hne.
  unfold Store.unsubscribe. rewrite listeners_subscribe, lookup_insert_eq.
  rewrite setDelete_setAdd by done.
  assert (Hg : Store.globalStore (Store.subscribe key l s) = Store.globalStore s)
    by done.
  unfold Store.subscribers in *.
  destruct (Store.listeners s !! key) as [ls |] eqn:Hls; cbn [default] in *.
  - rewrite decide_False.
    + apply store_eq; cbn [Store.globalStore Store.listeners]; [done |].
      rewrite insert_insert_eq. by apply insert_id.
    + intros Hlen. apply nil_length_inv in Hlen. apply Hne. f_equal. exact Hlen.
  - rewrite decide_True by done.
    apply store_eq; cbn [Store.globalStore Store.listeners]; [done |].
    rewrite delete_insert_eq. by apply delete_id.
Qed.

(** X4.  Subscribing a listener that is not yet subscribed to the key and
    then calling the returned unsubscribe function gives back the store as
    it was: the per-key set created for a first listener is released with
    it. *)
Theorem subscribe_unsubscribe_restores key l s
    (Hfresh : l ∉ Store.subscribers key s)
    (Hne : Store.listeners s !! key ≠ Some []) :
  Store.unsubscribe key l (Store.subscribe key l s) = s.
Proof. by apply unsubscribe_subscribe_id. Qed.

(** X6.  A cache entry that has expired stays expired, and a longer
    [cacheTime] accepts every entry a shorter one accepts. *)
Theorem isCacheValid_monotone (now now' : Z) (state : option (TaskState T E))
    (cacheTime cacheTime' : Z) :
  (now ≤ now' →
   Store.isCacheValid now state cacheTime = false →
   Store.isCacheValid now' state cacheTime = false) ∧
  (cacheTime ≤ cacheTime' →
   Store.isCacheValid now state cacheTime = true →
   Store.isCacheValid now state cacheTime' = true).
Proof.
  unfold Store.isCacheValid. destruct state as [st |]; [| done].
  destruct (ts_lastUpdated st) as [lu |]; simpl; [| done].
  destruct (lu =? 0); simpl; [done |].
  split; intros Hle.
  - destruct (cacheTime <=? 0) eqn:Hct; [done |]. lia.
  - destruct (cacheTime <=? 0) eqn:Hct; [done |].
    replace (cacheTime' <=? 0) with false by lia. lia.
Qed.
End StoreMore.

Section StoreInvariant.
Context {T E L : Type} `{EqDecision L}.
Implicit Types (s : Store.t T E L) (key : string) (l : L) (ls : list L).

Lemma noEmptySet_subscribe key l s :
  StoreTrace.noEmptySet s → StoreTrace.noEmptySet (Store.subscribe key l s).
Proof.
  intros Hs. unfold StoreTrace.noEmptySet. rewrite listeners_subscribe.
  apply map_Forall_insert_2; [| done].
  unfold Store.setAdd. case_decide as Hin.
  - intros Hnil. rewrite Hnil in Hin. by apply elem_of_nil in Hin.
  - by destruct (Store.subscribers key s).
Qed.

Lemma noEmptySet_unsubscribe key l s :
  StoreTrace.noEmptySet s → StoreTrace.noEmptySet (Store.unsubscribe key l s).
Proof.
  intros Hs. unfold StoreTrace.noEmptySet, Store.unsubscribe.
  destruct (Store.listeners s !! key) as [ls |] eqn:Hls; [| done]. simpl.
  case_decide as Hlen.
  - by apply map_Forall_delete.
  - apply map_Forall_insert_2; [| done].
    intros Hnil. by rewrite Hnil in Hlen.
Qed.

Lemma apply_listeners (op : StoreTrace.Op T E L) s :
  Store.wf s → StoreTrace.noEmptySet s →
  Store.wf (StoreTrace.apply s op) ∧ StoreTrace.noEmptySet (StoreTrace.apply s op).
Proof.
  intros Hwf Hne. destruct op as [key st | key p | key | key l | key l];
    cbn [StoreTrace.apply].
  - done.
  - unfold Store.updateState. by destruct (Store.getState key s).
  - done.
  - split; [by apply wf_subscribe | by apply noEmptySet_subscribe].
  - split; [by apply wf_unsubscribe | by apply noEmptySet_unsubscribe].
Qed.

(** X5.  Whatever a program does with the store, every per-key listener
    collection stays a set (no listener twice) and no key of the listener
    map is left with an empty set: churn of subscriptions does not grow the
    map. *)
Theorem store_listener_sets (ops : list (StoreTrace.Op T E L)) s
    (Hwf : Store.wf s) (Hne : StoreTrace.noEmptySet s) :
  Store.wf (StoreTrace.runOps s ops) ∧
  StoreTrace.noEmptySet (StoreTrace.runOps s ops).
Proof.
  revert s Hwf Hne. unfold StoreTrace.runOps.
  induction ops as [| op ops IH]; intros s Hwf Hne; [done |].
  cbn [foldl]. destruct (apply_listeners op s Hwf Hne) as [Hwf' Hne'].
  by apply IH.
Qed.
End StoreInvariant.

(* ===================================================================== *)
(** ** The controller: facts *)
(* ===================================================================== *)

Section HookFacts.
Context {T E A : Type}.
Import Hook.
Implicit Types (w : World T E A) (c : Controller T E A) (inv : Invocation A).
Implicit Types (rev : Revision) (o : Outcome T E) (st : AsyncState T E).
Implicit Types (calls : list (Listener * AsyncState T E)).

Lemma with_localState_eta c : with_localState (localState c) c = c.
Proof. by destruct c. Qed.

(** What holds of a controller before a list of listener calls and is kept
    by [syncState] holds after them. *)
Lemma deliver_ind (P : Controller T E A → Prop) :
  (∀ st c, P c → P (syncState st c)) →
  ∀ calls c, P c → P (deliver calls c).
Proof.
  intros Hsync calls. unfold deliver.
  induction calls as [| [l st] calls IH]; intros c Hc; [done |].
  simpl. apply IH. unfold callListener. simpl.
  destruct l; [by apply Hsync | done].
Qed.

(** Listener calls change nothing but the local state. *)
Lemma deliver_shape calls c :
  isSyncingRef c = false →
  deliver calls c = with_localState (localState (deliver calls c)) c.
Proof.
  intros Hs.
  apply (deliver_ind (λ c', c' = with_localState (localState c') c)).
  - intros st c' ->. unfold syncState. simpl.
    destruct (unmountedRef c); simpl; [done |].
    destruct c. simpl in *. by subst.
  - by destruct c.
Qed.

Lemma updateLocalState_shape partial c :
  updateLocalState partial c
  = with_localState (localState (updateLocalState partial c)) c.
Proof.
  unfold updateLocalState.
  destruct (negb (unmountedRef c) && negb (isSyncingRef c)); by destruct c.
Qed.

Lemma updateLocalState_mounted partial c :
  unmountedRef c = false → isSyncingRef c = false →
  updateLocalState partial c = with_localState (spreadAsync (localState c) partial) c.
Proof. intros Hu Hs. unfold updateLocalState. by rewrite Hu, Hs. Qed.

(** The calls of one [setState]: the subscribed controller takes the
    delivered state as its local state. *)
Lemma deliver_fmap st (ls : list Listener) c :
  unmountedRef c = false → isSyncingRef c = false →
  deliver ((λ l, (l, st)) <$> ls) c
  = if decide (SyncState ∈ ls) then with_localState st c else c.
Proof.
  intros Hu Hs. revert c Hu Hs. unfold deliver.
  induction ls as [| l ls IH]; intros c Hu Hs; [done |].
  rewrite fmap_cons. cbn [foldl]. unfold callListener at 2. cbn [fst snd].
  destruct l as [| n].
  - unfold syncState. rewrite Hu. cbn [negb].
    replace (with_isSyncingRef false (setLocalState st (with_isSyncingRef true c)))
      with (with_localState st c) by (destruct c; simpl in *; by subst).
    rewrite (decide_True (P := SyncState ∈ SyncState :: ls))
      by apply list_elem_of_here.
    rewrite IH by done. case_decide; by destruct c.
  - rewrite IH by done.
    destruct (decide (SyncState ∈ ls)) as [Hin | Hin].
    + rewrite decide_True; [done | by apply list_elem_of_further].
    + rewrite decide_False; [done |].
      intros [? | ?]%elem_of_cons; [done | by apply Hin].
Qed.
(** *** What the helpers leave alone *)

Lemma syncState_refs st c :
  resolvedTaskKey (syncState st c) = resolvedTaskKey c ∧
  requestIdRef (syncState st c) = requestIdRef c ∧
  abortControllerRef (syncState st c) = abortControllerRef c ∧
  pollingTimerRef (syncState st c) = pollingTimerRef c ∧
  unmountedRef (syncState st c) = unmountedRef c ∧
  optionsRef (syncState st c) = optionsRef c ∧
  currentTaskKeyRef (syncState st c) = currentTaskKeyRef c.
Proof. unfold syncState. destruct (unmountedRef c) eqn:Hu; simpl; by rewrite ?Hu. Qed.

Lemma deliver_refs calls c :
  resolvedTaskKey (deliver calls c) = resolvedTaskKey c ∧
  requestIdRef (deliver calls c) = requestIdRef c ∧
  abortControllerRef (deliver calls c) = abortControllerRef c ∧
  pollingTimerRef (deliver calls c) = pollingTimerRef c ∧
  unmountedRef (deliver calls c) = unmountedRef c ∧
  optionsRef (deliver calls c) = optionsRef c ∧
  currentTaskKeyRef (deliver calls c) = currentTaskKeyRef c.
Proof.
  apply (deliver_ind (λ c',
    resolvedTaskKey c' = resolvedTaskKey c ∧
    requestIdRef c' = requestIdRef c ∧
    abortControllerRef c' = abortControllerRef c ∧
    pollingTimerRef c' = pollingTimerRef c ∧
    unmountedRef c' = unmountedRef c ∧
    optionsRef c' = optionsRef c ∧
    currentTaskKeyRef c' = currentTaskKeyRef c)); [| done].
  intros st c' (? & ? & ? & ? & ? & ? & ?).
  destruct (syncState_refs st c') as (? & ? & ? & ? & ? & ? & ?).
  split_and!; congruence.
Qed.

Lemma deliver_requestIdRef calls c : requestIdRef (deliver calls c) = requestIdRef c.
Proof. apply deliver_refs. Qed.

Lemma deliver_abortControllerRef calls c :
  abortControllerRef (deliver calls c) = abortControllerRef c.
Proof. apply deliver_refs. Qed.

Lemma deliver_unmountedRef calls c : unmountedRef (deliver calls c) = unmountedRef c.
Proof. apply deliver_refs. Qed.

Lemma deliver_resolvedTaskKey calls c :
  resolvedTaskKey (deliver calls c) = resolvedTaskKey c.
Proof. apply deliver_refs. Qed.

Lemma deliver_optionsRef calls c : optionsRef (deliver calls c) = optionsRef c.
Proof. apply deliver_refs. Qed.

Lemma deliver_currentTaskKeyRef calls c :
  currentTaskKeyRef (deliver calls c) = currentTaskKeyRef c.
Proof. apply deliver_refs. Qed.

Lemma deliver_pollingTimerRef calls c :
  pollingTimerRef (deliver calls c) = pollingTimerRef c.
Proof. apply deliver_refs. Qed.

Lemma deliver_isSyncingRef calls c :
  isSyncingRef c = false → isSyncingRef (deliver calls c) = false.
Proof. intros Hs. by rewrite (deliver_shape calls c Hs). Qed.

Lemma updateLocalState_requestIdRef partial c :
  requestIdRef (updateLocalState partial c) = requestIdRef c.
Proof. by rewrite updateLocalState_shape. Qed.

Lemma updateLocalState_abortControllerRef partial c :
  abortControllerRef (updateLocalState partial c) = abortControllerRef c.
Proof. by rewrite updateLocalState_shape. Qed.

Lemma updateLocalState_unmountedRef partial c :
  unmountedRef (updateLocalState partial c) = unmountedRef c.
Proof. by rewrite updateLocalState_shape. Qed.

Lemma updateLocalState_isSyncingRef partial c :
  isSyncingRef (updateLocalState partial c) = isSyncingRef c.
Proof. by rewrite updateLocalState_shape. Qed.

Lemma updateLocalState_resolvedTaskKey partial c :
  resolvedTaskKey (updateLocalState partial c) = resolvedTaskKey c.
Proof. by rewrite updateLocalState_shape. Qed.

Lemma updateLocalState_optionsRef partial c :
  optionsRef (updateLocalState partial c) = optionsRef c.
Proof. by rewrite updateLocalState_shape. Qed.

Lemma updateLocalState_currentTaskKeyRef partial c :
  currentTaskKeyRef (updateLocalState partial c) = currentTaskKeyRef c.
Proof. by rewrite updateLocalState_shape. Qed.

Lemma updateLocalState_pollingTimerRef partial c :
  pollingTimerRef (updateLocalState partial c) = pollingTimerRef c.
Proof. by rewrite updateLocalState_shape. Qed.
End HookFacts.

Create Rewrite HintDb hook.

Section HookSteps.
Context {T E A : Type}.
Import Hook.
Implicit Types (w : World T E A) (c : Controller T E A) (inv : Invocation A).
Implicit Types (rev : Revision) (o : Outcome T E) (st : AsyncState T E).

#[local] Hint Rewrite
  (@deliver_requestIdRef T E A) (@deliver_abortControllerRef T E A)
  (@deliver_unmountedRef T E A) (@deliver_resolvedTaskKey T E A)
  (@deliver_optionsRef T E A) (@deliver_currentTaskKeyRef T E A)
  (@deliver_pollingTimerRef T E A)
  (@updateLocalState_requestIdRef T E A) (@updateLocalState_abortControllerRef T E A)
  (@updateLocalState_unmountedRef T E A) (@updateLocalState_isSyncingRef T E A)
  (@updateLocalState_resolvedTaskKey T E A) (@updateLocalState_optionsRef T E A)
  (@updateLocalState_currentTaskKeyRef T E A) (@updateLocalState_pollingTimerRef T E A)
  : hook.

Ltac proj :=
  unfold onCtrl, publish in *;
  repeat (cbn [ctrl store aborted nextAbort inflight actionCalls notified
               with_ctrl with_store with_aborted with_nextAbort with_inflight
               with_actionCalls with_notified onCtrl publish
               localState resolvedTaskKey requestIdRef abortControllerRef
               pollingTimerRef unmountedRef lastArgsRef currentTaskKeyRef
               isSyncingRef optionsRef
               with_localState with_requestIdRef with_abortControllerRef
               with_pollingTimerRef with_unmountedRef with_lastArgsRef
               with_currentTaskKeyRef with_isSyncingRef setLocalState
               fst snd] in *;
          autorewrite with hook in *).

(** A stale completion: nothing changes, the promise resolves with nothing. *)
Lemma performAction_expired rev i inv o now w :
  expired inv w = true →
  performAction rev i inv o now w = (w, Done (Resolved None)).
Proof.
  intros Hexp. unfold performAction, tryBlock, catchBlock.
  destruct o as [result | err]; rewrite Hexp; simpl; [done |].
  by destruct (signalAborted rev inv w).
Qed.

Lemma performAction_aborted rev i inv o now w :
  signalAborted rev inv w = true →
  performAction rev i inv o now w = (w, Done (Resolved None)).
Proof.
  intros Hab. unfold performAction, tryBlock, catchBlock.
  destruct o as [result | err]; rewrite Hab; simpl; [| done].
  by rewrite orb_true_r.
Qed.

Lemma settle_stale rev i inv o now w :
  inflight w !! i = Some inv →
  currentRequestId inv ≠ requestIdRef (ctrl w) →
  settle rev i o now w
  = (with_inflight (delete i (inflight w)) w, Some (Done (Resolved None))).
Proof.
  intros Hi Hne. unfold settle. rewrite Hi.
  rewrite performAction_expired; [done |].
  unfold expired. apply orb_true_iff. right.
  apply negb_true_iff. lia.
Qed.

Lemma setStateIfKey_frame key (state : TaskState T E) w :
  inflight (setStateIfKey key state w) = inflight w ∧
  aborted (setStateIfKey key state w) = aborted w ∧
  nextAbort (setStateIfKey key state w) = nextAbort w ∧
  actionCalls (setStateIfKey key state w) = actionCalls w ∧
  requestIdRef (ctrl (setStateIfKey key state w)) = requestIdRef (ctrl w) ∧
  abortControllerRef (ctrl (setStateIfKey key state w)) = abortControllerRef (ctrl w) ∧
  unmountedRef (ctrl (setStateIfKey key state w)) = unmountedRef (ctrl w) ∧
  Store.listeners (store (setStateIfKey key state w)) = Store.listeners (store w) ∧
  (isSyncingRef (ctrl w) = false →
   isSyncingRef (ctrl (setStateIfKey key state w)) = false).
Proof.
  unfold setStateIfKey. destruct key as [k |]; [| done].
  destruct (truthyStr (Some k)); [| done]. proj.
  split_and!; try done. apply deliver_isSyncingRef.
Qed.

Lemma setStateIfKey_local key (state : TaskState T E) w :
  unmountedRef (ctrl w) = false → isSyncingRef (ctrl w) = false →
  localState (ctrl (setStateIfKey key state w))
  = if selfSubscribed key (store w) then asyncOfTask state
    else localState (ctrl w).
Proof.
  intros Hu Hs. unfold setStateIfKey, selfSubscribed.
  destruct key as [k |]; [| done].
  destruct (truthyStr (Some k)); [| done]. proj.
  rewrite setState_calls, deliver_fmap by done. simpl.
  case_decide as Hin.
  - by rewrite bool_decide_eq_true_2.
  - by rewrite bool_decide_eq_false_2.
Qed.
Lemma clearAbortController_frame rev inv w :
  localState (ctrl (clearAbortController rev inv w)) = localState (ctrl w) ∧
  store (clearAbortController rev inv w) = store w ∧
  inflight (clearAbortController rev inv w) = inflight w ∧
  aborted (clearAbortController rev inv w) = aborted w ∧
  nextAbort (clearAbortController rev inv w) = nextAbort w ∧
  actionCalls (clearAbortController rev inv w) = actionCalls w ∧
  notified (clearAbortController rev inv w) = notified w ∧
  requestIdRef (ctrl (clearAbortController rev inv w)) = requestIdRef (ctrl w) ∧
  unmountedRef (ctrl (clearAbortController rev inv w)) = unmountedRef (ctrl w) ∧
  isSyncingRef (ctrl (clearAbortController rev inv w)) = isSyncingRef (ctrl w) ∧
  (∀ a, abortControllerRef (ctrl (clearAbortController rev inv w)) = Some a →
        abortControllerRef (ctrl w) = Some a).
Proof.
  unfold clearAbortController. destruct rev; [done |].
  case_bool_decide; proj; split_and!; done.
Qed.

(** A rejection of the current invocation with retries left: the retry
    count is published locally and the action is called again. *)
Lemma settle_retry rev i inv err now w :
  current rev i inv w →
  inv_retryCount inv < default 0 (maxRetries (currentOptions inv)) →
  settle rev i (Rejected err) now w
  = (with_inflight (<[i := retryOf inv]> (inflight w))
       (with_actionCalls (actionCalls w ++ [inv_args inv])
          (with_ctrl
             (with_localState
                (spreadAsync (localState (ctrl w))
                   {| p_data := None; p_loading := None; p_error := None;
                      p_retryCount := Some (inv_retryCount inv + 1);
                      p_lastUpdated := None |})
                (ctrl w)) w)),
     Some Awaiting).
Proof.
  intros (Hi & Hgen & Hu & Hs & Hab) Hlt.
  unfold settle. rewrite Hi.
  unfold performAction, tryBlock, catchBlock. rewrite Hab.
  unfold expired. rewrite Hu, Hgen, Z.eqb_refl. simpl.
  replace (_ <? _) with true by lia.
  unfold callAction. proj. by rewrite updateLocalState_mounted.
Qed.

Lemma settle_retry_current rev i inv err now w :
  current rev i inv w →
  inv_retryCount inv < default 0 (maxRetries (currentOptions inv)) →
  current rev i (retryOf inv) (settle rev i (Rejected err) now w).1.
Proof.
  intros Hcur Hlt. rewrite (settle_retry rev i inv) by done.
  destruct Hcur as (Hi & Hgen & Hu & Hs & Hab).
  unfold current. proj.
  split_and!;
    first [ done
          | apply list_lookup_insert_eq; by eapply lookup_lt_Some
          | by destruct rev ].
Qed.

(** A rejection of the current invocation with no retry left: the error
    is committed. *)
Lemma settle_failure rev i inv err now w :
  current rev i inv w →
  ¬ inv_retryCount inv < default 0 (maxRetries (currentOptions inv)) →
  let w' := (settle rev i (Rejected err) now w).1 in
  (settle rev i (Rejected err) now w).2 = Some (Done (Resolved None)) ∧
  localState (ctrl w')
  = (if selfSubscribed (inv_key inv) (store w)
     then {| data := None; loading := false; error := Some err;
             retryCount := inv_retryCount inv; lastUpdated := Some now |}
     else {| data := data (localState (ctrl w)); loading := false;
             error := Some err; retryCount := inv_retryCount inv;
             lastUpdated := Some now |}) ∧
  actionCalls w' = actionCalls w ∧
  inflight w' = delete i (inflight w) ∧
  requestIdRef (ctrl w') = requestIdRef (ctrl w).
Proof.
  intros (Hi & Hgen & Hu & Hs & Hab) Hlt.
  unfold settle. rewrite Hi.
  unfold performAction, tryBlock, catchBlock. rewrite Hab.
  unfold expired. rewrite Hu.
  replace (_ =? _) with true by lia. cbn [negb orb].
  replace (_ <? _) with false by lia.
  set (task := {| ts_data := None; ts_loading := false; ts_error := Some err;
                  ts_retryCount := inv_retryCount inv;
                  ts_lastUpdated := Some now;
                  requestId := currentRequestId inv |} : TaskState T E).
  set (w1 := onCtrl (updateLocalState _) w).
  assert (Hu1 : unmountedRef (ctrl w1) = false) by (subst w1; by proj).
  assert (Hs1 : isSyncingRef (ctrl w1) = false) by (subst w1; by proj).
  destruct (clearAbortController_frame rev inv (setStateIfKey (inv_key inv) task w1))
    as (Hl & _ & Hin & _ & _ & Hac & _ & Hrid & _).
  destruct (setStateIfKey_frame (inv_key inv) task w1)
    as (Hin' & _ & _ & Hac' & Hrid' & _).
  cbn [fst snd with_inflight ctrl actionCalls inflight]. split_and!.
  - done.
  - rewrite Hl, setStateIfKey_local by done.
    subst w1. proj. rewrite updateLocalState_mounted by done.
    by destruct (selfSubscribed _ _).
  - rewrite Hac, Hac'. subst w1. by proj.
  - rewrite Hin, Hin'. subst w1. by proj.
  - rewrite Hrid, Hrid'. subst w1. by proj.
Qed.

(** A fulfilment of the current invocation: the result is committed. *)
Lemma settle_success rev i inv result now w :
  current rev i inv w →
  let w' := (settle rev i (Fulfilled result) now w).1 in
  (settle rev i (Fulfilled result) now w).2 = Some (Done (Resolved (Some result))) ∧
  localState (ctrl w')
  = {| data := Some result; loading := false; error := None;
       retryCount := 0; lastUpdated := Some now |} ∧
  actionCalls w' = actionCalls w ∧
  inflight w' = delete i (inflight w) ∧
  requestIdRef (ctrl w') = requestIdRef (ctrl w).
Proof.
  intros (Hi & Hgen & Hu & Hs & Hab).
  unfold settle. rewrite Hi.
  unfold performAction, tryBlock. rewrite Hab.
  unfold expired. rewrite Hu.
  replace (_ =? _) with true by lia. cbn [negb orb promiseOf].
  set (task := {| ts_data := Some result; ts_loading := false; ts_error := None;
                  ts_retryCount := 0; ts_lastUpdated := Some now;
                  requestId := currentRequestId inv |} : TaskState T E).
  set (w1 := onCtrl (updateLocalState _) w).
  assert (Hu1 : unmountedRef (ctrl w1) = false) by (subst w1; by proj).
  assert (Hs1 : isSyncingRef (ctrl w1) = false) by (subst w1; by proj).
  destruct (clearAbortController_frame rev inv (setStateIfKey (inv_key inv) task w1))
    as (Hl & _ & Hin & _ & _ & Hac & _ & Hrid & _).
  destruct (setStateIfKey_frame (inv_key inv) task w1)
    as (Hin' & _ & _ & Hac' & Hrid' & _).
  cbn [fst snd with_inflight ctrl actionCalls inflight]. split_and!.
  - done.
  - rewrite Hl, setStateIfKey_local by done.
    subst w1. proj. rewrite updateLocalState_mounted by done.
    by destruct (selfSubscribed _ _).
  - rewrite Hac, Hac'. subst w1. by proj.
  - rewrite Hin, Hin'. subst w1. by proj.
  - rewrite Hrid, Hrid'. subst w1. by proj.
Qed.
(** What one resumption of [performAction] can change besides the local
    state, the store and the listener calls. *)
Lemma performAction_frame rev i inv o now w :
  let w1 := (performAction rev i inv o now w).1 in
  requestIdRef (ctrl w1) = requestIdRef (ctrl w) ∧
  unmountedRef (ctrl w1) = unmountedRef (ctrl w) ∧
  (isSyncingRef (ctrl w) = false → isSyncingRef (ctrl w1) = false) ∧
  aborted w1 = aborted w ∧
  nextAbort w1 = nextAbort w ∧
  (∀ a, abortControllerRef (ctrl w1) = Some a → abortControllerRef (ctrl w) = Some a) ∧
  Store.listeners (store w1) = Store.listeners (store w) ∧
  match (performAction rev i inv o now w).2 with
  | Done (Resolved _) => inflight w1 = inflight w ∧ actionCalls w1 = actionCalls w
  | Done (RejectedWith _) => False
  | Awaiting =>
      inflight w1 = <[i := retryOf inv]> (inflight w) ∧
      actionCalls w1 = actionCalls w ++ [inv_args inv]
  end.
Proof.
  cbv zeta. unfold performAction, tryBlock, catchBlock.
  destruct o as [result | err].
  - destruct (expired inv w || signalAborted rev inv w); cbn [fst snd promiseOf];
      [by split_and! |].
    set (task := {| ts_data := Some result; ts_loading := false; ts_error := None;
                    ts_retryCount := 0; ts_lastUpdated := Some now;
                    requestId := currentRequestId inv |} : TaskState T E).
    set (w1 := onCtrl (updateLocalState _) w).
    destruct (clearAbortController_frame rev inv (setStateIfKey (inv_key inv) task w1))
      as (_ & Hst & Hin & Hab & Hnx & Hac & _ & Hrid & Hun & Hsy & Href).
    destruct (setStateIfKey_frame (inv_key inv) task w1)
      as (Hin' & Hab' & Hnx' & Hac' & Hrid' & Href' & Hun' & Hls' & Hsy').
    rewrite Hrid, Hun, Hsy, Hab, Hnx, Hin, Hac, Hst.
    rewrite Hrid', Hun', Hab', Hnx', Hin', Hac', Hls'.
    subst w1. proj. split_and!; try done.
    intros a Ha. apply Href in Ha. by rewrite Href' in Ha.
  - destruct (signalAborted rev inv w); cbn [fst snd]; [by split_and! |].
    destruct (expired inv w); cbn [fst snd]; [by split_and! |].
    destruct (_ <? _); cbn [fst snd].
    + unfold callAction. proj. by split_and!.
    + set (task := {| ts_data := None; ts_loading := false; ts_error := Some err;
                      ts_retryCount := inv_retryCount inv;
                      ts_lastUpdated := Some now;
                      requestId := currentRequestId inv |} : TaskState T E).
      set (w1 := onCtrl (updateLocalState _) w).
      destruct (clearAbortController_frame rev inv (setStateIfKey (inv_key inv) task w1))
        as (_ & Hst & Hin & Hab & Hnx & Hac & _ & Hrid & Hun & Hsy & Href).
      destruct (setStateIfKey_frame (inv_key inv) task w1)
        as (Hin' & Hab' & Hnx' & Hac' & Hrid' & Href' & Hun' & Hls' & Hsy').
      rewrite Hrid, Hun, Hsy, Hab, Hnx, Hin, Hac, Hst.
      rewrite Hrid', Hun', Hab', Hnx', Hin', Hac', Hls'.
      subst w1. proj. split_and!; try done.
      intros a Ha. apply Href in Ha. by rewrite Href' in Ha.
Qed.
(** *** execute *)

Lemma cachedFor_store key (opts : Options A) now w w' :
  store w' = store w → cachedFor key opts now w' = cachedFor key opts now w.
Proof. intros Hst. unfold cachedFor. by rewrite Hst. Qed.

(** When the cache check of [execute] answers from the store. *)
Lemma cachedFor_Some key (opts : Options A) now w cs :
  cachedFor key opts now w = Some cs ↔
  ∃ k ct, key = Some k ∧ k ≠ "" ∧ cacheTime opts = Some ct ∧ 0 < ct ∧
          Store.getState k (store w) = Some cs ∧
          Store.isCacheValid now (Some cs) ct = true.
Proof.
  unfold cachedFor, truthyStr, truthyNum. split.
  - destruct key as [k |]; [| done].
    destruct (cacheTime opts) as [ct |]; [| done].
    destruct (String.eqb k "") eqn:Hk; [done |].
    destruct (ct =? 0) eqn:Hz; [done |].
    destruct (0 <? ct) eqn:Hct; [| done]. cbn [negb andb].
    destruct (Store.getState k (store w)) as [cs' |] eqn:Hget; [| done].
    destruct (Store.isCacheValid now (Some cs') ct) eqn:Hv; [| done].
    intros [= <-]. exists k, ct.
    split_and!; try done; try lia.
    intros ->. by rewrite String.eqb_refl in Hk.
  - intros (k & ct & -> & Hk & -> & Hct & Hget & Hv).
    apply String.eqb_neq in Hk. rewrite Hk.
    replace (ct =? 0) with false by lia.
    replace (0 <? ct) with true by lia. cbn [negb andb].
    by rewrite Hget, Hv.
Qed.

(** A call answered from the store. *)
Lemma execute_cached rev args now w cs :
  cachedFor (keyFor rev args w) (optionsRef (ctrl w)) now w = Some cs →
  let r := execute rev args now w in
  r.2 = Done (Resolved (ts_data cs)) ∧
  actionCalls r.1 = actionCalls w ∧
  inflight r.1 = inflight w ∧
  requestIdRef (ctrl r.1) = requestIdRef (ctrl w) ∧
  store r.1 = store w ∧
  notified r.1 = notified w ∧
  aborted r.1 = aborted w ∧
  nextAbort r.1 = nextAbort w ∧
  abortControllerRef (ctrl r.1) = abortControllerRef (ctrl w) ∧
  unmountedRef (ctrl r.1) = unmountedRef (ctrl w) ∧
  isSyncingRef (ctrl r.1) = isSyncingRef (ctrl w) ∧
  (unmountedRef (ctrl w) = false → isSyncingRef (ctrl w) = false →
   localState (ctrl r.1)
   = {| data := ts_data cs; loading := false; error := ts_error cs;
        retryCount := ts_retryCount cs; lastUpdated := ts_lastUpdated cs |}).
Proof.
  intros Hc. cbv zeta. unfold execute.
  destruct rev; cbn [keyFor] in Hc.
  - erewrite cachedFor_store; [rewrite Hc | done].
    proj. split_and!; try done.
    intros Hu Hs. by rewrite updateLocalState_mounted.
  - proj. erewrite cachedFor_store; [rewrite Hc | done].
    proj. split_and!; try done.
    intros Hu Hs. by rewrite updateLocalState_mounted.
Qed.

Lemma abortCurrent_frame w :
  ctrl (abortCurrent w) = ctrl w ∧
  store (abortCurrent w) = store w ∧
  inflight (abortCurrent w) = inflight w ∧
  actionCalls (abortCurrent w) = actionCalls w ∧
  notified (abortCurrent w) = notified w ∧
  nextAbort (abortCurrent w) = nextAbort w ∧
  aborted (abortCurrent w) = match abortControllerRef (ctrl w) with
                             | Some a => {[a]} ∪ aborted w
                             | None => aborted w
                             end.
Proof. unfold abortCurrent. by destruct (abortControllerRef (ctrl w)). Qed.

(** A call that is not answered from the store starts an invocation. *)
Lemma execute_started rev args now w :
  cachedFor (keyFor rev args w) (optionsRef (ctrl w)) now w = None →
  let r := execute rev args now w in
  r.2 = Awaiting ∧
  inflight r.1 = inflight w ++ [started rev args w] ∧
  actionCalls r.1 = actionCalls w ++ [args] ∧
  requestIdRef (ctrl r.1) = requestIdRef (ctrl w) + 1 ∧
  unmountedRef (ctrl r.1) = unmountedRef (ctrl w) ∧
  (isSyncingRef (ctrl w) = false → isSyncingRef (ctrl r.1) = false) ∧
  Store.listeners (store r.1) = Store.listeners (store w) ∧
  aborted r.1 = match rev, abortControllerRef (ctrl w) with
                | Rev2, Some a => {[a]} ∪ aborted w
                | _, _ => aborted w
                end ∧
  nextAbort r.1 = match rev with
                  | Rev1 => nextAbort w
                  | Rev2 => S (nextAbort w)
                  end ∧
  abortControllerRef (ctrl r.1) = match rev with
                                  | Rev1 => abortControllerRef (ctrl w)
                                  | Rev2 => Some (nextAbort w)
                                  end ∧
  (unmountedRef (ctrl w) = false → isSyncingRef (ctrl w) = false →
   loading (localState (ctrl r.1)) = true ∧
   (selfSubscribed (keyFor rev args w) (store w) = false →
    data (localState (ctrl r.1)) = data (localState (ctrl w)))).
Proof.
  intros Hc. cbv zeta. unfold execute.
  destruct rev; cbn [keyFor] in Hc.
  - erewrite cachedFor_store; [rewrite Hc | done].
    set (key := resolveTaskKey _ _).
    unfold callAction, started. cbn [keyFor]. fold key.
    destruct key as [k |] eqn:Hkey.
    + set (w1 := onCtrl (updateLocalState _) _).
      set (task := loadingTask _ _).
      destruct (setStateIfKey_frame (Some k) task w1)
        as (Hin' & Hab' & Hnx' & Hac' & Hrid' & Href' & Hun' & Hls' & Hsy').
      cbn [fst snd inflight actionCalls with_inflight with_actionCalls ctrl store
           aborted nextAbort].
      rewrite Hin', Hab', Hnx', Hac', Hrid', Href', Hun', Hls'.
      assert (Hst1 : store w1 = store w) by (subst w1; by proj).
      split_and!;
        first [ by (subst w1; proj)
              | by (intros Hs; apply Hsy'; subst w1; proj)
              | idtac ].
      intros Hu Hs. rewrite setStateIfKey_local by (subst w1; by proj).
      rewrite Hst1. destruct (selfSubscribed _ _).
      * by split.
      * subst w1. proj. rewrite updateLocalState_mounted by by proj.
        by split.
    + proj. split_and!; try done.
      intros Hu Hs. rewrite updateLocalState_mounted by by proj. by split.
  - change (resolvedTaskKey (ctrl (onCtrl (with_lastArgsRef (Some args)) w)))
      with (resolvedTaskKey (ctrl w)).
    erewrite cachedFor_store; [rewrite Hc | done].
    unfold callAction, started, newAbortController. cbn [keyFor].
    destruct (abortCurrent_frame (onCtrl (with_lastArgsRef (Some args)) w))
      as (Hc0 & Hs0 & Hi0 & Ha0 & Hn0 & Hx0 & Hb0).
    set (wa := abortCurrent _) in *.
    destruct (resolvedTaskKey (ctrl w)) as [k |] eqn:Hkey.
    + set (w1 := onCtrl (updateLocalState _) _).
      set (task := loadingTask _ _).
      destruct (setStateIfKey_frame (Some k) task w1)
        as (Hin' & Hab' & Hnx' & Hac' & Hrid' & Href' & Hun' & Hls' & Hsy').
      cbn [fst snd inflight actionCalls with_inflight with_actionCalls ctrl store
           aborted nextAbort].
      rewrite Hin', Hab', Hnx', Hac', Hrid', Href', Hun', Hls'.
      assert (Hst1 : store w1 = store w) by (subst w1; proj; by rewrite Hs0).
      split_and!;
        first [ by (subst w1; proj; rewrite ?Hc0, ?Hs0, ?Hi0, ?Ha0, ?Hx0, ?Hb0; proj)
              | by (intros Hs; apply Hsy'; subst w1; proj; rewrite Hc0; proj)
              | idtac ].
      intros Hu Hs.
      rewrite setStateIfKey_local by (subst w1; proj; rewrite Hc0; by proj).
      rewrite Hst1. destruct (selfSubscribed _ _).
      * by split.
      * subst w1. proj. rewrite Hc0. proj.
        rewrite updateLocalState_mounted by by proj. by split.
    + proj. rewrite ?Hc0, ?Hs0, ?Hi0, ?Ha0, ?Hx0, ?Hb0. proj.
      split_and!; try done.
      intros Hu Hs. rewrite updateLocalState_mounted by by proj. by split.
Qed.
(** *** The invariant *)

Lemma wf_mount rev (opts : Options A) (s : Store.t T E Listener) :
  wfWorld (mount rev opts s).
Proof.
  unfold wfWorld, mount, subscribeEffect.
  destruct (subscriptionKey rev _) as [k |]; [| by split_and!].
  destruct rev; [by split_and! |].
  unfold pullExisting. cbn [store].
  destruct (Store.getState k s); by split_and!.
Qed.

Lemma wf_execute rev args now w : wfWorld w → wfWorld (execute rev args now w).1.
Proof.
  intros (Hs & Hle & Hsorted & Hab & Href). unfold wfWorld.
  destruct (cachedFor (keyFor rev args w) (optionsRef (ctrl w)) now w) as [cs |] eqn:Hc.
  - destruct (execute_cached rev args now w cs Hc)
      as (_ & _ & Hin & Hrid & _ & _ & Habt & Hnx &Haref & _ & Hsy & _).
    rewrite Hin, Hrid, Habt, Hnx, Haref, Hsy. by split_and!.
  - destruct (execute_started rev args now w Hc)
      as (_ & Hin & _ & Hrid & _ & Hsy & _ & Habt & Hnx & Haref & _).
    rewrite Hin, Hrid, Habt, Hnx, Haref. split_and!.
    + by apply Hsy.
    + intros i inv [Hi | [_ Hi]]%lookup_app_Some.
      * apply Hle in Hi. lia.
      * apply list_lookup_singleton_Some in Hi as [_ <-]. simpl. lia.
    + intros i j a b Ha Hb Hij.
      apply lookup_app_Some in Ha as [Ha | [Hlen Ha]];
        apply lookup_app_Some in Hb as [Hb | [Hlen' Hb]].
      * by eapply Hsorted.
      * apply list_lookup_singleton_Some in Hb as [_ <-]. simpl.
        apply Hle in Ha. lia.
      * apply lookup_lt_Some in Hb. lia.
      * apply list_lookup_singleton_Some in Ha as [? _].
        apply list_lookup_singleton_Some in Hb as [? _]. lia.
    + intros a. destruct rev; [apply Hab |].
      destruct (abortControllerRef (ctrl w)) as [a' |] eqn:Hr.
      * intros [->%elem_of_singleton | Ha]%elem_of_union.
        -- specialize (Href _ eq_refl). lia.
        -- apply Hab in Ha. lia.
      * intros Ha%Hab. lia.
    + intros a. destruct rev; [apply Href |]. intros [= <-]. lia.
Qed.

Lemma wf_settle rev i o now w : wfWorld w → wfWorld (settle rev i o now w).1.
Proof.
  intros (Hs & Hle & Hsorted & Hab & Href). unfold settle.
  destruct (inflight w !! i) as [inv |] eqn:Hi; [| by split_and!].
  pose proof (performAction_frame rev i inv o now w) as Hf. cbv zeta in Hf.
  destruct (performAction rev i inv o now w) as [w1 p].
  cbn [fst snd] in Hf.
  destruct Hf as (Hrid & _ & Hsy & Habt & Hnx & Hr1 & _ & Hp).
  destruct p as [[v | e] |]; [| done |].
  - destruct Hp as [Hin _]. unfold wfWorld.
    cbn [fst ctrl inflight with_inflight aborted nextAbort].
    rewrite Hrid, Habt, Hnx, Hin. split_and!.
    + by apply Hsy.
    + intros j inv' Hj.
      destruct (decide (j < i)%nat).
      * rewrite list_lookup_delete_lt in Hj by done. by eapply Hle.
      * rewrite list_lookup_delete_ge in Hj by lia. by eapply Hle.
    + intros j1 j2 a b Ha Hb Hlt.
      destruct (decide (j1 < i)%nat); destruct (decide (j2 < i)%nat).
      * rewrite list_lookup_delete_lt in Ha, Hb by done. by eapply Hsorted.
      * rewrite list_lookup_delete_lt in Ha by done.
        rewrite list_lookup_delete_ge in Hb by lia.
        eapply Hsorted; [done | done | lia].
      * lia.
      * rewrite list_lookup_delete_ge in Ha, Hb by lia.
        eapply Hsorted; [done | done | lia].
    + done.
    + intros a Ha. by apply Href, Hr1.
  - destruct Hp as [Hin _]. unfold wfWorld. cbn [fst].
    rewrite Hrid, Habt, Hnx, Hin.
    assert (Hget : ∀ j x, <[i := retryOf inv]> (inflight w) !! j = Some x →
                   ∃ y, inflight w !! j = Some y ∧
                        currentRequestId x = currentRequestId y).
    { intros j x Hj. destruct (decide (i = j)) as [<- | Hne].
      - rewrite list_lookup_insert_eq in Hj by by eapply lookup_lt_Some.
        injection Hj as <-. by exists inv.
      - rewrite list_lookup_insert_ne in Hj by done. by exists x. }
    split_and!.
    + by apply Hsy.
    + intros j x (y & Hy & ->)%Hget. by eapply Hle.
    + intros j1 j2 a b (a' & Ha' & ->)%Hget (b' & Hb' & ->)%Hget Hlt.
      by eapply Hsorted.
    + done.
    + intros a Ha. by apply Href, Hr1.
Qed.

Lemma wf_cancel rev w : wfWorld w → wfWorld (cancel rev w).
Proof.
  intros (Hs & Hle & Hsorted & Hab & Href). unfold cancel, abortCurrent.
  destruct rev.
  - destruct (pollingTimerRef _); unfold wfWorld; proj; split_and!; try done;
      intros i inv Hi%Hle; lia.
  - proj. destruct (abortControllerRef (ctrl w)) as [a |] eqn:Hr; proj;
      destruct (pollingTimerRef (ctrl w)); unfold wfWorld; proj;
      rewrite ?Hr; proj;
      (split_and!;
        [ done
        | intros i inv Hi%Hle; lia
        | done
        | try done
        | done ]).
    all: intros a' [->%elem_of_singleton | Ha]%elem_of_union;
      [by apply Href | by apply Hab].
Qed.

Lemma wf_publish (r : Store.t T E Listener * list (Listener * AsyncState T E)) w :
  wfWorld w → wfWorld (publish r w).
Proof.
  intros (Hs & Hle & Hsorted & Hab & Href). unfold wfWorld. proj.
  split_and!; try done. by apply deliver_isSyncingRef.
Qed.

Lemma wf_onCtrl_local (f : Controller T E A → Controller T E A) w :
  (∀ c, requestIdRef (f c) = requestIdRef c ∧
        abortControllerRef (f c) = abortControllerRef c ∧
        isSyncingRef (f c) = isSyncingRef c) →
  wfWorld w → wfWorld (onCtrl f w).
Proof.
  intros Hf (Hs & Hle & Hsorted & Hab & Href). unfold wfWorld. proj.
  destruct (Hf (ctrl w)) as (-> & -> & ->). by split_and!.
Qed.

Lemma wf_with_store (s : Store.t T E Listener) w : wfWorld w → wfWorld (with_store s w).
Proof. done. Qed.

Lemma wf_deleteStateIfKey key w : wfWorld w → wfWorld (deleteStateIfKey key w).
Proof.
  intros Hw. unfold deleteStateIfKey. destruct key as [k |]; [| done].
  destruct (truthyStr (Some k)); [| done]. by apply wf_publish.
Qed.

Lemma wf_reset rev w : wfWorld w → wfWorld (reset rev w).
Proof.
  intros Hw%(wf_cancel rev). unfold reset.
  set (w1 := deleteStateIfKey _ _).
  assert (H1 : wfWorld w1) by by apply wf_deleteStateIfKey.
  clearbody w1.
  assert (H2 : wfWorld (if negb (unmountedRef (ctrl w1))
                        then onCtrl (setLocalState
                               (asyncOfTask (Store.createInitialState 0))) w1
                        else w1)).
  { destruct (negb _); [| done]. by apply wf_onCtrl_local. }
  destruct rev; repeat apply wf_onCtrl_local; done.
Qed.

Lemma wf_abortCurrent w : wfWorld w → wfWorld (abortCurrent w).
Proof.
  intros (Hs & Hle & Hsorted & Hab & Href). unfold abortCurrent.
  unfold wfWorld.
  destruct (abortControllerRef (ctrl w)) as [a |] eqn:Hr;
    [| split_and!; try done; by rewrite Hr].
  proj. rewrite ?Hr. split_and!; try done.
  intros a' [->%elem_of_singleton | Ha]%elem_of_union; [by apply Href | by apply Hab].
Qed.

Lemma wf_unmount rev w : wfWorld w → wfWorld (unmount rev w).
Proof.
  intros Hw. unfold unmount.
  set (w1 := match subscriptionKey rev (ctrl w) with
             | Some k => _
             | None => w
             end).
  assert (H1 : wfWorld w1) by (subst w1; by destruct (subscriptionKey _ _)).
  clearbody w1.
  set (w2 := match pollingTimerRef (ctrl w1) with
             | Some _ => _
             | None => w1
             end).
  assert (H2 : wfWorld w2).
  { subst w2. destruct (pollingTimerRef _); [| done]. by apply wf_onCtrl_local. }
  clearbody w2.
  assert (H3 : wfWorld (onCtrl (with_unmountedRef true) w2))
    by by apply wf_onCtrl_local.
  destruct rev; [done | by apply wf_abortCurrent].
Qed.

Lemma wf_step rev w ev : wfWorld w → wfWorld (step rev w ev).
Proof.
  intros Hw. destruct ev; cbn [step].
  - by apply wf_execute.
  - by apply wf_settle.
  - by apply wf_cancel.
  - by apply wf_reset.
  - by apply wf_unmount.
  - by apply wf_onCtrl_local.
  - by apply wf_publish.
  - by apply wf_publish.
  - done.
  - done.
Qed.

Lemma wf_run rev evs w : wfWorld w → wfWorld (run rev w evs).
Proof.
  revert w. unfold run.
  induction evs as [| ev evs IH]; intros w Hw; [done |].
  cbn [foldl]. by apply IH, wf_step.
Qed.

Lemma reachable_wf rev w : reachable rev w → wfWorld w.
Proof. intros (opts & s & evs & ->). apply wf_run, wf_mount. Qed.

Lemma run_app rev w evs evs' :
  run rev w (evs ++ evs') = run rev (run rev w evs) evs'.
Proof. unfold run. apply foldl_app. Qed.

Lemma reachable_run rev w evs : reachable rev w → reachable rev (run rev w evs).
Proof.
  intros (opts & s & evs0 & ->). exists opts, s, (evs0 ++ evs).
  by rewrite run_app.
Qed.

(** *** Race control *)

(** C1.  In every world a mounted controller can reach: no pending
    invocation is ahead of the request counter; the completion, by success
    or by failure, of a pending invocation whose generation is not the
    counter changes nothing (it only leaves the pending calls) and its
    promise resolves with nothing; and a completion that commits anything
    to the local state or to the store belongs to the invocation whose
    generation is the counter, which was started after every other pending
    invocation. *)
Theorem race_control rev w (Hreach : reachable rev w) :
  (∀ i inv, inflight w !! i = Some inv →
            currentRequestId inv ≤ requestIdRef (ctrl w)) ∧
  (∀ i inv o now,
     inflight w !! i = Some inv →
     currentRequestId inv ≠ requestIdRef (ctrl w) →
     settle rev i o now w
     = (with_inflight (delete i (inflight w)) w, Some (Done (Resolved None)))) ∧
  (∀ i inv o now,
     inflight w !! i = Some inv →
     committed w (settle rev i o now w).1 →
     currentRequestId inv = requestIdRef (ctrl w) ∧
     ∀ j inv', inflight w !! j = Some inv' → j ≠ i →
               (j < i)%nat ∧ currentRequestId inv' < currentRequestId inv).
Proof.
  destruct (reachable_wf rev w Hreach) as (Hs & Hle & Hsorted & Hab & Href).
  split_and!.
  - exact Hle.
  - intros i inv o now Hi Hne. by apply (settle_stale rev i inv).
  - intros i inv o now Hi Hcommit.
    destruct (decide (currentRequestId inv = requestIdRef (ctrl w))) as [Heq | Hne].
    + split; [done |]. intros j inv' Hj Hji.
      destruct (decide (j < i)%nat) as [Hlt | Hge].
      * split; [done |]. by eapply Hsorted.
      * exfalso. assert (Hij : (i < j)%nat) by lia.
        pose proof (Hsorted i j inv inv' Hi Hj Hij).
        pose proof (Hle j inv' Hj). lia.
    + exfalso. rewrite (settle_stale rev i inv o now w Hi Hne) in Hcommit.
      by destruct Hcommit as [? | [? | ?]].
Qed.

(** *** Cancellation *)

Lemma cancel_frame rev w :
  localState (ctrl (cancel rev w)) = localState (ctrl w) ∧
  store (cancel rev w) = store w ∧
  inflight (cancel rev w) = inflight w ∧
  actionCalls (cancel rev w) = actionCalls w ∧
  notified (cancel rev w) = notified w ∧
  requestIdRef (ctrl (cancel rev w)) = requestIdRef (ctrl w) + 1 ∧
  pollingTimerRef (ctrl (cancel rev w)) = None.
Proof.
  unfold cancel, abortCurrent. destruct rev.
  - proj. destruct (pollingTimerRef (ctrl w)) eqn:Hp; proj; by split_and!.
  - proj. destruct (abortControllerRef (ctrl w)) eqn:Hr; proj;
      destruct (pollingTimerRef (ctrl w)) eqn:Hp; proj; rewrite ?Hr; proj;
      by split_and!.
Qed.

(** C2 (as amended).  After [execute] has started an invocation and
    [cancel()] has been called, [cancel] has changed neither the local
    state nor the store, [loading] is still [true], and the completion of
    any pending invocation, the started one included, commits nothing: the
    world is unchanged but for the pending calls, and the promise resolves
    with nothing.  So [data] is not set to the result, and [loading] stays
    [true]. *)
Theorem cancel_suppresses_commit rev w args now0
    (Hreach : reachable rev w)
    (Hu : unmountedRef (ctrl w) = false)
    (Hc : cachedFor (keyFor rev args w) (optionsRef (ctrl w)) now0 w = None) :
  let w1 := (execute rev args now0 w).1 in
  let w2 := cancel rev w1 in
  inflight w2 !! length (inflight w) = Some (started rev args w) ∧
  localState (ctrl w2) = localState (ctrl w1) ∧
  store w2 = store w1 ∧
  loading (localState (ctrl w2)) = true ∧
  ∀ i inv o now,
    inflight w2 !! i = Some inv →
    settle rev i o now w2
    = (with_inflight (delete i (inflight w2)) w2, Some (Done (Resolved None))).
Proof.
  cbv zeta.
  pose proof (reachable_wf rev w Hreach) as Hw.
  pose proof (wf_execute rev args now0 w Hw) as Hw1.
  destruct Hw as (Hs & _).
  destruct (execute_started rev args now0 w Hc)
    as (_ & Hin & _ & Hrid & _ & _ & _ & _ & _ & _ & Hload).
  destruct (Hload Hu Hs) as [Hl _].
  destruct (cancel_frame rev (execute rev args now0 w).1)
    as (Hloc & Hst & Hin2 & _ & _ & Hrid2 & _).
  split_and!.
  - rewrite Hin2, Hin. rewrite lookup_app_r by done.
    by rewrite Nat.sub_diag.
  - done.
  - done.
  - by rewrite Hloc.
  - intros i inv o now Hi. apply (settle_stale rev i inv); [done |].
    rewrite Hin2 in Hi. destruct Hw1 as (_ & Hle & _).
    apply Hle in Hi. rewrite Hrid2. lia.
Qed.

(** *** The promise of [execute] *)

(** C5.  The promise of [execute] never rejects.  A call answered from the
    store resolves at once; when a pending call of the action settles,
    the promise stays pending (a retry), or resolves with nothing, or
    resolves with a value, and then the action fulfilled with that value.
    It resolves with the result when the invocation is current and the
    action fulfils; it resolves with nothing when the action rejects and
    no retry is left, and when the invocation is stale or cancelled.  The
    failure is to be read in the local state: when the current invocation
    rejects with no retry left, the promise resolves with nothing and the
    local state has the failure as [error], with [loading = false]; a
    stale or cancelled completion, which resolves with nothing too, leaves
    the local state as it is. *)
Theorem execute_never_rejects rev w :
  (∀ args now err, (execute rev args now w).2 ≠ Done (RejectedWith err)) ∧
  (∀ i o now err, (settle rev i o now w).2 ≠ Some (Done (RejectedWith err))) ∧
  (∀ i o now v, (settle rev i o now w).2 = Some (Done (Resolved (Some v))) →
                o = Fulfilled v) ∧
  (∀ i inv result now,
     current rev i inv w →
     (settle rev i (Fulfilled result) now w).2
     = Some (Done (Resolved (Some result)))) ∧
  (∀ i inv err now,
     inflight w !! i = Some inv →
     ¬ inv_retryCount inv < default 0 (maxRetries (currentOptions inv)) →
     (settle rev i (Rejected err) now w).2 = Some (Done (Resolved None))) ∧
  (∀ i inv o now,
     inflight w !! i = Some inv →
     expired inv w || signalAborted rev inv w = true →
     (settle rev i o now w).2 = Some (Done (Resolved None))) ∧
  (∀ i inv err now,
     current rev i inv w →
     ¬ inv_retryCount inv < default 0 (maxRetries (currentOptions inv)) →
     (settle rev i (Rejected err) now w).2 = Some (Done (Resolved None)) ∧
     error (localState (ctrl (settle rev i (Rejected err) now w).1)) = Some err ∧
     loading (localState (ctrl (settle rev i (Rejected err) now w).1)) = false ∧
     retryCount (localState (ctrl (settle rev i (Rejected err) now w).1))
     = inv_retryCount inv ∧
     lastUpdated (localState (ctrl (settle rev i (Rejected err) now w).1))
     = Some now) ∧
  (∀ i inv result now,
     current rev i inv w →
     error (localState (ctrl (settle rev i (Fulfilled result) now w).1)) = None) ∧
  (∀ i inv o now,
     inflight w !! i = Some inv →
     expired inv w || signalAborted rev inv w = true →
     localState (ctrl (settle rev i o now w).1) = localState (ctrl w)).
Proof.
  split_and!.
  - intros args now err.
    destruct (cachedFor (keyFor rev args w) (optionsRef (ctrl w)) now w)
      as [cs |] eqn:Hc.
    + destruct (execute_cached rev args now w cs Hc) as (-> & _). done.
    + destruct (execute_started rev args now w Hc) as (-> & _). done.
  - intros i o now err. unfold settle.
    destruct (inflight w !! i) as [inv |]; [| done].
    pose proof (performAction_frame rev i inv o now w) as Hf. cbv zeta in Hf.
    destruct (performAction rev i inv o now w) as [w1 [[v | e] |]];
      cbn [fst snd] in *; [done | | done].
    by destruct Hf as (_ & _ & _ & _ & _ & _ & _ & ?).
  - intros i o now v. unfold settle.
    destruct (inflight w !! i) as [inv |]; [| done].
    unfold performAction, tryBlock, catchBlock.
    destruct o as [result | err].
    + destruct (expired inv w || signalAborted rev inv w); cbn [fst snd promiseOf];
        [done |]. by intros [= ->].
    + destruct (signalAborted rev inv w); [done |].
      destruct (expired inv w); [done |].
      by destruct (_ <? _).
  - intros i inv result now Hcur.
    by destruct (settle_success rev i inv result now w Hcur) as (? & _).
  - intros i inv err now Hi Hlt. unfold settle. rewrite Hi.
    unfold performAction, tryBlock, catchBlock.
    destruct (signalAborted rev inv w); [done |].
    destruct (expired inv w); [done |].
    by replace (_ <? _) with false by lia.
  - intros i inv o now Hi [He | Ha]%orb_true_iff; unfold settle; rewrite Hi.
    + by rewrite performAction_expired.
    + by rewrite performAction_aborted.
  - intros i inv err now Hcur Hlt.
    destruct (settle_failure rev i inv err now w Hcur Hlt) as (-> & -> & _).
    by destruct (selfSubscribed _ _).
  - intros i inv result now Hcur.
    by destruct (settle_success rev i inv result now w Hcur) as (_ & -> & _).
  - intros i inv o now Hi [He | Ha]%orb_true_iff; unfold settle; rewrite Hi.
    + by rewrite performAction_expired.
    + by rewrite performAction_aborted.
Qed.

(** *** What a commit leaves in [data] and [error] *)

(** C6 (as amended).  When the current invocation succeeds, the local
    state has the result as [data], no [error], and [loading = false].
    When it fails with no retry left, the local state has the failure as
    [error] and [loading = false], and the commit does not set [data]:
    [data] is what it was before the failure (the last known good value)
    unless the controller's own [syncState] is subscribed to the key of
    the invocation; then the store entry written by the failure, which has
    no [data], is delivered to the local state and [data] is absent.  An
    invocation without a key always keeps [data]. *)
Theorem commit_data_error rev w i inv now (Hcur : current rev i inv w) :
  (∀ result,
     let st := localState (ctrl (settle rev i (Fulfilled result) now w).1) in
     data st = Some result ∧ error st = None ∧ loading st = false) ∧
  (∀ err,
     ¬ inv_retryCount inv < default 0 (maxRetries (currentOptions inv)) →
     let st := localState (ctrl (settle rev i (Rejected err) now w).1) in
     error st = Some err ∧ loading st = false ∧
     data st = (if selfSubscribed (inv_key inv) (store w)
                then None else data (localState (ctrl w))) ∧
     (inv_key inv = None → data st = data (localState (ctrl w))) ∧
     (∀ k, inv_key inv = Some k →
           SyncState ∉ Store.subscribers k (store w) →
           data st = data (localState (ctrl w))) ∧
     (∀ k, inv_key inv = Some k → k ≠ "" →
           SyncState ∈ Store.subscribers k (store w) →
           data st = None)).
Proof.
  split.
  - intros result. cbv zeta.
    destruct (settle_success rev i inv result now w Hcur) as (_ & -> & _).
    by split_and!.
  - intros err Hlt. cbv zeta.
    destruct (settle_failure rev i inv err now w Hcur Hlt) as (_ & -> & _).
    assert (Hdata : data (if selfSubscribed (inv_key inv) (store w)
                          then {| data := None; loading := false; error := Some err;
                                  retryCount := inv_retryCount inv;
                                  lastUpdated := Some now |}
                          else {| data := data (localState (ctrl w));
                                  loading := false; error := Some err;
                                  retryCount := inv_retryCount inv;
                                  lastUpdated := Some now |})
                    = if selfSubscribed (inv_key inv) (store w)
                      then None else data (localState (ctrl w))).
    { by destruct (selfSubscribed _ _). }
    split_and!.
    + by destruct (selfSubscribed _ _).
    + by destruct (selfSubscribed _ _).
    + exact Hdata.
    + intros Hk. rewrite Hdata, Hk. done.
    + intros k Hk Hnot. rewrite Hdata, Hk. unfold selfSubscribed.
      rewrite bool_decide_eq_false_2 by done. by rewrite andb_false_r.
    + intros k Hk Hne Hsub. rewrite Hdata, Hk. unfold selfSubscribed, truthyStr.
      apply String.eqb_neq in Hne. rewrite Hne.
      by rewrite bool_decide_eq_true_2.
Qed.

(** *** The cache *)

(** C8 (as amended).  [execute] is answered without a call of the action
    exactly when the key is a non-empty string, [cacheTime] is positive and
    the store entry of the key is valid for [cacheTime] at that time,
    whether the entry was written by a success or by a failure.  Then the
    promise resolves at once with the entry's [data], the action is not
    called, no request generation is consumed, nothing is written to the
    store, no listener is called, and a mounted controller takes the
    entry's fields as its local state with [loading = false]. *)
Theorem cache_short_circuit rev w args now :
  let key := keyFor rev args w in
  let opts := optionsRef (ctrl w) in
  let r := execute rev args now w in
  (r.2 ≠ Awaiting ↔
     ∃ k ct cs, key = Some k ∧ k ≠ "" ∧ cacheTime opts = Some ct ∧ 0 < ct ∧
                Store.getState k (store w) = Some cs ∧
                Store.isCacheValid now (Some cs) ct = true) ∧
  (∀ k ct cs,
     key = Some k → k ≠ "" → cacheTime opts = Some ct → 0 < ct →
     Store.getState k (store w) = Some cs →
     Store.isCacheValid now (Some cs) ct = true →
     r.2 = Done (Resolved (ts_data cs)) ∧
     actionCalls r.1 = actionCalls w ∧
     inflight r.1 = inflight w ∧
     requestIdRef (ctrl r.1) = requestIdRef (ctrl w) ∧
     store r.1 = store w ∧
     notified r.1 = notified w ∧
     (unmountedRef (ctrl w) = false → isSyncingRef (ctrl w) = false →
      localState (ctrl r.1)
      = {| data := ts_data cs; loading := false; error := ts_error cs;
           retryCount := ts_retryCount cs;
           lastUpdated := ts_lastUpdated cs |})).
Proof.
  cbv zeta. split.
  - destruct (cachedFor (keyFor rev args w) (optionsRef (ctrl w)) now w)
      as [cs |] eqn:Hc.
    + destruct (execute_cached rev args now w cs Hc) as (-> & _).
      split; [| done]. intros _.
      apply cachedFor_Some in Hc as (k & ct & ?). by exists k, ct, cs.
    + destruct (execute_started rev args now w Hc) as (-> & _).
      split; [done |]. intros (k & ct & cs & Hex).
      assert (Hsome : cachedFor (keyFor rev args w) (optionsRef (ctrl w)) now w
                      = Some cs).
      { apply cachedFor_Some. by exists k, ct. }
      congruence.
  - intros k ct cs Hk Hne Hct Hpos Hget Hvalid.
    assert (Hc : cachedFor (keyFor rev args w) (optionsRef (ctrl w)) now w = Some cs).
    { apply cachedFor_Some. by exists k, ct. }
    destruct (execute_cached rev args now w cs Hc)
      as (H1 & H2 & H3 & H4 & H5 & H6 & _ & _ & _ & _ & _ & H7).
    by split_and!.
Qed.

(** *** Retries *)

Lemma iter_retryOf n inv :
  inv_args (Nat.iter n retryOf inv) = inv_args inv ∧
  inv_key (Nat.iter n retryOf inv) = inv_key inv ∧
  currentRequestId (Nat.iter n retryOf inv) = currentRequestId inv ∧
  abortController (Nat.iter n retryOf inv) = abortController inv ∧
  currentOptions (Nat.iter n retryOf inv) = currentOptions inv ∧
  inv_retryCount (Nat.iter n retryOf inv) = inv_retryCount inv + Z.of_nat n.
Proof.
  induction n as [| n (IH1 & IH2 & IH3 & IH4 & IH5 & IH6)].
  - simpl. split_and!; try done. lia.
  - simpl. split_and!; try done. lia.
Qed.

(** While retries are left, each rejection of the current invocation calls
    the action again and changes nothing but the local retry count. *)
Lemma retries_run rev i (errs : list (E * Z)) :
  ∀ inv w,
    current rev i inv w →
    inv_retryCount inv + Z.of_nat (length errs)
      ≤ default 0 (maxRetries (currentOptions inv)) →
    let w' := run rev w (rejections i errs) in
    current rev i (Nat.iter (length errs) retryOf inv) w' ∧
    actionCalls w' = actionCalls w ++ replicate (length errs) (inv_args inv) ∧
    store w' = store w ∧
    data (localState (ctrl w')) = data (localState (ctrl w)) ∧
    (errs ≠ [] →
     retryCount (localState (ctrl w'))
     = inv_retryCount inv + Z.of_nat (length errs)) ∧
    inflight w' = <[i := Nat.iter (length errs) retryOf inv]> (inflight w).
Proof.
  induction errs as [| [err now] errs IH]; intros inv w Hcur Hle; cbv zeta.
  - simpl. split_and!; try done.
    + by rewrite app_nil_r.
    + destruct Hcur as (Hi & _). by rewrite list_insert_id.
  - assert (Hlt : inv_retryCount inv < default 0 (maxRetries (currentOptions inv))).
    { simpl in Hle. lia. }
    pose proof (settle_retry_current rev i inv err now w Hcur Hlt) as Hcur1.
    pose proof (settle_retry rev i inv err now w Hcur Hlt) as Hw1.
    unfold rejections. rewrite fmap_cons. unfold run. cbn [foldl step fst snd].
    fold (run rev (settle rev i (Rejected err) now w).1
            ((λ en : E * Z, Settle i (Rejected en.1) en.2) <$> errs)).
    fold (@rejections T E A i errs).
    set (w1 := (settle rev i (Rejected err) now w).1) in *.
    assert (Hle1 : inv_retryCount (retryOf inv) + Z.of_nat (length errs)
                   ≤ default 0 (maxRetries (currentOptions (retryOf inv)))).
    { simpl in *. lia. }
    destruct (IH (retryOf inv) w1 Hcur1 Hle1) as (Hc & Hac & Hst & Hd & Hrc & Hin).
    assert (Hw1' : w1 = (with_inflight (<[i := retryOf inv]> (inflight w))
       (with_actionCalls (actionCalls w ++ [inv_args inv])
          (with_ctrl
             (with_localState
                (spreadAsync (localState (ctrl w))
                   {| p_data := None; p_loading := None; p_error := None;
                      p_retryCount := Some (inv_retryCount inv + 1);
                      p_lastUpdated := None |})
                (ctrl w)) w)))) by (subst w1; by rewrite Hw1).
    cbn [length]. rewrite Nat.iter_succ_r.
    split_and!.
    + done.
    + rewrite Hac, Hw1'. simpl. by rewrite <- app_assoc.
    + rewrite Hst, Hw1'. done.
    + rewrite Hd, Hw1'. done.
    + intros _. destruct errs as [| e' errs'].
      * simpl. rewrite Hw1'. simpl. lia.
      * rewrite Hrc by done. simpl. lia.
    + rewrite Hin, Hw1'. simpl. by rewrite list_insert_insert_eq.
Qed.

Lemma selfSubscribed_listeners key (s s' : Store.t T E Listener) :
  Store.listeners s' = Store.listeners s →
  selfSubscribed key s' = selfSubscribed key s.
Proof.
  intros Hl. unfold selfSubscribed, Store.subscribers. by rewrite Hl.
Qed.

(** An invocation just started by [execute] is current. *)
Lemma execute_started_current rev args now w :
  wfWorld w →
  unmountedRef (ctrl w) = false →
  cachedFor (keyFor rev args w) (optionsRef (ctrl w)) now w = None →
  current rev (length (inflight w)) (started rev args w) (execute rev args now w).1.
Proof.
  intros (Hs & Hle & Hsorted & Hab & Href) Hu Hc.
  destruct (execute_started rev args now w Hc)
    as (_ & Hin & _ & Hrid & Hun & Hsy & _ & Habt & _).
  unfold current. split_and!.
  - rewrite Hin, lookup_app_r by done. by rewrite Nat.sub_diag.
  - by rewrite Hrid.
  - by rewrite Hun.
  - by apply Hsy.
  - unfold signalAborted. destruct rev; [done |].
    apply bool_decide_eq_false_2. rewrite Habt. cbn [started abortController].
    destruct (abortControllerRef (ctrl w)) as [a |] eqn:Hr.
    + intros [Heq%elem_of_singleton | Ha]%elem_of_union.
      * specialize (Href _ eq_refl). lia.
      * apply Hab in Ha. lia.
    + intros Ha%Hab. lia.
Qed.

Lemma delete_insert_last {X} (l : list X) (x y : X) :
  delete (length l) (<[length l := y]> (l ++ [x])) = l.
Proof. induction l as [| z l IH]; [done |]. simpl. by rewrite IH. Qed.

(** C3.  With [maxRetries = 3], a call of [execute] that is not answered
    from the store, on a mounted controller without [data], followed by
    four rejections of the action: the action has been called four times
    (once, and three retries), none is pending any more, and the local
    state has [retryCount = 3], the last error, [loading = false] and no
    [data]. *)
Theorem retry_exhaustion rev w args now0 e1 t1 e2 t2 e3 t3 e4 t4
    (Hreach : reachable rev w)
    (Hu : unmountedRef (ctrl w) = false)
    (Hd : data (localState (ctrl w)) = None)
    (Hm : maxRetries (optionsRef (ctrl w)) = Some 3)
    (Hc : cachedFor (keyFor rev args w) (optionsRef (ctrl w)) now0 w = None) :
  let i := length (inflight w) in
  let w' := run rev w (Execute args now0
                         :: rejections i [(e1, t1); (e2, t2); (e3, t3); (e4, t4)]) in
  actionCalls w' = actionCalls w ++ [args; args; args; args] ∧
  inflight w' = inflight w ∧
  retryCount (localState (ctrl w')) = 3 ∧
  error (localState (ctrl w')) = Some e4 ∧
  loading (localState (ctrl w')) = false ∧
  data (localState (ctrl w')) = None ∧
  lastUpdated (localState (ctrl w')) = Some t4.
Proof.
  cbv zeta.
  pose proof (reachable_wf rev w Hreach) as Hw.
  pose proof (execute_started_current rev args now0 w Hw Hu Hc) as Hcur.
  destruct (execute_started rev args now0 w Hc)
    as (_ & Hin & Hac & _ & _ & _ & Hls & _ & _ & _ & Hload).
  destruct Hw as (Hs & _). destruct (Hload Hu Hs) as [_ Hdata].
  assert (Hsplit : ∀ w0 : World T E A,
            run rev w0 (Execute args now0
                          :: rejections (length (inflight w))
                               [(e1, t1); (e2, t2); (e3, t3); (e4, t4)])
            = (settle rev (length (inflight w)) (Rejected e4) t4
                 (run rev (execute rev args now0 w0).1
                    (rejections (length (inflight w))
                       [(e1, t1); (e2, t2); (e3, t3)]))).1) by done.
  rewrite Hsplit. clear Hsplit.
  set (w1 := (execute rev args now0 w).1) in *.
  set (inv := started rev args w) in *.
  assert (Hmax : default 0 (maxRetries (currentOptions inv)) = 3)
    by (subst inv; simpl; by rewrite Hm).
  destruct (retries_run rev (length (inflight w)) [(e1, t1); (e2, t2); (e3, t3)]
              inv w1 Hcur) as (Hcur3 & Hac3 & Hst3 & Hd3 & Hrc3 & Hin3).
  { rewrite Hmax. subst inv. simpl. lia. }
  set (w3 := run rev w1 _) in *.
  set (inv3 := Nat.iter _ retryOf inv) in *.
  destruct (iter_retryOf 3 inv) as (Ha3 & Hk3 & _ & _ & Ho3 & Hr3).
  change (Nat.iter 3 retryOf inv) with inv3 in Ha3, Hk3, Ho3, Hr3.
  assert (Hex : ¬ inv_retryCount inv3 < default 0 (maxRetries (currentOptions inv3))).
  { rewrite Ho3, Hmax, Hr3. subst inv. simpl. lia. }
  destruct (settle_failure rev (length (inflight w)) inv3 e4 t4 w3 Hcur3 Hex)
    as (_ & Hloc & Hacf & Hinf & _).
  rewrite Hloc, Hacf, Hinf, Hac3, Hin3, Hac, Hin.
  assert (Hself : selfSubscribed (inv_key inv3) (store w3)
                  = selfSubscribed (keyFor rev args w) (store w)).
  { rewrite Hk3, Hst3. subst inv. cbn [started inv_key].
    by apply selfSubscribed_listeners. }
  rewrite Hself.
  assert (Hr3' : inv_retryCount inv3 = 3) by (rewrite Hr3; subst inv; simpl; lia).
  split_and!.
  - subst inv. simpl. by rewrite <- !app_assoc.
  - apply delete_insert_last.
  - by destruct (selfSubscribed _ _) eqn:Hss.
  - by destruct (selfSubscribed _ _) eqn:Hss.
  - by destruct (selfSubscribed _ _) eqn:Hss.
  - destruct (selfSubscribed _ _) eqn:Hss; [done |].
    cbn [data]. by rewrite Hd3, Hdata.
  - by destruct (selfSubscribed _ _) eqn:Hss.
Qed.



(** *** The subscribe effect *)

(** [Rev1] never reads the store when it mounts. *)
Lemma rev1_mount_local (opts : Options A) (s : Store.t T E Listener) :
  localState (ctrl (mount Rev1 opts s)) = asyncOfTask (Store.createInitialState 0).
Proof.
  unfold mount, subscribeEffect. by destruct (subscriptionKey Rev1 _).
Qed.

(** [Rev1] with a derived key: the subscription is under the placeholder,
    whatever key the function computes. *)
Lemma rev1_mount_derived (f : list A → string) mr ct (s : Store.t T E Listener) :
  let opts := {| taskKey := Some (KeyDerived f); maxRetries := mr; cacheTime := ct |} in
  let w := mount Rev1 opts s in
  (∀ args, keyFor Rev1 args w = Some (f args)) ∧
  SyncState ∈ Store.subscribers "__dynamic__" (store w) ∧
  (∀ k, k ≠ "__dynamic__" →
        Store.subscribers k (store w) = Store.subscribers k s).
Proof.
  cbv zeta. unfold mount, subscribeEffect. cbn [subscriptionKey ctrl
    initialController optionsRef taskKey store with_store].
  split_and!.
  - done.
  - rewrite subscribers_subscribe. apply setAdd_elem. by left.
  - intros k Hk. by rewrite subscribers_subscribe_ne.
Qed.

(** [Rev2]: the subscription is under the resolved key, and the entry the
    store holds for it becomes the local state. *)
Lemma rev2_mount_subscribes (opts : Options A) (s : Store.t T E Listener) k :
  resolveTaskKey (taskKey opts) [] = Some k → k ≠ "" →
  let w := mount Rev2 opts s in
  SyncState ∈ Store.subscribers k (store w) ∧
  Store.globalStore (store w) = Store.globalStore s ∧
  (∀ existing, Store.getState k s = Some existing →
               localState (ctrl w) = asyncOfTask existing).
Proof.
  intros Hk Hne. cbv zeta. unfold mount, subscribeEffect.
  cbn [subscriptionKey ctrl initialController resolvedTaskKey]. rewrite Hk.
  unfold truthyStr. apply String.eqb_neq in Hne. rewrite Hne. cbn [negb].
  unfold pullExisting. cbn [store].
  destruct (Store.getState k s) as [e |] eqn:Hget; cbn [store with_store onCtrl].
  - split_and!.
    + rewrite subscribers_subscribe. apply setAdd_elem. by left.
    + done.
    + by intros existing [= <-].
  - split_and!.
    + rewrite subscribers_subscribe. apply setAdd_elem. by left.
    + done.
    + done.
Qed.

(** *** What no event undoes *)

Lemma deliver_unmounted (calls : list (Listener * AsyncState T E)) c :
  unmountedRef c = true → deliver calls c = c.
Proof.
  intros Hu. apply (deliver_ind (λ c', c' = c)); [| done].
  intros st c' ->. unfold syncState. by rewrite Hu.
Qed.

Lemma updateLocalState_unmounted (partial : PartialAsync T E) c :
  unmountedRef c = true → updateLocalState partial c = c.
Proof. intros Hu. unfold updateLocalState. by rewrite Hu. Qed.

Lemma keeps_refl w : keeps w w.
Proof. unfold keeps. split_and!; try done; try lia. Qed.

Lemma keeps_trans w1 w2 w3 : keeps w1 w2 → keeps w2 w3 → keeps w1 w3.
Proof.
  intros (Ho & Hk & Hr & Hu) (Ho' & Hk' & Hr' & Hu'). unfold keeps.
  split_and!; [congruence | congruence | lia |].
  intros H1. destruct (Hu H1) as [H2 Hl]. destruct (Hu' H2) as [H3 Hl'].
  split; congruence.
Qed.

Lemma keeps_ctrl w w' : ctrl w' = ctrl w → keeps w w'.
Proof. intros Hc. unfold keeps. rewrite Hc. split_and!; try done; try lia. Qed.

Lemma keeps_updateLocalState (partial : PartialAsync T E) w :
  keeps w (onCtrl (updateLocalState partial) w).
Proof.
  unfold keeps. proj. split_and!; try done; try lia.
  intros Hu. by rewrite updateLocalState_unmounted.
Qed.

Lemma keeps_publish (r : Store.t T E Listener * list (Listener * AsyncState T E)) w :
  keeps w (publish r w).
Proof.
  unfold keeps. proj. split_and!; try done; try lia.
  intros Hu. by rewrite deliver_unmounted.
Qed.

Lemma keeps_setStateIfKey key (state : TaskState T E) w :
  keeps w (setStateIfKey key state w).
Proof.
  unfold setStateIfKey. destruct key as [k |]; [| apply keeps_refl].
  destruct (truthyStr (Some k)); [apply keeps_publish | apply keeps_refl].
Qed.

Lemma keeps_deleteStateIfKey key w : keeps w (deleteStateIfKey key w).
Proof.
  unfold deleteStateIfKey. destruct key as [k |]; [| apply keeps_refl].
  destruct (truthyStr (Some k)); [apply keeps_publish | apply keeps_refl].
Qed.

Lemma keeps_abortCurrent w : keeps w (abortCurrent w).
Proof. apply keeps_ctrl. apply abortCurrent_frame. Qed.

Lemma keeps_clearAbortController rev inv w :
  keeps w (clearAbortController rev inv w).
Proof.
  unfold clearAbortController. destruct rev; [apply keeps_refl |].
  case_bool_decide; [| apply keeps_refl].
  unfold keeps. proj. split_and!; try done; try lia.
Qed.

Lemma keeps_execute rev args now w : keeps w (execute rev args now w).1.
Proof.
  unfold execute.
  set (w0 := onCtrl (with_lastArgsRef (Some args)) w).
  assert (H0 : keeps w w0).
  { subst w0. unfold keeps. proj. split_and!; try done; try lia. }
  set (key := match rev with
              | Rev1 => resolveTaskKey _ _
              | Rev2 => resolvedTaskKey (ctrl w0)
              end).
  set (w1 := match rev with
             | Rev1 => onCtrl (with_currentTaskKeyRef key) w0
             | Rev2 => w0
             end).
  assert (H1 : keeps w w1).
  { eapply keeps_trans; [exact H0 |]. subst w1. destruct rev; [| apply keeps_refl].
    unfold keeps. proj. split_and!; try done; try lia. }
  clearbody w1 key. clear H0 w0.
  destruct (cachedFor key _ now w1) as [cs |]; cbn [fst].
  - eapply keeps_trans; [exact H1 |]. apply keeps_updateLocalState.
  - set (w2 := match rev with
               | Rev1 => w1
               | Rev2 => newAbortController (abortCurrent w1)
               end).
    assert (H2 : keeps w w2).
    { eapply keeps_trans; [exact H1 |]. subst w2. destruct rev; [apply keeps_refl |].
      eapply keeps_trans; [apply keeps_abortCurrent |].
      unfold newAbortController, keeps. proj. split_and!; try done; try lia. }
    clearbody w2. clear H1.
    set (rid := requestIdRef (ctrl w2) + 1).
    set (w3 := onCtrl (with_requestIdRef rid) w2).
    assert (H3 : keeps w w3).
    { eapply keeps_trans; [exact H2 |]. subst w3 rid. unfold keeps. proj.
      split_and!; try done; try lia. }
    clearbody w3. clear H2.
    set (w4 := onCtrl (updateLocalState _) w3).
    assert (H4 : keeps w w4).
    { eapply keeps_trans; [exact H3 |]. apply keeps_updateLocalState. }
    clearbody w4. clear H3.
    set (w5 := match key with
               | Some k => setStateIfKey key _ w4
               | None => w4
               end).
    assert (H5 : keeps w w5).
    { eapply keeps_trans; [exact H4 |]. subst w5.
      destruct key; [apply keeps_setStateIfKey | apply keeps_refl]. }
    clearbody w5.
    eapply keeps_trans; [exact H5 |]. by apply keeps_ctrl.
Qed.

Lemma keeps_performAction rev i inv o now w :
  keeps w (performAction rev i inv o now w).1.
Proof.
  unfold performAction, tryBlock, catchBlock.
  destruct o as [result | err].
  - destruct (expired inv w || signalAborted rev inv w); cbn [fst];
      [apply keeps_refl |].
    eapply keeps_trans; [| apply keeps_clearAbortController].
    eapply keeps_trans; [| apply keeps_setStateIfKey].
    apply keeps_updateLocalState.
  - destruct (signalAborted rev inv w); cbn [fst]; [apply keeps_refl |].
    destruct (expired inv w); cbn [fst]; [apply keeps_refl |].
    destruct (_ <? _); cbn [fst].
    + eapply keeps_trans; [apply keeps_updateLocalState |]. by apply keeps_ctrl.
    + eapply keeps_trans; [| apply keeps_clearAbortController].
      eapply keeps_trans; [| apply keeps_setStateIfKey].
      apply keeps_updateLocalState.
Qed.

Lemma keeps_settle rev i o now w : keeps w (settle rev i o now w).1.
Proof.
  unfold settle. destruct (inflight w !! i) as [inv |]; [| apply keeps_refl].
  pose proof (keeps_performAction rev i inv o now w) as Hk.
  destruct (performAction rev i inv o now w) as [w1 [s |]]; cbn [fst] in *.
  - eapply keeps_trans; [exact Hk |]. by apply keeps_ctrl.
  - done.
Qed.

Lemma keeps_cancel rev w : keeps w (cancel rev w).
Proof.
  unfold cancel.
  set (w1 := onCtrl _ w).
  assert (H1 : keeps w w1).
  { subst w1. unfold keeps. proj. split_and!; try done; try lia. }
  clearbody w1.
  set (w2 := match rev with
             | Rev1 => w1
             | Rev2 => _
             end).
  assert (H2 : keeps w w2).
  { eapply keeps_trans; [exact H1 |]. subst w2. destruct rev; [apply keeps_refl |].
    destruct (abortControllerRef (ctrl w1)); [| apply keeps_refl].
    eapply keeps_trans; [apply keeps_abortCurrent |].
    unfold keeps. proj. split_and!; try done; try lia. }
  clearbody w2.
  eapply keeps_trans; [exact H2 |].
  destruct (pollingTimerRef (ctrl w2)); [| apply keeps_refl].
  unfold keeps. proj. split_and!; try done; try lia.
Qed.

Lemma keeps_reset rev w : keeps w (reset rev w).
Proof.
  unfold reset.
  set (w1 := cancel rev w).
  assert (H1 : keeps w w1) by apply keeps_cancel.
  clearbody w1.
  set (key := match rev with
              | Rev1 => currentTaskKeyRef (ctrl w1)
              | Rev2 => resolvedTaskKey (ctrl w1)
              end).
  clearbody key.
  set (w2 := deleteStateIfKey key w1).
  assert (H2 : keeps w w2).
  { eapply keeps_trans; [exact H1 |]. apply keeps_deleteStateIfKey. }
  clearbody w2.
  set (w3 := if negb (unmountedRef (ctrl w2)) then _ else w2).
  assert (H3 : keeps w w3).
  { eapply keeps_trans; [exact H2 |]. subst w3.
    destruct (unmountedRef (ctrl w2)) eqn:Hu; cbn [negb]; [apply keeps_refl |].
    unfold keeps. proj. rewrite Hu. split_and!; try done; try lia. }
  clearbody w3.
  set (w4 := onCtrl (with_lastArgsRef None) w3).
  assert (H4 : keeps w w4).
  { eapply keeps_trans; [exact H3 |]. subst w4. unfold keeps. proj.
    split_and!; try done; try lia. }
  clearbody w4.
  destruct rev; [| done].
  eapply keeps_trans; [exact H4 |]. unfold keeps. proj. split_and!; try done; try lia.
Qed.

Lemma keeps_unmount rev w : keeps w (unmount rev w).
Proof.
  unfold unmount.
  set (w1 := match subscriptionKey rev (ctrl w) with
             | Some k => _
             | None => w
             end).
  assert (H1 : keeps w w1).
  { subst w1. destruct (subscriptionKey rev (ctrl w)); [| apply keeps_refl].
    by apply keeps_ctrl. }
  clearbody w1.
  set (w2 := match pollingTimerRef (ctrl w1) with
             | Some _ => _
             | None => w1
             end).
  assert (H2 : keeps w w2).
  { eapply keeps_trans; [exact H1 |]. subst w2.
    destruct (pollingTimerRef (ctrl w1)); [| apply keeps_refl].
    unfold keeps. proj. split_and!; try done; try lia. }
  clearbody w2.
  assert (H3 : keeps w (onCtrl (with_unmountedRef true) w2)).
  { eapply keeps_trans; [exact H2 |]. unfold keeps. proj.
    split_and!; try done; try lia. }
  destruct rev; [done |].
  eapply keeps_trans; [exact H3 |]. apply keeps_abortCurrent.
Qed.

Lemma keeps_step rev w ev : keeps w (step rev w ev).
Proof.
  destruct ev; cbn [step].
  - apply keeps_execute.
  - apply keeps_settle.
  - apply keeps_cancel.
  - apply keeps_reset.
  - apply keeps_unmount.
  - unfold keeps. proj. split_and!; try done; try lia.
  - apply keeps_publish.
  - apply keeps_publish.
  - by apply keeps_ctrl.
  - by apply keeps_ctrl.
Qed.

Lemma keeps_run rev evs w : keeps w (run rev w evs).
Proof.
  revert w. unfold run. induction evs as [| ev evs IH]; intros w; cbn [foldl].
  - apply keeps_refl.
  - eapply keeps_trans; [apply keeps_step | apply IH].
Qed.

(** *** cancel, reset and unmount in detail *)

Lemma subscribers_listeners k (s s' : Store.t T E Listener) :
  Store.listeners s' = Store.listeners s →
  Store.subscribers k s' = Store.subscribers k s.
Proof. intros Hl. unfold Store.subscribers. by rewrite Hl. Qed.

Lemma cancel_refs rev w :
  unmountedRef (ctrl (cancel rev w)) = unmountedRef (ctrl w) ∧
  isSyncingRef (ctrl (cancel rev w)) = isSyncingRef (ctrl w) ∧
  currentTaskKeyRef (ctrl (cancel rev w)) = currentTaskKeyRef (ctrl w) ∧
  resolvedTaskKey (ctrl (cancel rev w)) = resolvedTaskKey (ctrl w) ∧
  aborted (cancel rev w) = match rev, abortControllerRef (ctrl w) with
                           | Rev2, Some a => {[a]} ∪ aborted w
                           | _, _ => aborted w
                           end ∧
  abortControllerRef (ctrl (cancel rev w))
  = match rev with
    | Rev1 => abortControllerRef (ctrl w)
    | Rev2 => None
    end.
Proof.
  unfold cancel, abortCurrent. destruct rev.
  - proj. destruct (pollingTimerRef (ctrl w)) eqn:Hp; proj; by split_and!.
  - proj. destruct (abortControllerRef (ctrl w)) eqn:Hr; proj;
      destruct (pollingTimerRef (ctrl w)) eqn:Hp; proj; rewrite ?Hr; proj;
      by split_and!.
Qed.

Lemma deleteStateIfKey_frame key w :
  inflight (deleteStateIfKey key w) = inflight w ∧
  actionCalls (deleteStateIfKey key w) = actionCalls w ∧
  requestIdRef (ctrl (deleteStateIfKey key w)) = requestIdRef (ctrl w) ∧
  unmountedRef (ctrl (deleteStateIfKey key w)) = unmountedRef (ctrl w) ∧
  Store.listeners (store (deleteStateIfKey key w)) = Store.listeners (store w) ∧
  Store.globalStore (store (deleteStateIfKey key w))
  = match key with
    | Some k => if truthyStr key then delete k (Store.globalStore (store w))
                else Store.globalStore (store w)
    | None => Store.globalStore (store w)
    end.
Proof.
  unfold deleteStateIfKey. destruct key as [k |]; [| done].
  destruct (truthyStr (Some k)); [| done]. proj. by split_and!.
Qed.

Lemma reset_frame rev w :
  inflight (reset rev w) = inflight w ∧
  actionCalls (reset rev w) = actionCalls w ∧
  requestIdRef (ctrl (reset rev w)) = requestIdRef (ctrl w) + 1 ∧
  unmountedRef (ctrl (reset rev w)) = unmountedRef (ctrl w) ∧
  Store.listeners (store (reset rev w)) = Store.listeners (store w) ∧
  Store.globalStore (store (reset rev w))
  = match resetKey rev w with
    | Some k => if truthyStr (resetKey rev w)
                then delete k (Store.globalStore (store w))
                else Store.globalStore (store w)
    | None => Store.globalStore (store w)
    end ∧
  lastArgsRef (ctrl (reset rev w)) = None ∧
  (unmountedRef (ctrl w) = false →
   localState (ctrl (reset rev w)) = asyncOfTask (Store.createInitialState 0)).
Proof.
  unfold reset.
  destruct (cancel_frame rev w) as (_ & Hst & Hin & Hac & _ & Hrid & _).
  destruct (cancel_refs rev w) as (Hun & _ & Hck & Hrk & _).
  set (w1 := cancel rev w) in *.
  assert (Hkey : match rev with
                 | Rev1 => currentTaskKeyRef (ctrl w1)
                 | Rev2 => resolvedTaskKey (ctrl w1)
                 end = resetKey rev w).
  { unfold resetKey. destruct rev; congruence. }
  rewrite Hkey.
  destruct (deleteStateIfKey_frame (resetKey rev w) w1)
    as (Hin2 & Hac2 & Hrid2 & Hun2 & Hls2 & Hgs2).
  set (w2 := deleteStateIfKey (resetKey rev w) w1) in *.
  clearbody w2 w1.
  destruct (unmountedRef (ctrl w2)) eqn:Hu2; cbn [negb];
    destruct rev; proj;
    (split_and!;
       [ congruence | congruence | congruence | congruence
       | by rewrite Hls2, Hst
       | rewrite Hgs2, Hst; by destruct (resetKey _ w) | done
       | intros Hu; congruence ]).
Qed.

Lemma unmount_frame rev w :
  unmountedRef (ctrl (unmount rev w)) = true ∧
  localState (ctrl (unmount rev w)) = localState (ctrl w) ∧
  inflight (unmount rev w) = inflight w ∧
  actionCalls (unmount rev w) = actionCalls w ∧
  Store.globalStore (store (unmount rev w)) = Store.globalStore (store w) ∧
  (∀ k, Store.subscribers k (store (unmount rev w))
        = if decide (subscriptionKey rev (ctrl w) = Some k)
          then Store.setDelete SyncState (Store.subscribers k (store w))
          else Store.subscribers k (store w)).
Proof.
  unfold unmount.
  set (w1 := match subscriptionKey rev (ctrl w) with
             | Some k => _
             | None => w
             end).
  assert (H1 : ctrl w1 = ctrl w ∧ inflight w1 = inflight w ∧
               actionCalls w1 = actionCalls w ∧
               Store.globalStore (store w1) = Store.globalStore (store w) ∧
               (∀ k, Store.subscribers k (store w1)
                     = if decide (subscriptionKey rev (ctrl w) = Some k)
                       then Store.setDelete SyncState (Store.subscribers k (store w))
                       else Store.subscribers k (store w))).
  { subst w1. destruct (subscriptionKey rev (ctrl w)) as [k0 |].
    - proj. split_and!; try done.
      + unfold Store.unsubscribe. by destruct (Store.listeners (store w) !! k0).
      + intros k. case_decide as Hk.
        * injection Hk as ->. apply subscribers_unsubscribe.
        * apply subscribers_unsubscribe_ne. congruence.
    - split_and!; try done; intros k; by rewrite decide_False. }
  destruct H1 as (Hc & Hin & Hac & Hgs & Hsub). clearbody w1.
  set (w2 := match pollingTimerRef (ctrl w1) with
             | Some _ => _
             | None => w1
             end).
  assert (H2 : localState (ctrl w2) = localState (ctrl w1) ∧
               inflight w2 = inflight w1 ∧ actionCalls w2 = actionCalls w1 ∧
               store w2 = store w1).
  { subst w2. destruct (pollingTimerRef (ctrl w1)); proj; by split_and!. }
  destruct H2 as (Hl2 & Hin2 & Hac2 & Hst2). clearbody w2.
  destruct (abortCurrent_frame (onCtrl (with_unmountedRef true) w2))
    as (Hc3 & Hs3 & Hi3 & Ha3 & _).
  destruct rev.
  - proj. rewrite Hst2. split_and!; first [done | congruence].
  - rewrite Hc3, Hs3, Hi3, Ha3. proj. rewrite Hst2.
    split_and!; first [done | congruence].
Qed.

(** *** Further properties of the controller *)

Lemma cachedFor_absent key (opts : Options A) now w :
  (∀ k, key = Some k → k ≠ "" → Store.getState k (store w) = None) →
  cachedFor key opts now w = None.
Proof.
  intros Habs. destruct (cachedFor key opts now w) as [cs |] eqn:Hc; [| done].
  apply cachedFor_Some in Hc as (k & ct & Hk & Hne & _ & _ & Hget & _).
  rewrite (Habs k Hk Hne) in Hget. done.
Qed.

Lemma setStateIfKey_currentTaskKeyRef key (state : TaskState T E) w :
  currentTaskKeyRef (ctrl (setStateIfKey key state w)) = currentTaskKeyRef (ctrl w).
Proof.
  unfold setStateIfKey. destruct key as [k |]; [| done].
  destruct (truthyStr (Some k)); [| done]. by proj.
Qed.

Lemma abortCurrent_currentTaskKeyRef w :
  currentTaskKeyRef (ctrl (abortCurrent w)) = currentTaskKeyRef (ctrl w).
Proof. unfold abortCurrent. by destruct (abortControllerRef (ctrl w)). Qed.

Lemma execute_currentTaskKeyRef args now w :
  currentTaskKeyRef (ctrl (execute Rev1 args now w).1) = keyFor Rev1 args w.
Proof.
  unfold execute, keyFor. cbv zeta.
  destruct (cachedFor _ _ _ _) as [cs |].
  - proj. done.
  - unfold callAction. destruct (resolveTaskKey _ _) as [k |] eqn:Hk.
    + proj. rewrite setStateIfKey_currentTaskKeyRef. proj. done.
    + proj. done.
Qed.

Lemma reset_currentTaskKeyRef w : currentTaskKeyRef (ctrl (reset Rev1 w)) = None.
Proof. unfold reset. cbv zeta. by proj. Qed.

Lemma clearAbortController_currentTaskKeyRef rev inv w :
  currentTaskKeyRef (ctrl (clearAbortController rev inv w)) = currentTaskKeyRef (ctrl w).
Proof.
  unfold clearAbortController. destruct rev; [done |].
  by destruct (bool_decide _).
Qed.

Lemma performAction_currentTaskKeyRef rev i inv o now w :
  currentTaskKeyRef (ctrl (performAction rev i inv o now w).1)
  = currentTaskKeyRef (ctrl w).
Proof.
  unfold performAction, tryBlock, catchBlock, callAction. cbv zeta.
  destruct o as [result | err].
  - destruct (expired inv w || signalAborted rev inv w); [done |].
    cbn [fst snd]. rewrite clearAbortController_currentTaskKeyRef,
      setStateIfKey_currentTaskKeyRef. by proj.
  - destruct (signalAborted rev inv w); [done |].
    destruct (expired inv w); [done |].
    destruct (_ <? _); cbn [fst snd].
    + by proj.
    + rewrite clearAbortController_currentTaskKeyRef,
        setStateIfKey_currentTaskKeyRef. by proj.
Qed.

Lemma cancel_currentTaskKeyRef rev w :
  currentTaskKeyRef (ctrl (cancel rev w)) = currentTaskKeyRef (ctrl w).
Proof.
  unfold cancel. cbv zeta.
  set (w1 := onCtrl _ w).
  assert (H1 : currentTaskKeyRef (ctrl w1) = currentTaskKeyRef (ctrl w)) by done.
  rewrite <- H1. clearbody w1.
  set (w2 := match rev with Rev1 => w1 | Rev2 => _ end).
  assert (H2 : currentTaskKeyRef (ctrl w2) = currentTaskKeyRef (ctrl w1)).
  { subst w2. destruct rev; [done |].
    destruct (abortControllerRef (ctrl w1)); [| done].
    proj. apply abortCurrent_currentTaskKeyRef. }
  rewrite <- H2. clearbody w2.
  by destruct (pollingTimerRef (ctrl w2)).
Qed.

Lemma unmount_currentTaskKeyRef rev w :
  currentTaskKeyRef (ctrl (unmount rev w)) = currentTaskKeyRef (ctrl w).
Proof.
  unfold unmount. cbv zeta.
  set (w1 := match subscriptionKey rev (ctrl w) with Some k => _ | None => w end).
  assert (H1 : currentTaskKeyRef (ctrl w1) = currentTaskKeyRef (ctrl w)).
  { subst w1. by destruct (subscriptionKey rev (ctrl w)). }
  rewrite <- H1. clearbody w1.
  set (w2 := match pollingTimerRef (ctrl w1) with Some _ => _ | None => w1 end).
  assert (H2 : currentTaskKeyRef (ctrl w2) = currentTaskKeyRef (ctrl w1)).
  { subst w2. by destruct (pollingTimerRef (ctrl w1)). }
  rewrite <- H2. clearbody w2.
  destruct rev; [done |]. by rewrite abortCurrent_currentTaskKeyRef.
Qed.

Lemma step_currentTaskKeyRef rev w (ev : Event T E A) :
  (∀ args now, ev ≠ Execute args now) → ev ≠ Reset →
  currentTaskKeyRef (ctrl (step rev w ev)) = currentTaskKeyRef (ctrl w).
Proof.
  intros Hex Hre.
  destruct ev as [args now | j o now | | | | timer | key st | key | key n | key n];
    cbn [step].
  - by destruct (Hex args now).
  - unfold settle. destruct (inflight w !! j) as [inv |]; [| done].
    pose proof (performAction_currentTaskKeyRef rev j inv o now w) as Hp.
    by destruct (performAction rev j inv o now w) as [w1 [s |]].
  - apply cancel_currentTaskKeyRef.
  - done.
  - apply unmount_currentTaskKeyRef.
  - done.
  - by proj.
  - by proj.
  - done.
  - done.
Qed.

Lemma run_currentTaskKeyRef rev (evs : list (Event T E A)) :
  ∀ w,
    (∀ ev, ev ∈ evs → (∀ args now, ev ≠ Execute args now) ∧ ev ≠ Reset) →
    currentTaskKeyRef (ctrl (run rev w evs)) = currentTaskKeyRef (ctrl w).
Proof.
  unfold run. induction evs as [| ev evs IH]; intros w Hevs; cbn [foldl]; [done |].
  rewrite IH.
  - apply step_currentTaskKeyRef; apply Hevs; by left.
  - intros ev' Hev'. apply Hevs. by right.
Qed.

(** X7.  [reset()] on a mounted controller.  The local state is the initial
    state (no data, not loading, no error, retry count 0, no timestamp),
    the remembered arguments are cleared, the subscriptions stay, and
    every pending invocation is invalidated: its completion commits
    nothing.  The store entry that [reset] removes is the entry of the key
    it works under, and no other entry changes.  In the second revision
    this key is the resolved key of the controller, so that the next
    [execute] always calls the action.  In the first revision it is the key
    of the last [execute] since the mount or the last [reset]
    ([currentTaskKeyRef], which [execute] sets and [reset] clears, and
    which no other event changes): when there was no such [execute], the
    store stays as it is, a store entry of the configured key survives,
    and the next [execute] consults the store as before the [reset]. *)
Theorem reset_purges rev w
    (Hreach : reachable rev w) (Hu : unmountedRef (ctrl w) = false) :
  let w' := reset rev w in
  localState (ctrl w')
  = {| data := None; loading := false; error := None; retryCount := 0;
       lastUpdated := None |} ∧
  lastArgsRef (ctrl w') = None ∧
  (∀ k, resetKey rev w = Some k → k ≠ "" → Store.getState k (store w') = None) ∧
  (∀ k, resetKey rev w ≠ Some k →
        Store.getState k (store w') = Store.getState k (store w)) ∧
  Store.listeners (store w') = Store.listeners (store w) ∧
  (∀ i inv o now,
     inflight w' !! i = Some inv →
     settle rev i o now w'
     = (with_inflight (delete i (inflight w')) w', Some (Done (Resolved None)))) ∧
  (∀ args now,
     keyFor rev args w' = resetKey rev w →
     (execute rev args now w').2 = Awaiting ∧
     actionCalls (execute rev args now w').1 = actionCalls w ++ [args]) ∧
  (rev = Rev2 →
   resetKey rev w = resolvedTaskKey (ctrl w) ∧
   ∀ args now,
     (execute rev args now w').2 = Awaiting ∧
     actionCalls (execute rev args now w').1 = actionCalls w ++ [args]) ∧
  (rev = Rev1 →
   resetKey rev w = currentTaskKeyRef (ctrl w) ∧
   currentTaskKeyRef (ctrl w') = None ∧
   (∀ args now evs,
      (∀ ev, ev ∈ evs → (∀ args' now', ev ≠ Execute args' now') ∧ ev ≠ Reset) →
      currentTaskKeyRef (ctrl (run rev (execute rev args now w).1 evs))
      = resolveTaskKey (taskKey (optionsRef (ctrl w))) args) ∧
   (currentTaskKeyRef (ctrl w) = None →
    store w' = store w ∧
    ∀ key opts now, cachedFor key opts now w' = cachedFor key opts now w)).
Proof.
  cbv zeta.
  destruct (reachable_wf rev w Hreach) as (_ & Hle & _).
  destruct (reset_frame rev w) as (Hin & Hac & Hrid & _ & Hls & Hgs & Hla & Hloc).
  assert (Hgone : ∀ k, resetKey rev w = Some k → k ≠ "" →
                       Store.getState k (store (reset rev w)) = None).
  { intros k Hk Hne. unfold Store.getState. rewrite Hgs, Hk.
    unfold truthyStr. apply String.eqb_neq in Hne. rewrite Hne. cbn [negb].
    apply lookup_delete_eq. }
  assert (Hfresh : ∀ args now,
            keyFor rev args (reset rev w) = resetKey rev w →
            (execute rev args now (reset rev w)).2 = Awaiting ∧
            actionCalls (execute rev args now (reset rev w)).1
            = actionCalls w ++ [args]).
  { intros args now Hkey.
    assert (Hc : cachedFor (keyFor rev args (reset rev w))
                   (optionsRef (ctrl (reset rev w))) now (reset rev w) = None).
    { apply cachedFor_absent. intros k Hk Hne. apply Hgone; [| done]. congruence. }
    destruct (execute_started rev args now (reset rev w) Hc) as (-> & _ & -> & _).
    by rewrite Hac. }
  split_and!.
  - by rewrite Hloc.
  - done.
  - exact Hgone.
  - intros k Hk. unfold Store.getState. rewrite Hgs.
    destruct (resetKey rev w) as [k' |]; [| done].
    destruct (truthyStr (Some k')); [| done].
    apply lookup_delete_ne. congruence.
  - done.
  - intros i inv o now Hi. apply (settle_stale rev i inv); [done |].
    rewrite Hin in Hi. apply Hle in Hi. rewrite Hrid. lia.
  - exact Hfresh.
  - intros ->. split; [done |]. intros args now. apply Hfresh.
    unfold keyFor, resetKey.
    by destruct (keeps_reset Rev2 w) as (_ & -> & _).
  - intros ->. split_and!.
    + done.
    + apply reset_currentTaskKeyRef.
    + intros args now evs Hevs. rewrite run_currentTaskKeyRef by done.
      apply execute_currentTaskKeyRef.
    + intros Hnone.
      assert (Hst : store (reset Rev1 w) = store w).
      { apply store_eq; [| done]. rewrite Hgs. unfold resetKey. by rewrite Hnone. }
      split; [done |]. intros key opts now. by apply cachedFor_store.
Qed.

(** X8.  After the unmount nothing reaches the local state any more:
    whatever happens next (calls of [execute], [cancel] or [reset],
    completions of pending invocations, store writes by other code), the
    controller stays unmounted, its local state stays what it was, and the
    completion of a pending invocation commits nothing. *)
Theorem unmount_freezes rev w evs :
  let w' := run rev (unmount rev w) evs in
  unmountedRef (ctrl w') = true ∧
  localState (ctrl w') = localState (ctrl w) ∧
  ∀ i inv o now,
    inflight w' !! i = Some inv →
    settle rev i o now w'
    = (with_inflight (delete i (inflight w')) w', Some (Done (Resolved None))).
Proof.
  cbv zeta.
  destruct (unmount_frame rev w) as (Hu & Hl & _).
  destruct (keeps_run rev evs (unmount rev w)) as (_ & _ & _ & Hfrozen).
  destruct (Hfrozen Hu) as [Hu' Hl'].
  split_and!; [done | congruence |].
  intros i inv o now Hi. unfold settle. rewrite Hi.
  rewrite performAction_expired; [done |].
  unfold expired. by rewrite Hu'.
Qed.

Lemma subscriptionKey_keeps rev w w' :
  keeps w w' → subscriptionKey rev (ctrl w') = subscriptionKey rev (ctrl w).
Proof.
  intros (Ho & Hk & _). unfold subscriptionKey. by rewrite Ho, Hk.
Qed.

Lemma step_subscribed rev w ev k :
  ev ≠ Unmount →
  SyncState ∈ Store.subscribers k (store w) →
  SyncState ∈ Store.subscribers k (store (step rev w ev)).
Proof.
  intros Hev Hin.
  destruct ev as [args now | i o now | | | | timer | key st | key | key n | key n];
    cbn [step].
  - erewrite subscribers_listeners; [exact Hin |].
    destruct (cachedFor (keyFor rev args w) (optionsRef (ctrl w)) now w)
      as [cs |] eqn:Hc.
    + destruct (execute_cached rev args now w cs Hc) as (_ & _ & _ & _ & -> & _).
      done.
    + by destruct (execute_started rev args now w Hc)
        as (_ & _ & _ & _ & _ & _ & -> & _).
  - erewrite subscribers_listeners; [exact Hin |].
    unfold settle. destruct (inflight w !! i) as [inv |]; [| done].
    pose proof (performAction_frame rev i inv o now w) as Hf. cbv zeta in Hf.
    destruct (performAction rev i inv o now w) as [w1 [s |]]; cbn [fst snd] in *;
      proj; by destruct Hf as (_ & _ & _ & _ & _ & _ & -> & _).
  - erewrite subscribers_listeners; [exact Hin |].
    by destruct (cancel_frame rev w) as (_ & -> & _).
  - erewrite subscribers_listeners; [exact Hin |].
    by destruct (reset_frame rev w) as (_ & _ & _ & _ & -> & _).
  - done.
  - done.
  - done.
  - done.
  - proj. destruct (decide (key = k)) as [-> | Hne].
    + rewrite subscribers_subscribe. apply setAdd_elem. by right.
    + by rewrite subscribers_subscribe_ne.
  - proj. destruct (decide (key = k)) as [-> | Hne].
    + rewrite subscribers_unsubscribe. by apply setDelete_elem.
    + by rewrite subscribers_unsubscribe_ne.
Qed.

Lemma mount_subscribed rev (opts : Options A) (s : Store.t T E Listener) k :
  subscriptionKey rev (ctrl (mount rev opts s)) = Some k →
  SyncState ∈ Store.subscribers k (store (mount rev opts s)).
Proof.
  unfold mount, subscribeEffect. cbn [ctrl].
  destruct (subscriptionKey rev (initialController rev opts)) as [k0 |] eqn:Hk0.
  - assert (Hsub : ∀ s0 : Store.t T E Listener,
              SyncState ∈ Store.subscribers k0 (Store.subscribe k0 SyncState s0)).
    { intros s0. rewrite subscribers_subscribe. apply setAdd_elem. by left. }
    set (w0 := match rev with
               | Rev1 => _
               | Rev2 => pullExisting k0 _
               end).
    assert (Hkey : subscriptionKey rev (ctrl w0) = Some k0).
    { subst w0. destruct rev; [done |]. unfold pullExisting. cbn [store].
      destruct (Store.getState k0 s); [| done]. by proj. }
    clearbody w0. proj. rewrite Hkey. intros [= <-]. apply Hsub.
  - cbn [ctrl]. by rewrite Hk0.
Qed.

Lemma run_subscribed rev evs : ∀ w,
  (unmountedRef (ctrl w) = false →
   ∀ k, subscriptionKey rev (ctrl w) = Some k →
        SyncState ∈ Store.subscribers k (store w)) →
  unmountedRef (ctrl (run rev w evs)) = false →
  ∀ k, subscriptionKey rev (ctrl (run rev w evs)) = Some k →
       SyncState ∈ Store.subscribers k (store (run rev w evs)).
Proof.
  unfold run. induction evs as [| ev evs IH]; intros w Hw; cbn [foldl]; [done |].
  apply IH. intros Hu k Hk.
  pose proof (keeps_step rev w ev) as Hkeep.
  rewrite (subscriptionKey_keeps rev _ _ Hkeep) in Hk.
  assert (Hu0 : unmountedRef (ctrl w) = false).
  { destruct (unmountedRef (ctrl w)) eqn:Hu0; [| done].
    destruct Hkeep as (_ & _ & _ & Hf). destruct (Hf Hu0) as [Hf' _].
    congruence. }
  apply step_subscribed; [| by apply Hw].
  intros ->. cbn [step] in Hu.
  destruct (unmount_frame rev w) as (Hu' & _). congruence.
Qed.

(** X9.  A mounted controller mirrors the store: when any other code
    writes the entry of the key the controller is subscribed under, the
    controller's local state becomes the projection of the written entry,
    and when the entry is deleted it becomes the initial state.  The
    controller writes nothing back: the store is the one the writer left,
    the request counter and the pending invocations are unchanged and the
    action is not called. *)
Theorem store_writes_are_mirrored rev w k (state : TaskState T E)
    (Hreach : reachable rev w)
    (Hu : unmountedRef (ctrl w) = false)
    (Hk : subscriptionKey rev (ctrl w) = Some k) :
  let w1 := step rev w (ExtSetState k state) in
  let w2 := step rev w (ExtDeleteState k) in
  localState (ctrl w1) = asyncOfTask state ∧
  store w1 = (Store.setState k state (store w)).1 ∧
  requestIdRef (ctrl w1) = requestIdRef (ctrl w) ∧
  inflight w1 = inflight w ∧
  actionCalls w1 = actionCalls w ∧
  localState (ctrl w2) = asyncOfTask (Store.createInitialState 0) ∧
  store w2 = (Store.deleteState k (store w)).1.
Proof.
  cbv zeta. cbn [step].
  destruct (reachable_wf rev w Hreach) as (Hs & _).
  assert (Hin : SyncState ∈ Store.subscribers k (store w)).
  { destruct Hreach as (opts & s & evs & ->).
    apply (run_subscribed rev evs (mount rev opts s)); [| done | done].
    intros _ k'. apply mount_subscribed. }
  proj. split_and!; try done.
  - rewrite setState_calls, deliver_fmap by done. by rewrite decide_True.
  - unfold Store.deleteState. cbn [snd]. rewrite notifyListeners_subscribers.
    assert (Hsub : Store.subscribers k
                     {| Store.globalStore := delete k (Store.globalStore (store w));
                        Store.listeners := Store.listeners (store w) |}
                   = Store.subscribers k (store w)) by done.
    rewrite Hsub, deliver_fmap by done. by rewrite decide_True.
Qed.

(** X10.  A new [execute] that is not answered from the store supersedes
    every invocation that was pending: each of them is still pending, but
    its completion now commits nothing.  The invocation just started is
    the current one, and in the second revision the abort controller of
    the previous call, if one is still held, is aborted while the new
    signal is not. *)
Theorem execute_supersedes rev w args now
    (Hreach : reachable rev w)
    (Hu : unmountedRef (ctrl w) = false)
    (Hc : cachedFor (keyFor rev args w) (optionsRef (ctrl w)) now w = None) :
  let w1 := (execute rev args now w).1 in
  (∀ i inv o t,
     inflight w !! i = Some inv →
     inflight w1 !! i = Some inv ∧
     settle rev i o t w1
     = (with_inflight (delete i (inflight w1)) w1, Some (Done (Resolved None)))) ∧
  current rev (length (inflight w)) (started rev args w) w1 ∧
  (∀ a, rev = Rev2 → abortControllerRef (ctrl w) = Some a → a ∈ aborted w1).
Proof.
  cbv zeta.
  pose proof (reachable_wf rev w Hreach) as Hw.
  pose proof (execute_started_current rev args now w Hw Hu Hc) as Hcur.
  destruct Hw as (_ & Hle & _).
  destruct (execute_started rev args now w Hc)
    as (_ & Hin & _ & Hrid & _ & _ & _ & Hab & _).
  split_and!.
  - intros i inv o t Hi.
    assert (Hi1 : inflight (execute rev args now w).1 !! i = Some inv).
    { rewrite Hin. by apply lookup_app_l_Some. }
    split; [done |]. apply (settle_stale rev i inv); [done |].
    apply Hle in Hi. rewrite Hrid. lia.
  - done.
  - intros a -> Ha. rewrite Hab, Ha. apply elem_of_union. left.
    by apply elem_of_singleton.
Qed.

(** X11.  In the second revision [cancel()] after a started [execute]
    aborts the signal that was handed to the action, forgets the abort
    controller and the poll timer, and bumps the request counter by one. *)
Theorem cancel_aborts_signal w args now
    (Hreach : reachable Rev2 w)
    (Hc : cachedFor (keyFor Rev2 args w) (optionsRef (ctrl w)) now w = None) :
  let w1 := (execute Rev2 args now w).1 in
  let w2 := cancel Rev2 w1 in
  signalAborted Rev2 (started Rev2 args w) w1 = false ∧
  signalAborted Rev2 (started Rev2 args w) w2 = true ∧
  abortControllerRef (ctrl w2) = None ∧
  pollingTimerRef (ctrl w2) = None ∧
  requestIdRef (ctrl w2) = requestIdRef (ctrl w) + 2.
Proof.
  cbv zeta.
  destruct (reachable_wf Rev2 w Hreach) as (_ & _ & _ & Hab & Href).
  destruct (execute_started Rev2 args now w Hc)
    as (_ & _ & _ & Hrid & _ & _ & _ & Habt & _ & Har & _).
  destruct (cancel_frame Rev2 (execute Rev2 args now w).1)
    as (_ & _ & _ & _ & _ & Hrid2 & Hpoll).
  destruct (cancel_refs Rev2 (execute Rev2 args now w).1)
    as (_ & _ & _ & _ & Hab2 & Har2).
  split_and!.
  - unfold signalAborted. apply bool_decide_eq_false_2. rewrite Habt.
    cbn [started abortController].
    destruct (abortControllerRef (ctrl w)) as [a |] eqn:Hr.
    + intros [Heq%elem_of_singleton | Ha]%elem_of_union.
      * specialize (Href _ eq_refl). lia.
      * apply Hab in Ha. lia.
    + intros Ha%Hab. lia.
  - unfold signalAborted. apply bool_decide_eq_true_2. rewrite Hab2, Har.
    cbn [started abortController]. apply elem_of_union. left.
    by apply elem_of_singleton.
  - done.
  - done.
  - rewrite Hrid2, Hrid. lia.
Qed.

Lemma setStateIfKey_store k (state : TaskState T E) w :
  k ≠ "" →
  store (setStateIfKey (Some k) state w) = (Store.setState k state (store w)).1 ∧
  notified (setStateIfKey (Some k) state w)
  = notified w ++ ((λ l, (l, asyncOfTask state)) <$> Store.subscribers k (store w)).
Proof.
  intros Hne. unfold setStateIfKey, truthyStr.
  apply String.eqb_neq in Hne. rewrite Hne. cbn [negb]. proj.
  by rewrite setState_calls.
Qed.

(** X12.  A successful commit of a keyed invocation is a round trip
    through the cache: the store entry of the key becomes the result with
    its timestamp and the invocation's generation, every subscriber of the
    key is called with its projection, and an [execute] under that key
    made less than [cacheTime] later resolves with that result without
    calling the action. *)
Theorem success_then_cache_hit rev w i inv result now k
    (Hcur : current rev i inv w)
    (Hk : inv_key inv = Some k) (Hne : k ≠ "") :
  let w' := (settle rev i (Fulfilled result) now w).1 in
  Store.getState k (store w') = Some (successTask inv result now) ∧
  notified w'
  = notified w ++ ((λ l, (l, asyncOfTask (successTask inv result now)))
                     <$> Store.subscribers k (store w)) ∧
  ∀ args now' ct,
    keyFor rev args w' = Some k →
    cacheTime (optionsRef (ctrl w')) = Some ct →
    0 < ct → now ≠ 0 → now' - now < ct →
    (execute rev args now' w').2 = Done (Resolved (Some result)) ∧
    actionCalls (execute rev args now' w').1 = actionCalls w.
Proof.
  cbv zeta.
  destruct (settle_success rev i inv result now w Hcur) as (_ & _ & Hac & _).
  destruct Hcur as (Hi & Hgen & Hu & Hs & Hab).
  assert (Hw' : store (settle rev i (Fulfilled result) now w).1
                = (Store.setState k (successTask inv result now) (store w)).1 ∧
                notified (settle rev i (Fulfilled result) now w).1
                = notified w ++ ((λ l, (l, asyncOfTask (successTask inv result now)))
                                   <$> Store.subscribers k (store w))).
  { unfold settle. rewrite Hi.
    unfold performAction, tryBlock. rewrite Hab.
    unfold expired. rewrite Hu.
    replace (_ =? _) with true by lia. cbn [negb orb promiseOf fst].
    fold (@successTask T E A inv result now). rewrite Hk.
    set (w1 := onCtrl (updateLocalState _) w).
    destruct (clearAbortController_frame rev inv
                (setStateIfKey (Some k) (successTask inv result now) w1))
      as (_ & Hst & _ & _ & _ & _ & Hno & _).
    destruct (setStateIfKey_store k (successTask inv result now) w1 Hne)
      as (Hst' & Hno').
    cbn [store notified with_inflight]. rewrite Hst, Hno, Hst', Hno'.
    subst w1. by proj. }
  destruct Hw' as (Hst & Hno).
  assert (Hget : Store.getState k (store (settle rev i (Fulfilled result) now w).1)
                 = Some (successTask inv result now)).
  { rewrite Hst. unfold Store.getState. simpl. apply lookup_insert_eq. }
  split_and!; [done | done |].
  intros args now' ct Hkey Hct Hpos Hnz Hlt.
  assert (Hc : cachedFor (keyFor rev args (settle rev i (Fulfilled result) now w).1)
                 (optionsRef (ctrl (settle rev i (Fulfilled result) now w).1)) now'
                 (settle rev i (Fulfilled result) now w).1
               = Some (successTask inv result now)).
  { apply cachedFor_Some. exists k, ct. split_and!; try done.
    unfold Store.isCacheValid, truthyNum. simpl.
    replace (now =? 0) with false by lia. simpl.
    replace (ct <=? 0) with false by lia. lia. }
  destruct (execute_cached rev args now' _ _ Hc) as (-> & -> & _).
  by rewrite Hac.
Qed.

(** X13.  A terminal failure of a keyed invocation overwrites the store
    entry of the key with an entry that has the error and the timestamp but
    no [data]: whatever result the entry held before is gone from the
    store, and every subscriber of the key is called with that entry's
    projection. *)
Theorem failure_overwrites_entry rev w i inv err now k
    (Hcur : current rev i inv w)
    (Hex : ¬ inv_retryCount inv < default 0 (maxRetries (currentOptions inv)))
    (Hk : inv_key inv = Some k) (Hne : k ≠ "") :
  let w' := (settle rev i (Rejected err) now w).1 in
  Store.getState k (store w') = Some (failureTask inv err now) ∧
  (∀ entry, Store.getState k (store w') = Some entry → ts_data entry = None) ∧
  notified w'
  = notified w ++ ((λ l, (l, {| data := None; loading := false; error := Some err;
                                retryCount := inv_retryCount inv;
                                lastUpdated := Some now |}))
                     <$> Store.subscribers k (store w)).
Proof.
  cbv zeta.
  destruct Hcur as (Hi & Hgen & Hu & Hs & Hab).
  assert (Hw' : store (settle rev i (Rejected err) now w).1
                = (Store.setState k (failureTask inv err now) (store w)).1 ∧
                notified (settle rev i (Rejected err) now w).1
                = notified w ++ ((λ l, (l, asyncOfTask (failureTask inv err now)))
                                   <$> Store.subscribers k (store w))).
  { unfold settle. rewrite Hi.
    unfold performAction, tryBlock, catchBlock. rewrite Hab.
    unfold expired. rewrite Hu.
    replace (_ =? _) with true by lia. cbn [negb orb].
    replace (_ <? _) with false by lia. cbn [fst].
    fold (@failureTask T E A inv err now). rewrite Hk.
    set (w1 := onCtrl (updateLocalState _) w).
    destruct (clearAbortController_frame rev inv
                (setStateIfKey (Some k) (failureTask inv err now) w1))
      as (_ & Hst & _ & _ & _ & _ & Hno & _).
    destruct (setStateIfKey_store k (failureTask inv err now) w1 Hne)
      as (Hst' & Hno').
    cbn [store notified with_inflight]. rewrite Hst, Hno, Hst', Hno'.
    subst w1. by proj. }
  destruct Hw' as (Hst & Hno).
  assert (Hget : Store.getState k (store (settle rev i (Rejected err) now w).1)
                 = Some (failureTask inv err now)).
  { rewrite Hst. unfold Store.getState. simpl. apply lookup_insert_eq. }
  split_and!; [done | | done].
  intros entry. rewrite Hget. by intros [= <-].
Qed.

(** X14.  A rejection with a retry left is handled locally: the action is
    called again with the same arguments under the same generation, the
    local [retryCount] goes up by one while [data], [loading], [error] and
    [lastUpdated] stay, and neither the store nor any listener sees the
    retry. *)
Theorem retry_is_local rev w i inv err now
    (Hcur : current rev i inv w)
    (Hleft : inv_retryCount inv < default 0 (maxRetries (currentOptions inv))) :
  let w' := (settle rev i (Rejected err) now w).1 in
  (settle rev i (Rejected err) now w).2 = Some Awaiting ∧
  store w' = store w ∧
  notified w' = notified w ∧
  actionCalls w' = actionCalls w ++ [inv_args inv] ∧
  inflight w' !! i = Some (retryOf inv) ∧
  requestIdRef (ctrl w') = requestIdRef (ctrl w) ∧
  localState (ctrl w')
  = {| data := data (localState (ctrl w));
       loading := loading (localState (ctrl w));
       error := error (localState (ctrl w));
       retryCount := inv_retryCount inv + 1;
       lastUpdated := lastUpdated (localState (ctrl w)) |}.
Proof.
  cbv zeta. rewrite (settle_retry rev i inv err now w Hcur Hleft).
  destruct Hcur as (Hi & _). proj. split_and!; try done.
  apply list_lookup_insert_eq. by eapply lookup_lt_Some.
Qed.

(** X15.  The request counter never goes down, whatever happens.
    [cancel], [reset] and an [execute] that calls the action raise it by
    exactly one; an [execute] answered from the store, the settling of a
    pending call of the action and the unmount leave it as it is. *)
Theorem counter_monotone rev w evs args now :
  requestIdRef (ctrl w) ≤ requestIdRef (ctrl (run rev w evs)) ∧
  requestIdRef (ctrl (cancel rev w)) = requestIdRef (ctrl w) + 1 ∧
  requestIdRef (ctrl (reset rev w)) = requestIdRef (ctrl w) + 1 ∧
  requestIdRef (ctrl (execute rev args now w).1)
  = match cachedFor (keyFor rev args w) (optionsRef (ctrl w)) now w with
    | Some _ => requestIdRef (ctrl w)
    | None => requestIdRef (ctrl w) + 1
    end ∧
  (∀ i o now', requestIdRef (ctrl (settle rev i o now' w).1) = requestIdRef (ctrl w)) ∧
  requestIdRef (ctrl (unmount rev w)) = requestIdRef (ctrl w).
Proof.
  destruct (keeps_run rev evs w) as (_ & _ & Hr & _).
  destruct (cancel_frame rev w) as (_ & _ & _ & _ & _ & Hc & _).
  destruct (reset_frame rev w) as (_ & _ & Hre & _).
  split_and!; try done.
  - destruct (cachedFor (keyFor rev args w) (optionsRef (ctrl w)) now w)
      as [cs |] eqn:Hcache.
    + by destruct (execute_cached rev args now w cs Hcache) as (_ & _ & _ & -> & _).
    + by destruct (execute_started rev args now w Hcache) as (_ & _ & _ & -> & _).
  - intros i o now'. unfold settle.
    destruct (inflight w !! i) as [inv |]; [| done].
    pose proof (performAction_frame rev i inv o now' w) as Hf. cbv zeta in Hf.
    destruct Hf as (Hf & _).
    by destruct (performAction rev i inv o now' w) as [w1 [s |]].
  - unfold unmount. cbv zeta.
    set (w1 := match subscriptionKey rev (ctrl w) with Some k => _ | None => w end).
    assert (H1 : requestIdRef (ctrl w1) = requestIdRef (ctrl w)).
    { subst w1. by destruct (subscriptionKey rev (ctrl w)). }
    rewrite <- H1. clearbody w1.
    set (w2 := match pollingTimerRef (ctrl w1) with Some _ => _ | None => w1 end).
    assert (H2 : requestIdRef (ctrl w2) = requestIdRef (ctrl w1)).
    { subst w2. by destruct (pollingTimerRef (ctrl w1)). }
    rewrite <- H2. clearbody w2.
    destruct rev; [done |].
    by destruct (abortCurrent_frame (onCtrl (with_unmountedRef true) w2))
      as (-> & _).
Qed.

Lemma execute_started_store rev args now w k :
  cachedFor (keyFor rev args w) (optionsRef (ctrl w)) now w = None →
  keyFor rev args w = Some k → k ≠ "" →
  let task := loadingTask (Store.getState k (store w)) (requestIdRef (ctrl w) + 1) in
  store (execute rev args now w).1 = (Store.setState k task (store w)).1 ∧
  notified (execute rev args now w).1
  = notified w ++ ((λ l, (l, asyncOfTask task)) <$> Store.subscribers k (store w)).
Proof.
  intros Hc Hk Hne. cbv zeta. unfold execute.
  set (w0 := onCtrl (with_lastArgsRef (Some args)) w).
  assert (Hkey : match rev with
                 | Rev1 => resolveTaskKey (taskKey (optionsRef (ctrl w))) args
                 | Rev2 => resolvedTaskKey (ctrl w0)
                 end = Some k).
  { rewrite <- Hk. by destruct rev. }
  rewrite Hkey. rewrite Hk in Hc.
  set (w1 := match rev with
             | Rev1 => onCtrl (with_currentTaskKeyRef (Some k)) w0
             | Rev2 => w0
             end).
  assert (H1 : store w1 = store w ∧ notified w1 = notified w ∧
               requestIdRef (ctrl w1) = requestIdRef (ctrl w)).
  { subst w1 w0. by destruct rev. }
  destruct H1 as (Hs1 & Hn1 & Hr1).
  rewrite (cachedFor_store (Some k) (optionsRef (ctrl w)) now w w1 Hs1), Hc.
  clearbody w1. clear Hkey w0.
  set (w2 := match rev with
             | Rev1 => w1
             | Rev2 => newAbortController (abortCurrent w1)
             end).
  assert (H2 : store w2 = store w ∧ notified w2 = notified w ∧
               requestIdRef (ctrl w2) = requestIdRef (ctrl w)).
  { subst w2. destruct rev; [done |].
    destruct (abortCurrent_frame w1) as (Hc0 & Hs0 & _ & _ & Hn0 & _).
    unfold newAbortController. proj. rewrite Hc0, Hs0, Hn0. done. }
  destruct H2 as (Hs2 & Hn2 & Hr2). clearbody w2.
  rewrite Hr2.
  set (w4 := onCtrl (updateLocalState _) _).
  assert (H4 : store w4 = store w ∧ notified w4 = notified w).
  { subst w4. by proj. }
  destruct H4 as (Hs4 & Hn4). clearbody w4.
  unfold callAction. cbn [fst store notified with_inflight with_actionCalls].
  destruct (setStateIfKey_store k
              (loadingTask (Store.getState k (store w4)) (requestIdRef (ctrl w) + 1))
              w4 Hne) as (-> & ->).
  by rewrite Hs4, Hn4.
Qed.

(** X16.  An [execute] that calls the action marks the store entry of its
    key as loading under the new generation and keeps everything else of
    the entry: its [data], [error], [retryCount] and [lastUpdated] (those
    of the initial state when there was no entry).  Every subscriber of the
    key is called with the projection, no other entry changes, and the
    entry is valid for the cache exactly when it was before. *)
Theorem execute_marks_loading rev w args now k
    (Hc : cachedFor (keyFor rev args w) (optionsRef (ctrl w)) now w = None)
    (Hk : keyFor rev args w = Some k) (Hne : k ≠ "") :
  let w1 := (execute rev args now w).1 in
  let before := default (Store.createInitialState 0) (Store.getState k (store w)) in
  ∃ entry,
    Store.getState k (store w1) = Some entry ∧
    ts_loading entry = true ∧
    requestId entry = requestIdRef (ctrl w) + 1 ∧
    ts_data entry = ts_data before ∧
    ts_error entry = ts_error before ∧
    ts_retryCount entry = ts_retryCount before ∧
    ts_lastUpdated entry = ts_lastUpdated before ∧
    (∀ key', key' ≠ k →
             Store.getState key' (store w1) = Store.getState key' (store w)) ∧
    notified w1
    = notified w ++ ((λ l, (l, asyncOfTask entry)) <$> Store.subscribers k (store w)) ∧
    (∀ t ct, Store.isCacheValid t (Some entry) ct
             = Store.isCacheValid t (Store.getState k (store w)) ct).
Proof.
  cbv zeta.
  destruct (execute_started_store rev args now w k Hc Hk Hne) as (Hst & Hno).
  exists (loadingTask (Store.getState k (store w)) (requestIdRef (ctrl w) + 1)).
  rewrite Hst, Hno. split_and!; try done.
  - unfold Store.getState. simpl. apply lookup_insert_eq.
  - intros key' Hkey'. unfold Store.getState. simpl. by apply lookup_insert_ne.
  - intros t ct. by destruct (Store.getState k (store w)).
Qed.

Lemma performAction_awaiting rev i inv o now w :
  (performAction rev i inv o now w).2 = Awaiting →
  inv_retryCount inv < default 0 (maxRetries (currentOptions inv)).
Proof.
  unfold performAction, tryBlock, catchBlock. destruct o as [result | err].
  - by destruct (expired inv w || signalAborted rev inv w).
  - destruct (signalAborted rev inv w); [done |].
    destruct (expired inv w); [done |].
    destruct (_ <? _) eqn:Hlt; [lia | done].
Qed.

Lemma mount_inflight rev (opts : Options A) (s : Store.t T E Listener) :
  inflight (mount rev opts s) = [].
Proof.
  unfold mount, subscribeEffect. cbn [ctrl].
  destruct (subscriptionKey rev _) as [k |]; [| done].
  destruct rev; [done |]. unfold pullExisting. cbn [store].
  by destruct (Store.getState k s).
Qed.

Lemma retry_bound_step rev w ev :
  (∀ i inv, inflight w !! i = Some inv →
            0 ≤ inv_retryCount inv ∧
            (inv_retryCount inv = 0 ∨
             inv_retryCount inv ≤ default 0 (maxRetries (currentOptions inv)))) →
  ∀ i inv, inflight (step rev w ev) !! i = Some inv →
           0 ≤ inv_retryCount inv ∧
           (inv_retryCount inv = 0 ∨
            inv_retryCount inv ≤ default 0 (maxRetries (currentOptions inv))).
Proof.
  intros HQ.
  destruct ev as [args now | j o now | | | | timer | key st | key | key n | key n];
    cbn [step]; try exact HQ.
  - destruct (cachedFor (keyFor rev args w) (optionsRef (ctrl w)) now w)
      as [cs |] eqn:Hc.
    + destruct (execute_cached rev args now w cs Hc) as (_ & _ & -> & _). exact HQ.
    + destruct (execute_started rev args now w Hc) as (_ & -> & _).
      intros i inv [Hi | [_ Hi]]%lookup_app_Some; [by eapply HQ |].
      apply list_lookup_singleton_Some in Hi as [_ <-]. simpl. split; [lia | by left].
  - unfold settle. destruct (inflight w !! j) as [inv0 |] eqn:Hj; [| exact HQ].
    pose proof (performAction_frame rev j inv0 o now w) as Hf. cbv zeta in Hf.
    pose proof (performAction_awaiting rev j inv0 o now w) as Haw.
    destruct (performAction rev j inv0 o now w) as [w1 [[v | e] |]];
      cbn [fst snd] in *.
    + destruct Hf as (_ & _ & _ & _ & _ & _ & _ & Hin & _).
      cbn [inflight with_inflight]. rewrite Hin. intros i inv Hi.
      destruct (decide (i < j)%nat).
      * rewrite list_lookup_delete_lt in Hi by done. by eapply HQ.
      * rewrite list_lookup_delete_ge in Hi by lia. by eapply HQ.
    + by destruct Hf as (_ & _ & _ & _ & _ & _ & _ & ?).
    + destruct Hf as (_ & _ & _ & _ & _ & _ & _ & Hin & _). rewrite Hin.
      specialize (Haw eq_refl). destruct (HQ j inv0 Hj) as [H0 _].
      intros i inv Hi. destruct (decide (j = i)) as [<- | Hne].
      * rewrite list_lookup_insert_eq in Hi by by eapply lookup_lt_Some.
        injection Hi as <-. simpl. split; [lia | right; lia].
      * rewrite list_lookup_insert_ne in Hi by done. by eapply HQ.
  - destruct (cancel_frame rev w) as (_ & _ & -> & _). exact HQ.
  - destruct (reset_frame rev w) as (-> & _). exact HQ.
  - destruct (unmount_frame rev w) as (_ & _ & -> & _). exact HQ.
Qed.

Lemma rejections_idle rev i (errs : list (E * Z)) w :
  inflight w !! i = None → run rev w (rejections i errs) = w.
Proof.
  intros Hi. unfold run, rejections.
  induction errs as [| [err now] errs IH]; [done |].
  rewrite fmap_cons. cbn [foldl step fst snd].
  unfold settle. rewrite Hi. cbn [fst]. exact IH.
Qed.

(** The calls of the action made while the call at position [i], the last
    pending one, rejects again and again. *)
Lemma rejections_calls rev i (errs : list (E * Z)) :
  ∀ inv w,
    current rev i inv w →
    length (inflight w) = S i →
    length (actionCalls (run rev w (rejections i errs)))
    = (length (actionCalls w)
       + Nat.min (length errs)
           (Z.to_nat (default 0 (maxRetries (currentOptions inv))
                      - inv_retryCount inv)%Z))%nat.
Proof.
  induction errs as [| [err now] errs IH]; intros inv w Hcur Hlen.
  - simpl. lia.
  - unfold rejections. rewrite fmap_cons. unfold run. cbn [foldl step fst snd].
    fold (run rev (settle rev i (Rejected err) now w).1
            ((λ en : E * Z, Settle i (Rejected en.1) en.2) <$> errs)).
    fold (@rejections T E A i errs).
    destruct (decide (inv_retryCount inv
                      < default 0 (maxRetries (currentOptions inv)))) as [Hlt | Hge].
    + pose proof (settle_retry_current rev i inv err now w Hcur Hlt) as Hcur1.
      pose proof (settle_retry rev i inv err now w Hcur Hlt) as Hw1.
      set (w1 := (settle rev i (Rejected err) now w).1) in *.
      assert (Hac1 : actionCalls w1 = actionCalls w ++ [inv_args inv])
        by (subst w1; by rewrite Hw1).
      assert (Hin1 : inflight w1 = <[i := retryOf inv]> (inflight w))
        by (subst w1; by rewrite Hw1).
      rewrite (IH (retryOf inv) w1 Hcur1)
        by by rewrite Hin1, length_insert.
      rewrite Hac1, length_app. cbn [length retryOf currentOptions inv_retryCount].
      lia.
    + destruct (settle_failure rev i inv err now w Hcur Hge)
        as (_ & _ & Hac1 & Hin1 & _).
      rewrite rejections_idle.
      * rewrite Hac1. cbn [length]. lia.
      * rewrite Hin1. apply lookup_ge_None. rewrite length_delete.
        -- lia.
        -- destruct Hcur as (Hi & _). by rewrite Hi.
Qed.

(** X17.  The retry count of a pending invocation is never negative and
    never above [maxRetries], read as [0] when it is absent or negative.
    An [execute] that calls the action, followed by [n] rejections of that
    call and nothing else, has called the action [1 + min n maxRetries]
    times, with the same reading of [maxRetries]: however often the action
    rejects, one [execute] calls it at most [maxRetries + 1] times, and
    once when [maxRetries] is absent, zero or negative. *)
Theorem retry_count_bounded rev w (Hreach : reachable rev w) :
  (∀ i inv, inflight w !! i = Some inv →
            0 ≤ inv_retryCount inv
            ≤ Z.max 0 (default 0 (maxRetries (currentOptions inv)))) ∧
  (∀ args now (errs : list (E * Z)),
     unmountedRef (ctrl w) = false →
     cachedFor (keyFor rev args w) (optionsRef (ctrl w)) now w = None →
     let w' := run rev w (Execute args now :: rejections (length (inflight w)) errs) in
     length (actionCalls w')
     = (length (actionCalls w) + 1
        + Nat.min (length errs)
            (Z.to_nat (Z.max 0 (default 0 (maxRetries (optionsRef (ctrl w)))))%Z))%nat ∧
     (length (actionCalls w')
      ≤ length (actionCalls w) + 1
        + Z.to_nat (Z.max 0 (default 0 (maxRetries (optionsRef (ctrl w)))))%Z)%nat).
Proof.
  split.
  - destruct Hreach as (opts & s & evs & ->).
    assert (Hgen : ∀ w0 : World T E A,
              (∀ i inv, inflight w0 !! i = Some inv →
                 0 ≤ inv_retryCount inv ∧
                 (inv_retryCount inv = 0 ∨
                  inv_retryCount inv ≤ default 0 (maxRetries (currentOptions inv)))) →
              ∀ i inv, inflight (run rev w0 evs) !! i = Some inv →
                 0 ≤ inv_retryCount inv ∧
                 (inv_retryCount inv = 0 ∨
                  inv_retryCount inv ≤ default 0 (maxRetries (currentOptions inv)))).
    { unfold run. induction evs as [| ev evs IH]; intros w0 HQ; cbn [foldl]; [done |].
      apply IH. by apply retry_bound_step. }
    intros i inv Hi.
    assert (HQ : 0 ≤ inv_retryCount inv ∧
                 (inv_retryCount inv = 0 ∨
                  inv_retryCount inv ≤ default 0 (maxRetries (currentOptions inv)))).
    { apply (Hgen (mount rev opts s)) with i; [| done].
      intros j inv'. by rewrite mount_inflight. }
    lia.
  - intros args now errs Hu Hc. cbv zeta.
    pose proof (reachable_wf rev w Hreach) as Hwf.
    pose proof (execute_started_current rev args now w Hwf Hu Hc) as Hcur.
    destruct (execute_started rev args now w Hc) as (_ & Hin & Hac & _).
    assert (Hcount :
      length (actionCalls (run rev w (Execute args now
                                        :: rejections (length (inflight w)) errs)))
      = (length (actionCalls w) + 1
         + Nat.min (length errs)
             (Z.to_nat (Z.max 0 (default 0 (maxRetries (optionsRef (ctrl w)))))%Z))%nat).
    { unfold run. cbn [foldl step].
      fold (run rev (execute rev args now w).1 (rejections (length (inflight w)) errs)).
      rewrite (rejections_calls rev _ errs _ _ Hcur)
        by (rewrite Hin, length_app; simpl; lia).
      rewrite Hac, length_app. cbn [length started currentOptions inv_retryCount].
      lia. }
    split; [exact Hcount |]. rewrite Hcount. lia.
Qed.

(** *** Mounting and unmounting *)

Lemma mount_store rev (opts : Options A) (s : Store.t T E Listener) :
  store (mount rev opts s)
  = match subscriptionKey rev (initialController rev opts : Controller T E A) with
    | Some k => Store.subscribe k SyncState s
    | None => s
    end ∧
  subscriptionKey rev (ctrl (mount rev opts s))
  = subscriptionKey rev (initialController rev opts : Controller T E A) ∧
  unmountedRef (ctrl (mount rev opts s)) = false ∧
  requestIdRef (ctrl (mount rev opts s)) = 0.
Proof.
  unfold mount, subscribeEffect. cbn [ctrl].
  destruct (subscriptionKey rev (initialController rev opts : Controller T E A))
    as [k |] eqn:Hk.
  - destruct rev; [by rewrite <- Hk |].
    unfold pullExisting. cbn [store].
    destruct (Store.getState k s); proj; by rewrite <- Hk.
  - by rewrite <- Hk.
Qed.

Lemma unmount_store rev w :
  store (unmount rev w)
  = match subscriptionKey rev (ctrl w) with
    | Some k => Store.unsubscribe k SyncState (store w)
    | None => store w
    end.
Proof.
  unfold unmount.
  set (w1 := match subscriptionKey rev (ctrl w) with
             | Some k => with_store (Store.unsubscribe k SyncState (store w)) w
             | None => w
             end).
  assert (H1 : store w1 = match subscriptionKey rev (ctrl w) with
                          | Some k => Store.unsubscribe k SyncState (store w)
                          | None => store w
                          end).
  { subst w1. by destruct (subscriptionKey rev (ctrl w)). }
  rewrite <- H1. clearbody w1.
  set (w2 := match pollingTimerRef (ctrl w1) with
             | Some _ => _
             | None => w1
             end).
  assert (H2 : store w2 = store w1).
  { subst w2. by destruct (pollingTimerRef (ctrl w1)). }
  rewrite <- H2. clearbody w2.
  destruct rev; [done |].
  by destruct (abortCurrent_frame (onCtrl (with_unmountedRef true) w2))
    as (_ & -> & _).
Qed.

(** X18.  Mounting and then unmounting a controller leaves the store as
    it found it: the entries are untouched and the listener map is the one
    from before, the set created for the controller's key included, when
    the controller's [syncState] was not registered there before. *)
Theorem mount_unmount_restores_store rev (opts : Options A)
    (s : Store.t T E Listener)
    (Hfresh : ∀ k, subscriptionKey rev
                     (initialController rev opts : Controller T E A) = Some k →
                   (SyncState ∉ Store.subscribers k s) ∧
                   Store.listeners s !! k ≠ Some []) :
  store (unmount rev (mount rev opts s)) = s.
Proof.
  destruct (mount_store rev opts s) as (Hst & Hk & _).
  rewrite unmount_store, Hk, Hst.
  destruct (subscriptionKey rev (initialController rev opts : Controller T E A))
    as [k |] eqn:Hkey; [| done].
  destruct (Hfresh k eq_refl) as [Hnot Hne].
  by apply unsubscribe_subscribe_id.
Qed.

(** X19.  The second revision, when it mounts with a key that resolves to
    a non-empty string: [syncState] is subscribed under that very key, the
    entries of the store are untouched, the local state is the projection
    of the entry the store holds for the key, and the initial state when
    it holds none. *)
Theorem rev2_mount_pulls_entry (opts : Options A) (s : Store.t T E Listener) k
    (Hk : resolveTaskKey (taskKey opts) [] = Some k) (Hne : k ≠ "") :
  let w := mount Rev2 opts s in
  resolvedTaskKey (ctrl w) = Some k ∧
  SyncState ∈ Store.subscribers k (store w) ∧
  (∀ k', k' ≠ k → Store.subscribers k' (store w) = Store.subscribers k' s) ∧
  Store.globalStore (store w) = Store.globalStore s ∧
  localState (ctrl w)
  = match Store.getState k s with
    | Some existing => asyncOfTask existing
    | None => asyncOfTask (Store.createInitialState 0)
    end.
Proof.
  cbv zeta.
  destruct (rev2_mount_subscribes opts s k Hk Hne) as (Hin & Hgs & Hpull).
  destruct (mount_store Rev2 opts s) as (Hst & _).
  assert (Hsk : subscriptionKey Rev2
                  (initialController Rev2 opts : Controller T E A) = Some k).
  { unfold subscriptionKey. cbn [initialController resolvedTaskKey]. rewrite Hk.
    unfold truthyStr. apply String.eqb_neq in Hne. by rewrite Hne. }
  rewrite Hsk in Hst.
  split_and!; try done.
  - unfold mount, subscribeEffect. cbn [ctrl]. rewrite Hsk.
    unfold pullExisting. cbn [store]. by destruct (Store.getState k s).
  - intros k' Hk'. rewrite Hst. by apply subscribers_subscribe_ne.
  - destruct (Store.getState k s) as [existing |] eqn:Hget; [by apply Hpull |].
    unfold mount, subscribeEffect. cbn [ctrl]. rewrite Hsk.
    unfold pullExisting. cbn [store]. by rewrite Hget.
Qed.
End HookSteps.

(* ===================================================================== *)
(** ** The store: instances *)
(* ===================================================================== *)

(** C4, the claim as stated fails at the timestamp [0]: the state has a
    [lastUpdated], [cacheTime] is positive and [now - lastUpdated] is
    below [cacheTime], yet the answer is [false]; and a state whose
    [lastUpdated] is [now - cacheTime + 1 = 0] is not valid. *)
Lemma isCacheValid_zero_timestamp :
  ts_lastUpdated (Sample.entryAt 0) = Some 0 ∧
  0 < 10 ∧ 5 - 0 < 10 ∧
  Store.isCacheValid 5 (Some (Sample.entryAt 0)) 10 = false ∧
  1000 - 1001 + 1 = 0 ∧
  Store.isCacheValid 1000 (Some (Sample.entryAt 0)) 1001 = false.
Proof. split_and!; try reflexivity; lia. Qed.

Lemma isCacheValid_spec_witness :
  Store.isCacheValid 1000 (Some (Sample.entryAt 1)) 1000 = true ∧
  Store.isCacheValid 1000 (Some (Sample.entryAt 0)) 1000 = false.
Proof.
  pose proof (isCacheValid_spec 1000 (Some (Sample.entryAt 1)) 1000) as (_ & _ & Hv).
  pose proof (isCacheValid_spec 1000 (Some (Sample.entryAt 0)) 1000) as (_ & Hs & _).
  split.
  - apply (Hv (Sample.entryAt 1)); [reflexivity | reflexivity | lia | lia].
  - apply (Hs (Sample.entryAt 0)); reflexivity.
Defined.

Lemma setState_notifies_witness :
  Store.wf Sample.twoListeners ∧
  (Store.setState "k" (Sample.entryAt 7) Sample.twoListeners).2
  = [(1%nat, {| data := Some "v"; loading := false; error := None;
                retryCount := 0; lastUpdated := Some 7 |});
     (2%nat, {| data := Some "v"; loading := false; error := None;
                retryCount := 0; lastUpdated := Some 7 |})].
Proof.
  assert (Hwf : Store.wf Sample.twoListeners).
  { apply (bool_decide_unpack _). vm_compute. exact I. }
  split; [exact Hwf |].
  pose proof (setState_notifies "k" (Sample.entryAt 7) Sample.twoListeners Hwf)
    as (_ & _ & _ & Hcalls & _).
  rewrite Hcalls. reflexivity.
Defined.

Lemma subscribe_twice_witness :
  Store.wf Sample.twoListeners ∧
  Store.subscribe "k" 1%nat (Store.subscribe "k" 1%nat Sample.twoListeners)
  = Store.subscribe "k" 1%nat Sample.twoListeners.
Proof.
  assert (Hwf : Store.wf Sample.twoListeners).
  { apply (bool_decide_unpack _). vm_compute. exact I. }
  split; [exact Hwf |].
  exact (proj1 (subscribe_twice "k" 1%nat Sample.twoListeners Hwf)).
Defined.

(* ===================================================================== *)
(** ** The controller: instances *)
(* ===================================================================== *)

Section HookInstances.
Import Hook.

Lemma race_control_witness :
  reachable Rev2 Sample.twoPending ∧
  settle Rev2 0 (Fulfilled "late") 102 Sample.twoPending
  = (with_inflight (delete 0%nat (inflight Sample.twoPending)) Sample.twoPending,
     Some (Done (Resolved None))).
Proof.
  assert (Hreach : reachable Rev2 Sample.twoPending).
  { exists Sample.unkeyed, Sample.emptyStore,
      [Execute [1%nat] 100; Execute [2%nat] 101]. reflexivity. }
  split; [exact Hreach |].
  eapply (proj1 (proj2 (race_control Rev2 Sample.twoPending Hreach))).
  - reflexivity.
  - vm_compute. discriminate.
Defined.

(** The race of the specification's test: [execute] A, then [execute] B;
    B resolves first and is committed, A resolves later and is dropped. *)
Lemma race_late_result_dropped :
  let w := run Rev2 Sample.twoPending
             [Settle 1 (Fulfilled "B") 102; Settle 0 (Fulfilled "A") 103] in
  data (localState (ctrl w)) = Some "B" ∧
  lastUpdated (localState (ctrl w)) = Some 102 ∧
  inflight w = [].
Proof. cbv zeta. split_and!; reflexivity. Qed.

(** C2, the claim as stated fails: [execute], then [cancel()], then the
    action resolves with ["v"]; [loading] is [true], not [false]. *)
Lemma cancel_leaves_loading :
  Sample.cancelled
  = run Rev2 (mount Rev2 Sample.unkeyed Sample.emptyStore)
      [Execute [1%nat] 100; Cancel; Settle 0 (Fulfilled "v") 200] ∧
  loading (localState (ctrl Sample.cancelled)) = true ∧
  loading (localState (ctrl Sample.cancelled)) ≠ false ∧
  data (localState (ctrl Sample.cancelled)) = None.
Proof. split_and!; [reflexivity | reflexivity | discriminate | reflexivity]. Qed.

Lemma cancel_suppresses_commit_witness :
  let w := mount Rev2 Sample.unkeyed Sample.emptyStore in
  let w2 := cancel Rev2 (execute Rev2 [1%nat] 100 w).1 in
  reachable Rev2 w ∧
  loading (localState (ctrl w2)) = true ∧
  settle Rev2 0 (Fulfilled "v") 200 w2
  = (with_inflight (delete 0%nat (inflight w2)) w2, Some (Done (Resolved None))).
Proof.
  cbv zeta.
  assert (Hreach : reachable Rev2 (mount Rev2 Sample.unkeyed Sample.emptyStore)).
  { exists Sample.unkeyed, Sample.emptyStore, []. reflexivity. }
  split; [exact Hreach |].
  pose proof (cancel_suppresses_commit Rev2
                (mount Rev2 Sample.unkeyed Sample.emptyStore) [1%nat] 100
                Hreach eq_refl eq_refl) as (Hi & _ & _ & Hl & Hsettle).
  split; [exact Hl |].
  exact (Hsettle 0%nat _ (Fulfilled "v") 200 Hi).
Defined.

Lemma retry_exhaustion_witness :
  let w := mount Rev2 Sample.threeRetries Sample.emptyStore in
  let w' := run Rev2 w
              (Execute [1%nat] 100
                 :: rejections 0 [("e1", 101); ("e2", 102); ("e3", 103); ("e4", 104)]) in
  reachable Rev2 w ∧
  actionCalls w' = [[1%nat]; [1%nat]; [1%nat]; [1%nat]] ∧
  retryCount (localState (ctrl w')) = 3 ∧
  error (localState (ctrl w')) = Some "e4".
Proof.
  cbv zeta.
  assert (Hreach : reachable Rev2 (mount Rev2 Sample.threeRetries Sample.emptyStore)).
  { exists Sample.threeRetries, Sample.emptyStore, []. reflexivity. }
  split; [exact Hreach |].
  pose proof (retry_exhaustion Rev2
                (mount Rev2 Sample.threeRetries Sample.emptyStore) [1%nat] 100
                "e1" 101 "e2" 102 "e3" 103 "e4" 104
                Hreach eq_refl eq_refl eq_refl eq_refl)
    as (Hac & _ & Hrc & Herr & _).
  split_and!; [exact Hac | exact Hrc | exact Herr].
Defined.

Lemma execute_never_rejects_witness :
  (settle Rev2 0 (Fulfilled "v") 101 Sample.onePending).2
  = Some (Done (Resolved (Some "v"))) ∧
  (settle Rev2 0 (Rejected "boom") 101 Sample.onePending).2
  = Some (Done (Resolved None)) ∧
  error (localState (ctrl (settle Rev2 0 (Rejected "boom") 101 Sample.onePending).1))
  = Some "boom" ∧
  loading (localState (ctrl (settle Rev2 0 (Rejected "boom") 101 Sample.onePending).1))
  = false.
Proof.
  pose proof (execute_never_rejects Rev2 Sample.onePending)
    as (_ & _ & _ & Hok & _ & _ & Hfail & _).
  assert (Hcur : current Rev2 0 (started Rev2 [1%nat]
                                  (mount Rev2 Sample.unkeyed Sample.emptyStore))
                   Sample.onePending).
  { unfold current. split_and!; reflexivity. }
  assert (Hlast : ¬ inv_retryCount (started Rev2 [1%nat]
                                      (mount Rev2 Sample.unkeyed Sample.emptyStore))
                    < default 0 (maxRetries (currentOptions
                        (started Rev2 [1%nat]
                           (mount Rev2 Sample.unkeyed Sample.emptyStore))))).
  { vm_compute. discriminate. }
  destruct (Hfail 0%nat _ "boom" 101 Hcur Hlast) as (Hres & Herr & Hload & _).
  split_and!.
  - exact (Hok 0%nat _ "v" 101 Hcur).
  - exact Hres.
  - exact Herr.
  - exact Hload.
Defined.

(** C6, the claim as stated fails: after a success and then a failure of
    an unkeyed controller, the terminal state has both [data] and
    [error]. *)
Lemma data_and_error_both_set :
  Sample.successThenFailure
  = run Rev2 (mount Rev2 Sample.unkeyed Sample.emptyStore)
      [Execute [1%nat] 100; Settle 0 (Fulfilled "v") 101;
       Execute [1%nat] 200; Settle 0 (Rejected "boom") 201] ∧
  data (localState (ctrl Sample.successThenFailure)) = Some "v" ∧
  error (localState (ctrl Sample.successThenFailure)) = Some "boom" ∧
  loading (localState (ctrl Sample.successThenFailure)) = false.
Proof. split_and!; reflexivity. Qed.

Lemma commit_data_error_witness :
  data (localState (ctrl (settle Rev2 0 (Fulfilled "w") 201 Scenario.refreshing).1))
  = Some "w" ∧
  error (localState (ctrl (settle Rev2 0 (Fulfilled "w") 201 Scenario.refreshing).1))
  = None ∧
  data (localState (ctrl Scenario.refreshing)) = Some "v" ∧
  data (localState (ctrl (settle Rev2 0 (Rejected "boom") 201 Scenario.refreshing).1))
  = Some "v" ∧
  error (localState (ctrl (settle Rev2 0 (Rejected "boom") 201 Scenario.refreshing).1))
  = Some "boom" ∧
  loading (localState (ctrl (settle Rev2 0 (Rejected "boom") 201 Scenario.refreshing).1))
  = false.
Proof.
  assert (Hcur : current Rev2 0
                   {| inv_args := [1%nat]; inv_key := None; currentRequestId := 2;
                      abortController := 1; currentOptions := Sample.unkeyed;
                      inv_retryCount := 0 |}
                   Scenario.refreshing).
  { unfold current. split_and!; reflexivity. }
  pose proof (commit_data_error Rev2 Scenario.refreshing 0 _ 201 Hcur)
    as (Hok & Hfail).
  destruct (Hok "w") as (Hd & He & _).
  assert (Hlast : ¬ (0 < default 0 (maxRetries Sample.unkeyed))).
  { vm_compute. discriminate. }
  destruct (Hfail "boom" Hlast) as (Herr & Hload & _ & Hkeep & _).
  split_and!.
  - exact Hd.
  - exact He.
  - reflexivity.
  - rewrite (Hkeep eq_refl). reflexivity.
  - exact Herr.
  - exact Hload.
Defined.

(** C7: the first revision at the key function [(id) => "user-1"], over a
    store that holds an entry for ["user-1"].  The key resolves to
    ["user-1"], but [syncState] is registered under ["__dynamic__"], no
    listener is registered under ["user-1"], and the local state is the
    initial state, not the entry. *)
Theorem rev1_placeholder_subscription :
  let w := mount Rev1 Sample.derivedKey Sample.userStore in
  keyFor Rev1 [1%nat] w = Some "user-1" ∧
  Store.getState "user-1" (store w) = Some (Sample.entryAt 50) ∧
  Store.subscribers "user-1" (store w) = [] ∧
  Store.subscribers "__dynamic__" (store w) = [SyncState] ∧
  localState (ctrl w) = asyncOfTask (Store.createInitialState 0) ∧
  localState (ctrl w) ≠ asyncOfTask (Sample.entryAt 50) ∧
  Store.subscribers "user-1" (store (execute Rev1 [1%nat] 100 w).1) = [].
Proof. cbv zeta. split_and!; try reflexivity. discriminate. Qed.

(** The second revision at the same input: the subscription is under
    ["user-1"] and the entry is the local state. *)
Lemma rev2_resolved_subscription :
  let w := mount Rev2 Sample.derivedKey Sample.userStore in
  Store.subscribers "user-1" (store w) = [SyncState] ∧
  Store.subscribers "__dynamic__" (store w) = [] ∧
  localState (ctrl w) = asyncOfTask (Sample.entryAt 50).
Proof. cbv zeta. split_and!; reflexivity. Qed.

(** C8, the claim as stated fails: the store entry written by a failure at
    time 101 answers the [execute] call made at time 200; the action is
    not called again and the promise resolves with nothing. *)
Lemma failure_entry_short_circuits :
  Store.getState "K" (store Sample.failedEntry)
  = Some {| ts_data := None; ts_loading := false; ts_error := Some "boom";
            ts_retryCount := 0; ts_lastUpdated := Some 101; requestId := 1 |} ∧
  actionCalls Sample.failedEntry = [[1%nat]] ∧
  (execute Rev2 [1%nat] 200 Sample.failedEntry).2 = Done (Resolved None) ∧
  actionCalls (execute Rev2 [1%nat] 200 Sample.failedEntry).1 = [[1%nat]] ∧
  error (localState (ctrl (execute Rev2 [1%nat] 200 Sample.failedEntry).1))
  = Some "boom".
Proof. split_and!; reflexivity. Qed.

Lemma cache_short_circuit_witness :
  (execute Rev2 [1%nat] 200 Sample.failedEntry).2 = Done (Resolved None) ∧
  requestIdRef (ctrl (execute Rev2 [1%nat] 200 Sample.failedEntry).1)
  = requestIdRef (ctrl Sample.failedEntry).
Proof.
  pose proof (cache_short_circuit Rev2 Sample.failedEntry [1%nat] 200) as (_ & Hhit).
  cbv zeta in Hhit.
  destruct (Hhit "K"%string 1000
              {| ts_data := None; ts_loading := false; ts_error := Some "boom";
                 ts_retryCount := 0; ts_lastUpdated := Some 101; requestId := 1 |})
    as (Hres & _ & _ & Hrid & _).
  - reflexivity.
  - discriminate.
  - reflexivity.
  - lia.
  - reflexivity.
  - reflexivity.
  - split; [exact Hres | exact Hrid].
Defined.
End HookInstances.

(* ===================================================================== *)
(** ** Further instances *)
(* ===================================================================== *)

Section MoreInstances.
Import Hook.

Lemma updateState_merges_witness :
  Store.wf Scenario.withEntry ∧
  Store.getState "k" (Store.updateState "k" Scenario.loadingOnly Scenario.withEntry).1
  = Some {| ts_data := Some "v"; ts_loading := true; ts_error := None;
            ts_retryCount := 0; ts_lastUpdated := Some 7; requestId := 1 |} ∧
  (Store.updateState "k" Scenario.loadingOnly Scenario.withEntry).2
  = [(1%nat, {| data := Some "v"; loading := true; error := None;
                retryCount := 0; lastUpdated := Some 7 |});
     (2%nat, {| data := Some "v"; loading := true; error := None;
                retryCount := 0; lastUpdated := Some 7 |})] ∧
  Store.updateState "missing" Scenario.loadingOnly Scenario.withEntry
  = (Scenario.withEntry, []).
Proof.
  assert (Hwf : Store.wf Scenario.withEntry).
  { apply (bool_decide_unpack _). vm_compute. exact I. }
  split; [exact Hwf |].
  pose proof (updateState_merges "k" Scenario.loadingOnly Scenario.withEntry Hwf)
    as (_ & Hsome).
  pose proof (updateState_merges "missing" Scenario.loadingOnly Scenario.withEntry Hwf)
    as (Hnone & _).
  destruct (Hsome (Sample.entryAt 7) eq_refl)
    as ([d l e r u q] & Hget & Hd & Hl & He & Hr & Hu & Hq & _ & _ & Hcalls & _).
  simpl in Hd, Hl, He, Hr, Hu, Hq. subst d l e r u q.
  split_and!.
  - exact Hget.
  - rewrite Hcalls. reflexivity.
  - exact (Hnone eq_refl).
Defined.

Lemma deleteState_notifies_reset_witness :
  Store.wf Scenario.withEntry ∧
  Store.getState "k" (Store.deleteState "k" Scenario.withEntry).1 = None ∧
  Store.timesInvoked 1%nat (Store.deleteState "k" Scenario.withEntry).2 = 1%nat.
Proof.
  assert (Hwf : Store.wf Scenario.withEntry).
  { apply (bool_decide_unpack _). vm_compute. exact I. }
  split; [exact Hwf |].
  pose proof (deleteState_notifies_reset "k" Scenario.withEntry Hwf)
    as (Hget & _ & _ & _ & Htimes).
  split; [exact Hget |]. exact (Htimes 1%nat).
Defined.

Lemma subscribe_unsubscribe_restores_witness :
  Store.unsubscribe "k" 3%nat (Store.subscribe "k" 3%nat Sample.twoListeners)
  = Sample.twoListeners ∧
  Store.unsubscribe "fresh" 3%nat (Store.subscribe "fresh" 3%nat Sample.twoListeners)
  = Sample.twoListeners.
Proof.
  split.
  - apply subscribe_unsubscribe_restores.
    + vm_compute. intros Hin. by repeat apply elem_of_cons in Hin as [Hin | Hin];
        try discriminate; try by apply elem_of_nil in Hin.
    + vm_compute. discriminate.
  - apply subscribe_unsubscribe_restores.
    + vm_compute. apply not_elem_of_nil.
    + vm_compute. discriminate.
Defined.

Lemma isCacheValid_monotone_witness :
  Store.isCacheValid 2000 (Some (Sample.entryAt 50)) 1000 = false ∧
  Store.isCacheValid 600 (Some (Sample.entryAt 50)) 5000 = true.
Proof.
  pose proof (isCacheValid_monotone 1050 2000 (Some (Sample.entryAt 50)) 1000 5000)
    as (Hexp & _).
  pose proof (isCacheValid_monotone 600 600 (Some (Sample.entryAt 50)) 1000 5000)
    as (_ & Hlong).
  split.
  - apply Hexp; [lia | reflexivity].
  - apply Hlong; [lia | reflexivity].
Defined.

Lemma store_listener_sets_witness :
  Store.wf (StoreTrace.runOps Store.empty Scenario.churn) ∧
  StoreTrace.noEmptySet (StoreTrace.runOps Store.empty Scenario.churn).
Proof.
  apply store_listener_sets.
  - apply (bool_decide_unpack _). vm_compute. exact I.
  - apply (bool_decide_unpack _). vm_compute. exact I.
Defined.
Lemma reset_purges_witness :
  reachable Rev2 Sample.failedEntry ∧
  Store.getState "K" (store Sample.failedEntry) ≠ None ∧
  Store.getState "K" (store (reset Rev2 Sample.failedEntry)) = None ∧
  (execute Rev2 [1%nat] 200 (reset Rev2 Sample.failedEntry)).2 = Awaiting ∧
  reachable Rev1 Scenario.rev1Cached ∧
  store (reset Rev1 Scenario.rev1Cached) = store Scenario.rev1Cached ∧
  Store.getState "K" (store (reset Rev1 Scenario.rev1Cached))
  = Some (Sample.entryAt 50) ∧
  (execute Rev1 [1%nat] 100 (reset Rev1 Scenario.rev1Cached)).2
  = Done (Resolved (Some "v")) ∧
  Store.getState "K"
    (store (reset Rev1 (run Rev1 Scenario.rev1Cached [Execute [1%nat] 2000]))) = None.
Proof.
  assert (Hreach : reachable Rev2 Sample.failedEntry).
  { exists Sample.keyedCache, Sample.emptyStore,
      [Execute [1%nat] 100; Settle 0 (Rejected "boom") 101]. reflexivity. }
  assert (Hreach1 : reachable Rev1 Scenario.rev1Cached).
  { exists Sample.keyedCache, Scenario.cachedK, []. reflexivity. }
  assert (Hreach2 : reachable Rev1
                      (run Rev1 Scenario.rev1Cached [Execute [1%nat] 2000])).
  { exists Sample.keyedCache, Scenario.cachedK, [Execute [1%nat] 2000].
    reflexivity. }
  pose proof (reset_purges Rev2 Sample.failedEntry Hreach eq_refl)
    as (_ & _ & Hgone & _ & _ & _ & _ & Hrev2 & _).
  pose proof (reset_purges Rev1 Scenario.rev1Cached Hreach1 eq_refl)
    as (_ & _ & _ & _ & _ & _ & _ & _ & Hrev1).
  pose proof (reset_purges Rev1 _ Hreach2 eq_refl) as (_ & _ & Hgone2 & _).
  destruct (Hrev1 eq_refl) as (_ & _ & _ & Hnone).
  destruct (Hnone eq_refl) as (Hstore & _).
  split_and!.
  - exact Hreach.
  - vm_compute. discriminate.
  - apply Hgone; [reflexivity | discriminate].
  - exact (proj1 (proj2 (Hrev2 eq_refl) [1%nat] 200)).
  - exact Hreach1.
  - exact Hstore.
  - rewrite Hstore. reflexivity.
  - reflexivity.
  - apply Hgone2; [reflexivity | discriminate].
Defined.

Lemma store_writes_are_mirrored_witness :
  reachable Rev2 Scenario.keyedMounted ∧
  localState (ctrl (step Rev2 Scenario.keyedMounted (ExtSetState "K" (Sample.entryAt 7))))
  = asyncOfTask (Sample.entryAt 7).
Proof.
  assert (Hreach : reachable Rev2 Scenario.keyedMounted).
  { exists Sample.keyedCache, Sample.emptyStore, []. reflexivity. }
  split; [exact Hreach |].
  exact (proj1 (store_writes_are_mirrored Rev2 Scenario.keyedMounted "K"
                  (Sample.entryAt 7) Hreach eq_refl eq_refl)).
Defined.

Lemma execute_supersedes_witness :
  reachable Rev2 Sample.onePending ∧
  current Rev2 1 (started Rev2 [2%nat] Sample.onePending)
    (execute Rev2 [2%nat] 101 Sample.onePending).1.
Proof.
  assert (Hreach : reachable Rev2 Sample.onePending).
  { exists Sample.unkeyed, Sample.emptyStore, [Execute [1%nat] 100]. reflexivity. }
  split; [exact Hreach |].
  exact (proj1 (proj2 (execute_supersedes Rev2 Sample.onePending [2%nat] 101
                         Hreach eq_refl eq_refl))).
Defined.

Lemma cancel_aborts_signal_witness :
  let w := mount Rev2 Sample.unkeyed Sample.emptyStore in
  reachable Rev2 w ∧
  signalAborted Rev2 (started Rev2 [1%nat] w)
    (cancel Rev2 (execute Rev2 [1%nat] 100 w).1) = true.
Proof.
  cbv zeta.
  assert (Hreach : reachable Rev2 (mount Rev2 Sample.unkeyed Sample.emptyStore)).
  { exists Sample.unkeyed, Sample.emptyStore, []. reflexivity. }
  split; [exact Hreach |].
  exact (proj1 (proj2 (cancel_aborts_signal
                         (mount Rev2 Sample.unkeyed Sample.emptyStore) [1%nat] 100
                         Hreach eq_refl))).
Defined.

Lemma success_then_cache_hit_witness :
  current Rev2 0 (started Rev2 [1%nat] Scenario.keyedMounted) Scenario.keyedPending ∧
  (execute Rev2 [1%nat] 600
     (settle Rev2 0 (Fulfilled "v") 101 Scenario.keyedPending).1).2
  = Done (Resolved (Some "v")).
Proof.
  assert (Hcur : current Rev2 0 (started Rev2 [1%nat] Scenario.keyedMounted)
                   Scenario.keyedPending).
  { unfold current. split_and!; reflexivity. }
  split; [exact Hcur |].
  pose proof (success_then_cache_hit Rev2 Scenario.keyedPending 0 _ "v" 101 "K"
                Hcur eq_refl) as Hthm.
  destruct Hthm as (_ & _ & Hhit); [discriminate |].
  apply (Hhit [1%nat] 600 1000); [reflexivity | reflexivity | lia | lia | lia].
Defined.

Lemma failure_overwrites_entry_witness :
  current Rev2 0 (started Rev2 [1%nat] Scenario.keyedMounted) Scenario.keyedPending ∧
  Store.getState "K" (store (settle Rev2 0 (Rejected "boom") 101 Scenario.keyedPending).1)
  = Some (failureTask (started Rev2 [1%nat] Scenario.keyedMounted) "boom" 101).
Proof.
  assert (Hcur : current Rev2 0 (started Rev2 [1%nat] Scenario.keyedMounted)
                   Scenario.keyedPending).
  { unfold current. split_and!; reflexivity. }
  split; [exact Hcur |].
  apply (failure_overwrites_entry Rev2 Scenario.keyedPending 0 _ "boom" 101 "K" Hcur).
  - vm_compute. discriminate.
  - reflexivity.
  - discriminate.
Defined.

Lemma retry_is_local_witness :
  let inv := started Rev2 [1%nat] (mount Rev2 Sample.threeRetries Sample.emptyStore) in
  current Rev2 0 inv Scenario.retryPending ∧
  store (settle Rev2 0 (Rejected "boom") 101 Scenario.retryPending).1
  = store Scenario.retryPending ∧
  actionCalls (settle Rev2 0 (Rejected "boom") 101 Scenario.retryPending).1
  = [[1%nat]; [1%nat]].
Proof.
  cbv zeta.
  assert (Hcur : current Rev2 0
                   (started Rev2 [1%nat]
                      (mount Rev2 Sample.threeRetries Sample.emptyStore))
                   Scenario.retryPending).
  { unfold current. split_and!; reflexivity. }
  split; [exact Hcur |].
  pose proof (retry_is_local Rev2 Scenario.retryPending 0 _ "boom" 101 Hcur)
    as Hthm.
  destruct Hthm as (_ & Hst & _ & Hac & _); [vm_compute; reflexivity |].
  split; [exact Hst | exact Hac].
Defined.

Lemma execute_marks_loading_witness :
  ∃ entry,
    Store.getState "K" (store (execute Rev2 [1%nat] 100 Scenario.keyedMounted).1)
    = Some entry ∧
    ts_loading entry = true ∧ requestId entry = 1.
Proof.
  destruct (execute_marks_loading Rev2 Scenario.keyedMounted [1%nat] 100 "K")
    as (entry & Hget & Hload & Hrid & _).
  - reflexivity.
  - reflexivity.
  - discriminate.
  - exists entry. split_and!; [exact Hget | exact Hload | exact Hrid].
Defined.

Lemma retry_count_bounded_witness :
  reachable Rev2 Scenario.retriedThrice ∧
  inflight Scenario.retriedThrice !! 0%nat
  = Some {| inv_args := [1%nat]; inv_key := None; currentRequestId := 1;
            abortController := 0; currentOptions := Sample.threeRetries;
            inv_retryCount := 3 |} ∧
  0 ≤ 3 ≤ Z.max 0 (default 0 (maxRetries Sample.threeRetries)) ∧
  length (actionCalls
            (run Rev2 (mount Rev2 Sample.threeRetries Sample.emptyStore)
               (Execute [1%nat] 100
                :: rejections 0 [("e1", 101); ("e2", 102); ("e3", 103);
                                 ("e4", 104); ("e5", 105); ("e6", 106)])))
  = 4%nat ∧
  length (actionCalls
            (run Rev2 (mount Rev2 Scenario.negativeRetries Sample.emptyStore)
               (Execute [1%nat] 100 :: rejections 0 [("e1", 101); ("e2", 102)])))
  = 1%nat.
Proof.
  assert (Hreach : reachable Rev2 Scenario.retriedThrice).
  { exists Sample.threeRetries, Sample.emptyStore,
      [Execute [1%nat] 100; Settle 0 (Rejected "e1") 101;
       Settle 0 (Rejected "e2") 102; Settle 0 (Rejected "e3") 103].
    reflexivity. }
  assert (Hmount : reachable Rev2 (mount Rev2 Sample.threeRetries Sample.emptyStore)).
  { exists Sample.threeRetries, Sample.emptyStore, []. reflexivity. }
  assert (Hneg : reachable Rev2 (mount Rev2 Scenario.negativeRetries Sample.emptyStore)).
  { exists Scenario.negativeRetries, Sample.emptyStore, []. reflexivity. }
  assert (Hpending : inflight Scenario.retriedThrice !! 0%nat
                     = Some {| inv_args := [1%nat]; inv_key := None;
                               currentRequestId := 1; abortController := 0;
                               currentOptions := Sample.threeRetries;
                               inv_retryCount := 3 |}).
  { vm_compute. reflexivity. }
  assert (Hu : unmountedRef (ctrl (mount Rev2 Sample.threeRetries Sample.emptyStore))
               = false).
  { vm_compute. reflexivity. }
  assert (Hc : cachedFor
                 (keyFor Rev2 [1%nat] (mount Rev2 Sample.threeRetries Sample.emptyStore))
                 (optionsRef (ctrl (mount Rev2 Sample.threeRetries Sample.emptyStore)))
                 100 (mount Rev2 Sample.threeRetries Sample.emptyStore) = None).
  { vm_compute. reflexivity. }
  assert (Hu' : unmountedRef
                  (ctrl (mount Rev2 Scenario.negativeRetries Sample.emptyStore))
                = false).
  { vm_compute. reflexivity. }
  assert (Hc' : cachedFor
                  (keyFor Rev2 [1%nat]
                     (mount Rev2 Scenario.negativeRetries Sample.emptyStore))
                  (optionsRef
                     (ctrl (mount Rev2 Scenario.negativeRetries Sample.emptyStore)))
                  100 (mount Rev2 Scenario.negativeRetries Sample.emptyStore) = None).
  { vm_compute. reflexivity. }
  pose proof (retry_count_bounded Rev2 Scenario.retriedThrice Hreach) as (Hbound & _).
  pose proof (retry_count_bounded Rev2 _ Hmount) as (_ & Hcalls).
  pose proof (retry_count_bounded Rev2 _ Hneg) as (_ & Hcalls').
  specialize (Hbound 0%nat _ Hpending).
  destruct (Hcalls [1%nat] 100
              [("e1", 101); ("e2", 102); ("e3", 103);
               ("e4", 104); ("e5", 105); ("e6", 106)] Hu Hc) as (Hfour & _).
  destruct (Hcalls' [1%nat] 100 [("e1", 101); ("e2", 102)] Hu' Hc') as (Hone & _).
  split_and!.
  - exact Hreach.
  - exact Hpending.
  - exact (proj1 Hbound).
  - exact (proj2 Hbound).
  - etransitivity; [exact Hfour |]. vm_compute. reflexivity.
  - etransitivity; [exact Hone |]. vm_compute. reflexivity.
Defined.
Lemma mount_unmount_restores_store_witness :
  store (unmount Rev2 (mount Rev2 Sample.keyedCache Sample.userStore))
  = Sample.userStore.
Proof.
  apply mount_unmount_restores_store.
  intros k [= <-]. split.
  - vm_compute. apply not_elem_of_nil.
  - vm_compute. discriminate.
Defined.

Lemma rev2_mount_pulls_entry_witness :
  localState (ctrl (mount Rev2 Sample.derivedKey Sample.userStore))
  = asyncOfTask (Sample.entryAt 50).
Proof.
  pose proof (rev2_mount_pulls_entry Sample.derivedKey Sample.userStore "user-1"
                eq_refl) as Hthm.
  destruct Hthm as (_ & _ & _ & _ & Hloc); [discriminate |].
  exact Hloc.
Defined.
End MoreInstances.
